(** * beef-flux-store: the Store base class (base-store.ts)

    A shallow embedding of [packages/beef-flux-store/src/base-store.ts]:
    the JavaScript values the store handles, the schema engine
    ([sanitize], [validate], [sanitizeAndValidate], the per-type
    sanitizers and the builders [Store.string], [Store.int], ...), the
    keyed collection helpers ([upsertItem], [getItem], [removeItem],
    [removeItems]), the comparator of [sortBy], and the mutation /
    notification protocol ([listen], [ignore], [stateChange], [flush],
    [notify], [cloneState], [nextState], [seed], and the component
    class of [subscribeTo]).

    Objects are association lists in enumeration order (the order of
    [for ... in]).  Numbers are the integers and [NaN]; strings are
    sequences of 8-bit characters.  The methods run in a monad of
    state and exceptions; the state and the draft of the store are
    references into a heap of objects, so that one can tell the same
    object from an equal one. *)

From Stdlib Require Import ZArith String Ascii List Bool Lia.
From stdpp Require Import base tactics option list strings pretty.

Local Open Scope string_scope.
Local Open Scope list_scope.
Local Open Scope Z_scope.

(** ** JavaScript values *)

Module Js.

Unset Elimination Schemes.

Inductive value : Type :=
| VUndefined
| VNull
| VBool (b : bool)
| VNum (z : Z)
| VNaN
| VStr (s : string)
| VFun (f : nat)                      (* a function, known by its identity *)
| VDate (t : Z)                       (* a Date; [t] is getTime() *)
| VMoment (t : Z)                     (* a moment; [t] is valueOf() *)
| VArr (elems : list value)
| VObj (props : list (string * value)).

Set Elimination Schemes.

Definition props := list (string * value).

(** Induction over values, with the hypotheses for the members of an
    array and of an object. *)
Section value_ind.
Variable P : value -> Prop.
Hypothesis Hundef : P VUndefined.
Hypothesis Hnull : P VNull.
Hypothesis Hbool : forall b, P (VBool b).
Hypothesis Hnum : forall z, P (VNum z).
Hypothesis Hnan : P VNaN.
Hypothesis Hstr : forall s, P (VStr s).
Hypothesis Hfun : forall f, P (VFun f).
Hypothesis Hdate : forall t, P (VDate t).
Hypothesis Hmoment : forall t, P (VMoment t).
Hypothesis Harr : forall es, Forall P es -> P (VArr es).
Hypothesis Hobj : forall ps, Forall (fun kv => P (snd kv)) ps -> P (VObj ps).

End value_ind.

(** [typeof v] *)
Definition typeof (v : value) : string :=
  match v with
  | VUndefined => "undefined"
  | VNull => "object"
  | VBool _ => "boolean"
  | VNum _ | VNaN => "number"
  | VStr _ => "string"
  | VFun _ => "function"
  | VDate _ | VMoment _ | VArr _ | VObj _ => "object"
  end.

(** ToBoolean: the test of [if (v)] and of [v ? a : b]. *)
Definition truthy (v : value) : bool :=
  match v with
  | VUndefined | VNull | VNaN => false
  | VBool b => b
  | VNum z => negb (z =? 0)
  | VStr s => negb (String.eqb s "")
  | VFun _ | VDate _ | VMoment _ | VArr _ | VObj _ => true
  end.

Definition isArray (v : value) : bool :=
  match v with VArr _ => true | _ => false end.

(** [a === b].  Primitives compare by value and [NaN] differs from
    itself; functions compare by identity.  Arrays, objects and
    temporal values compare by reference in JavaScript: values carry
    no reference here, and two of them are taken to be two
    references. *)
Definition strict_eq (a b : value) : bool :=
  match a, b with
  | VUndefined, VUndefined => true
  | VNull, VNull => true
  | VBool x, VBool y => Bool.eqb x y
  | VNum x, VNum y => x =? y
  | VStr x, VStr y => String.eqb x y
  | VFun x, VFun y => Nat.eqb x y
  | _, _ => false
  end.

(** Exceptions, by their class: [new Error(msg)]; the TypeError of
    the runtime (a property read on [null] or [undefined], a call
    of something that is no function, an assignment to a property
    of a primitive in strict code); [new RangeError(msg)]. *)
Inductive exn : Type :=
| Error (msg : string)
| TypeError (msg : string)
| RangeError (msg : string).

Definition is_RangeError (e : exn) : bool :=
  match e with RangeError _ => true | _ => false end.

Inductive result (A : Type) : Type :=
| Ok (a : A)
| Throw (e : exn).
Arguments Ok {A} a.
Arguments Throw {A} e.

(** Property keys of an array index: "0", "1", ... *)
Definition index_key (i : nat) : string := pretty i.

Fixpoint assoc (k : string) (ps : props) : option value :=
  match ps with
  | [] => None
  | (k', v) :: ps' => if String.eqb k k' then Some v else assoc k ps'
  end.

(** [ps[k] = v] on the properties of an object: an existing key keeps
    its place in the enumeration order, a new key comes last. *)
Fixpoint assign_prop (k : string) (v : value) (ps : props) : props :=
  match ps with
  | [] => [(k, v)]
  | (k', v') :: ps' =>
      if String.eqb k k' then (k, v) :: ps' else (k', v') :: assign_prop k v ps'
  end.

Fixpoint find_index (k : string) (n i : nat) : option nat :=
  match n with
  | O => None
  | S n' => if String.eqb k (index_key i) then Some i else find_index k n' (S i)
  end.

(** The index an array key stands for, among the indices below [n]. *)
Definition array_index (k : string) (n : nat) : option nat := find_index k n 0%nat.

Fixpoint string_chars (s : string) : list value :=
  match s with
  | EmptyString => []
  | String c s' => VStr (String c EmptyString) :: string_chars s'
  end.

(** [o[k]], a read.  Arrays answer for their indices and for
    [length], strings likewise; named properties of arrays,
    functions and temporal values are not part of the value model
    and read as [undefined]. *)
Definition get (o : value) (k : string) : result value :=
  match o with
  | VUndefined => Throw (TypeError ("Cannot read properties of undefined (reading '" ++ k ++ "')"))
  | VNull => Throw (TypeError ("Cannot read properties of null (reading '" ++ k ++ "')"))
  | VObj ps => Ok (default VUndefined (assoc k ps))
  | VArr es =>
      if String.eqb k "length" then Ok (VNum (Z.of_nat (length es)))
      else Ok (default VUndefined (i ← array_index k (length es); es !! i))
  | VStr s =>
      if String.eqb k "length" then Ok (VNum (Z.of_nat (String.length s)))
      else Ok (default VUndefined
                 (i ← array_index k (String.length s); string_chars s !! i))
  | _ => Ok VUndefined
  end.

(** [o[k] = v]; the result is the object after the assignment.  The
    module is strict code: the assignment throws on a primitive.
    An assignment to a named property of an array, a function or a
    temporal value is not recorded (see [get]); an assignment to an
    index of an array is, for an index up to the length. *)
Definition set (o : value) (k : string) (v : value) : result value :=
  match o with
  | VUndefined => Throw (TypeError ("Cannot set properties of undefined (setting '" ++ k ++ "')"))
  | VNull => Throw (TypeError ("Cannot set properties of null (setting '" ++ k ++ "')"))
  | VBool _ | VNum _ | VNaN | VStr _ =>
      Throw (TypeError ("Cannot create property '" ++ k ++ "' on a primitive"))
  | VObj ps => Ok (VObj (assign_prop k v ps))
  | VArr es =>
      match array_index k (S (length es)) with
      | Some i => Ok (VArr (if decide (i < length es)%nat then <[i:=v]> es else es ++ [v]))
      | None => Ok o
      end
  | VFun _ | VDate _ | VMoment _ => Ok o
  end.

(** The own enumerable members of a value, in enumeration order. *)
Definition enumerable (v : value) : props :=
  match v with
  | VObj ps => ps
  | VArr es => imap (fun i x => (index_key i, x)) es
  | VStr s => imap (fun i x => (index_key i, x)) (string_chars s)
  | _ => []
  end.

(** The keys [for (k in o)] visits. *)
Definition keys (o : value) : list string :=
  match o with
  | VObj ps => map fst ps
  | VArr es => map index_key (seq 0 (length es))
  | VStr s => map index_key (seq 0 (String.length s))
  | _ => []
  end.

End Js.

Import Js.

(** ** Strings and numbers of the runtime *)

Module Runtime.

Definition code (c : ascii) : nat := nat_of_ascii c.

(** The class [[a-zA-Z]]; with the flag [i] it matches the same
    characters. *)
Definition is_letter (c : ascii) : bool :=
  ((97 <=? code c) && (code c <=? 122) || (65 <=? code c) && (code c <=? 90))%nat.

(** [s.replace(/[a-zA-Z]+/gi, '')] *)
Fixpoint strip_letters (s : string) : string :=
  match s with
  | EmptyString => EmptyString
  | String c s' => if is_letter c then strip_letters s' else String c (strip_letters s')
  end.

(** White space of the ASCII range: TAB, LF, VT, FF, CR and SP. *)
Definition is_white (c : ascii) : bool :=
  ((9 <=? code c) && (code c <=? 13) || (code c =? 32))%nat.

Fixpoint trim_start (s : string) : string :=
  match s with
  | String c s' => if is_white c then trim_start s' else s
  | EmptyString => EmptyString
  end.

Definition trim (s : string) : string :=
  String.rev (trim_start (String.rev (trim_start s))).

Definition lower (c : ascii) : ascii :=
  if ((65 <=? code c) && (code c <=? 90))%nat then ascii_of_nat (code c + 32) else c.

Fixpoint toLowerCase (s : string) : string :=
  match s with
  | EmptyString => EmptyString
  | String c s' => String (lower c) (toLowerCase s')
  end.

(** The value of a digit in radix 10 or 16. *)
Definition digit (radix : Z) (c : ascii) : option Z :=
  let n := Z.of_nat (code c) in
  if (48 <=? n) && (n <=? 57) then Some (n - 48)
  else if (radix =? 16) && (97 <=? n) && (n <=? 102) then Some (n - 87)
  else if (radix =? 16) && (65 <=? n) && (n <=? 70) then Some (n - 55)
  else None.

(** The longest prefix of digits, read from the left: [acc] is the
    value so far, [None] while no digit was read. *)
Fixpoint digits (radix : Z) (s : string) (acc : option Z) : option Z :=
  match s with
  | EmptyString => acc
  | String c s' =>
      match digit radix c with
      | Some d => digits radix s' (Some (radix * default 0 acc + d))
      | None => acc
      end
  end.

(** [parseInt(s)] for a string, no radix given: leading white space,
    a sign, [0x] or [0X] for radix 16, then the longest prefix of
    digits; [NaN] when there is no digit.  The value is computed in
    Z: it is the number JavaScript gives where it is a safe integer
    (below 2^53 in absolute value); past that JavaScript rounds to
    the nearest double. *)
Definition parseInt_string (s : string) : value :=
  let s1 := trim_start s in
  let '(sign, s2) :=
    match s1 with
    | String "-" r => (-1, r)
    | String "+" r => (1, r)
    | _ => (1, s1)
    end in
  let '(radix, s3) :=
    match s2 with
    | String "0" (String "x" r) | String "0" (String "X" r) => (16, r)
    | _ => (10, s2)
    end in
  match digits radix s3 None with
  | Some n => VNum (sign * n)
  | None => VNaN
  end.

Definition isNaN (v : value) : bool :=
  match v with VNaN => true | _ => false end.

Section Host.
(** [String(v)] of a function, an array, an object or a temporal
    value is the host's business (the source text, the time zone,
    a [toString] of its own). *)
Variable host_toString : value -> string.

(** [String(v)] *)
Definition js_String (v : value) : string :=
  match v with
  | VUndefined => "undefined"
  | VNull => "null"
  | VBool true => "true"
  | VBool false => "false"
  | VNum z => pretty z                (* decimal: exact on the safe integers *)
  | VNaN => "NaN"
  | VStr s => s
  | _ => host_toString v
  end.

(** [parseInt(v)]: the argument is made a string first. *)
Definition parseInt (v : value) : value := parseInt_string (js_String v).

(** ToPrimitive, hint number: a temporal value gives its time,
    another object its string. *)
Definition to_primitive (v : value) : value :=
  match v with
  | VDate t | VMoment t => VNum t
  | VFun _ | VArr _ | VObj _ => VStr (host_toString v)
  | _ => v
  end.

(** ToNumber of a primitive, [None] for [NaN].  A string counts
    when it is an integer literal, decimal or [0x]; the empty
    string is 0. *)
Definition string_to_number (s : string) : option Z :=
  let s1 := trim s in
  match s1 with
  | EmptyString => Some 0
  | String "0" (String "x" r) | String "0" (String "X" r) =>
      if forallb (fun c => bool_decide (is_Some (digit 16 c))) (list_ascii_of_string r)
      then digits 16 r None else None
  | _ =>
      let '(sign, r) :=
        match s1 with
        | String "-" r => (-1, r)
        | String "+" r => (1, r)
        | _ => (1, s1)
        end in
      if forallb (fun c => bool_decide (is_Some (digit 10 c))) (list_ascii_of_string r)
      then n ← digits 10 r None; Some (sign * n) else None
  end.

Definition to_number (p : value) : option Z :=
  match p with
  | VNull => Some 0
  | VBool b => Some (if b then 1 else 0)
  | VNum z => Some z
  | VStr s => string_to_number s
  | _ => None
  end.

(** [a < b]: two strings compare as strings, anything else as
    numbers, and a comparison with [NaN] is false. *)
Definition js_lt (a b : value) : bool :=
  match to_primitive a, to_primitive b with
  | VStr x, VStr y => String.ltb x y
  | pa, pb =>
      match to_number pa, to_number pb with
      | Some x, Some y => x <? y
      | _, _ => false
      end
  end.

(** [a > b] *)
Definition js_gt (a b : value) : bool := js_lt b a.
End Host.

End Runtime.

Import Runtime.

(** ** The store and the machine it runs on *)

Module Model.

Definition loc := nat.

(** What a variable or a field of the store holds: a primitive value,
    or a reference to an object of the heap.  Two references are the
    same object when they are the same location.  An object of the
    heap is a tree of values: its members are held by value. *)
Inductive ref : Type :=
| Prim (v : value)
| Ref (l : loc).

Record StateHistory : Type := mkStateHistory {
  actionName : string;
  history_state : ref
}.

Record StoreConfig : Type := mkStoreConfig {
  async : bool;
  flushRate : Z;
  highPerformance : bool;
  meshKey : option string
}.

Definition DEFAULT_CONFIG : StoreConfig :=
  {| async := false; flushRate := 10; highPerformance := false; meshKey := None |}.

Definition ACTION_SEED : string := "__STORE_STATE_SEED__".

(** The fields of [Store<T>].  A listener is a function, known by its
    identity. *)
Record Store : Type := mkStore {
  uuid : string;
  config : StoreConfig;
  state : ref;
  stateHistory : list StateHistory;
  listeners : list nat;
  dirtyState : bool;
  _nextState : ref;
  debug : bool;
  pendingActions : list string
}.

(** A store as the field initialisers and the constructor leave it. *)
Definition new_Store (id : string) : Store :=
  {| uuid := id; config := DEFAULT_CONFIG; state := Prim VNull;
     stateHistory := []; listeners := []; dirtyState := false;
     _nextState := Prim VNull; debug := false; pendingActions := [] |}.

(** The machine: the store [this], the heap of objects, and what the
    store sent to its collaborators, in the order of the calls: the
    lines of the console, the actions given to
    [ActionManager.dispatch], the stores given to
    [StoreManager.queueFlush], and the calls of listeners with the
    two states they received. *)
Record Machine : Type := mkMachine {
  this : Store;
  heap : list value;
  console : list string;
  dispatched : list (string * list ref);
  flushRequests : list string;
  delivered : list (nat * ref * ref)
}.

Definition new_Machine (s : Store) : Machine :=
  {| this := s; heap := []; console := []; dispatched := [];
     flushRequests := []; delivered := [] |}.

Definition with_this (f : Store -> Store) (m : Machine) : Machine :=
  {| this := f (this m); heap := heap m; console := console m;
     dispatched := dispatched m; flushRequests := flushRequests m;
     delivered := delivered m |}.

Definition with_heap (f : list value -> list value) (m : Machine) : Machine :=
  {| this := this m; heap := f (heap m); console := console m;
     dispatched := dispatched m; flushRequests := flushRequests m;
     delivered := delivered m |}.

Definition with_console (f : list string -> list string) (m : Machine) : Machine :=
  {| this := this m; heap := heap m; console := f (console m);
     dispatched := dispatched m; flushRequests := flushRequests m;
     delivered := delivered m |}.

Definition with_dispatched (f : list (string * list ref) -> list (string * list ref))
    (m : Machine) : Machine :=
  {| this := this m; heap := heap m; console := console m;
     dispatched := f (dispatched m); flushRequests := flushRequests m;
     delivered := delivered m |}.

Definition with_flushRequests (f : list string -> list string) (m : Machine) : Machine :=
  {| this := this m; heap := heap m; console := console m;
     dispatched := dispatched m; flushRequests := f (flushRequests m);
     delivered := delivered m |}.

Definition with_delivered (f : list (nat * ref * ref) -> list (nat * ref * ref))
    (m : Machine) : Machine :=
  {| this := this m; heap := heap m; console := console m;
     dispatched := dispatched m; flushRequests := flushRequests m;
     delivered := f (delivered m) |}.

(** Setters of the fields of [this]. *)
Definition set_state (r : ref) (s : Store) : Store :=
  {| uuid := uuid s; config := config s; state := r;
     stateHistory := stateHistory s; listeners := listeners s;
     dirtyState := dirtyState s; _nextState := _nextState s;
     debug := debug s; pendingActions := pendingActions s |}.

Definition set_stateHistory (h : list StateHistory) (s : Store) : Store :=
  {| uuid := uuid s; config := config s; state := state s;
     stateHistory := h; listeners := listeners s;
     dirtyState := dirtyState s; _nextState := _nextState s;
     debug := debug s; pendingActions := pendingActions s |}.

Definition set_listeners (l : list nat) (s : Store) : Store :=
  {| uuid := uuid s; config := config s; state := state s;
     stateHistory := stateHistory s; listeners := l;
     dirtyState := dirtyState s; _nextState := _nextState s;
     debug := debug s; pendingActions := pendingActions s |}.

Definition set_dirtyState (b : bool) (s : Store) : Store :=
  {| uuid := uuid s; config := config s; state := state s;
     stateHistory := stateHistory s; listeners := listeners s;
     dirtyState := b; _nextState := _nextState s;
     debug := debug s; pendingActions := pendingActions s |}.

Definition set_nextState (r : ref) (s : Store) : Store :=
  {| uuid := uuid s; config := config s; state := state s;
     stateHistory := stateHistory s; listeners := listeners s;
     dirtyState := dirtyState s; _nextState := r;
     debug := debug s; pendingActions := pendingActions s |}.

Definition set_pendingActions (p : list string) (s : Store) : Store :=
  {| uuid := uuid s; config := config s; state := state s;
     stateHistory := stateHistory s; listeners := listeners s;
     dirtyState := dirtyState s; _nextState := _nextState s;
     debug := debug s; pendingActions := p |}.

(** *** The monad of the methods: a state (the machine) and
    exceptions; the machine survives a throw. *)
Definition M (A : Type) : Type := Machine -> result A * Machine.

#[global] Instance M_ret : MRet M := fun A a m => (Ok a, m).

#[global] Instance M_bind : MBind M := fun A B f c m =>
  match c m with
  | (Ok a, m') => f a m'
  | (Throw e, m') => (Throw e, m')
  end.

Definition throw {A : Type} (e : exn) : M A := fun m => (Throw e, m).

Definition lift {A : Type} (r : result A) : M A := fun m => (r, m).

Definition gets {A : Type} (f : Machine -> A) : M A := fun m => (Ok (f m), m).

Definition modify (f : Machine -> Machine) : M unit := fun m => (Ok tt, f m).

(** [console.warn(msg, ...)] and [console.debug(msg, ...)]: the line
    is kept by its text. *)
Definition warn (msg : string) : M unit := modify (with_console (fun c => c ++ [msg])).

(** [this.field] and [this.field = x] *)
Definition this_ {A : Type} (f : Store -> A) : M A := gets (fun m => f (this m)).

Definition update_this (f : Store -> Store) : M unit := modify (with_this f).

(** A new object on the heap. *)
Definition alloc (v : value) : M ref :=
  fun m => (Ok (Ref (length (heap m))), with_heap (fun h => h ++ [v]) m).

(** The object at a location; every location [alloc] gave out is on
    the heap for good. *)
Definition deref (l : loc) : M value :=
  gets (fun m => default VUndefined (heap m !! l)).

Definition store_at (l : loc) (v : value) : M unit :=
  modify (with_heap (fun h => <[l:=v]> h)).

End Model.

Import Model.

(** ** The host: what the code calls and does not define *)

(** The functions of the host program and of the libraries the store
    imports.  A function value [VFun f] is applied through [call]; the
    other members are [String] on objects, [parseFloat], the parser
    and the formatter of moment ([moment_parse utc value format] is
    the time of the moment when it is valid), and lodash's [merge],
    which returns its first argument after the merge. *)
Record Host : Type := mkHost {
  host_toString : value -> string;
  call : nat -> list value -> result value;
  parseFloat : value -> value;
  moment_parse : bool -> value -> value -> option Z;
  moment_format : Z -> string -> string;
  lodash_merge : value -> value -> value
}.

(** ** Schema descriptors *)

Module Schema.

(** The options of a descriptor, each [undefined] when absent. *)
Record options : Type := mkOptions {
  d_type : value;
  d_value : value;
  d_initial : value;
  d_label : value;
  d_validation : value;
  d_min : value;
  d_max : value;
  d_minLength : value;
  d_maxLength : value;
  d_format : value;
  d_utc : value;
  d_constructor : value;
  d_sanitize : value;
  d_memberType : value
}.

(** A descriptor: its options, its [schema] member (absent, [null],
    [false], or a factory of the nested schema) and its
    [memberTypeConfig].  A schema is the sequence of its fields in
    enumeration order. *)
Inductive descriptor : Type :=
| Descriptor (o : options) (sch : subschema) (memberTypeConfig : member_config)
with member_config : Type :=
| NoConfig
| Config (d : descriptor)
with subschema : Type :=
| SchemaUndefined
| SchemaNull
| SchemaFalse
| SchemaFactory (f : unit -> schema)
with schema : Type :=
| SNil
| SCons (field : string) (d : descriptor) (rest : schema).

Definition no_options : options :=
  {| d_type := VUndefined; d_value := VUndefined; d_initial := VUndefined;
     d_label := VUndefined; d_validation := VUndefined; d_min := VUndefined;
     d_max := VUndefined; d_minLength := VUndefined; d_maxLength := VUndefined;
     d_format := VUndefined; d_utc := VUndefined; d_constructor := VUndefined;
     d_sanitize := VUndefined; d_memberType := VUndefined |}.

Fixpoint fields (s : schema) : list string :=
  match s with
  | SNil => []
  | SCons f _ rest => f :: fields rest
  end.

(** [typeof x !== 'undefined'] *)
Definition defined (v : value) : bool := negb (String.eqb (typeof v) "undefined").

Definition or_else (v base : value) : value := if defined v then v else base.

(** The options of [extend(true, {type: memberType, schema: null}, config)]:
    a member of [config] that is not [undefined] wins. *)
Definition member_options (memberType : value) (config : options) : options :=
  {| d_type := or_else (d_type config) memberType;
     d_value := d_value config; d_initial := d_initial config;
     d_label := d_label config; d_validation := d_validation config;
     d_min := d_min config; d_max := d_max config;
     d_minLength := d_minLength config; d_maxLength := d_maxLength config;
     d_format := d_format config; d_utc := d_utc config;
     d_constructor := d_constructor config; d_sanitize := d_sanitize config;
     d_memberType := d_memberType config |}.

(** The builders [Store.string], [Store.int], ...: the defaults,
    extended by [params].  [initial] is a function of the host. *)
Definition builder (type : string) (initial : nat) (params : options) : options :=
  {| d_type := or_else (d_type params) (VStr type);
     d_value := d_value params;
     d_initial := or_else (d_initial params) (VFun initial);
     d_label := d_label params; d_validation := d_validation params;
     d_min := d_min params; d_max := d_max params;
     d_minLength := d_minLength params; d_maxLength := d_maxLength params;
     d_format := d_format params; d_utc := d_utc params;
     d_constructor := d_constructor params; d_sanitize := d_sanitize params;
     d_memberType := d_memberType params |}.

(** A descriptor with one option set, as in [{...o, min: lo}]. *)
Definition with_min (lo : value) (o : options) : options :=
  {| d_type := d_type o; d_value := d_value o; d_initial := d_initial o;
     d_label := d_label o; d_validation := d_validation o; d_min := lo;
     d_max := d_max o; d_minLength := d_minLength o; d_maxLength := d_maxLength o;
     d_format := d_format o; d_utc := d_utc o; d_constructor := d_constructor o;
     d_sanitize := d_sanitize o; d_memberType := d_memberType o |}.

Definition with_max (hi : value) (o : options) : options :=
  {| d_type := d_type o; d_value := d_value o; d_initial := d_initial o;
     d_label := d_label o; d_validation := d_validation o; d_min := d_min o;
     d_max := hi; d_minLength := d_minLength o; d_maxLength := d_maxLength o;
     d_format := d_format o; d_utc := d_utc o; d_constructor := d_constructor o;
     d_sanitize := d_sanitize o; d_memberType := d_memberType o |}.

Definition with_type (t : string) (o : options) : options :=
  {| d_type := VStr t; d_value := d_value o; d_initial := d_initial o;
     d_label := d_label o; d_validation := d_validation o; d_min := d_min o;
     d_max := d_max o; d_minLength := d_minLength o; d_maxLength := d_maxLength o;
     d_format := d_format o; d_utc := d_utc o; d_constructor := d_constructor o;
     d_sanitize := d_sanitize o; d_memberType := d_memberType o |}.

Definition with_validation (rules : value) (o : options) : options :=
  {| d_type := d_type o; d_value := d_value o; d_initial := d_initial o;
     d_label := d_label o; d_validation := rules; d_min := d_min o;
     d_max := d_max o; d_minLength := d_minLength o; d_maxLength := d_maxLength o;
     d_format := d_format o; d_utc := d_utc o; d_constructor := d_constructor o;
     d_sanitize := d_sanitize o; d_memberType := d_memberType o |}.


Definition with_minLength (lo : value) (o : options) : options :=
  {| d_type := d_type o; d_value := d_value o; d_initial := d_initial o;
     d_label := d_label o; d_validation := d_validation o; d_min := d_min o;
     d_max := d_max o; d_minLength := lo; d_maxLength := d_maxLength o;
     d_format := d_format o; d_utc := d_utc o; d_constructor := d_constructor o;
     d_sanitize := d_sanitize o; d_memberType := d_memberType o |}.

Definition with_maxLength (hi : value) (o : options) : options :=
  {| d_type := d_type o; d_value := d_value o; d_initial := d_initial o;
     d_label := d_label o; d_validation := d_validation o; d_min := d_min o;
     d_max := d_max o; d_minLength := d_minLength o; d_maxLength := hi;
     d_format := d_format o; d_utc := d_utc o; d_constructor := d_constructor o;
     d_sanitize := d_sanitize o; d_memberType := d_memberType o |}.


(** The fields of [s1], then the fields of [s2]. *)
Fixpoint schema_app (s1 s2 : schema) : schema :=
  match s1 with
  | SNil => s2
  | SCons f d rest => SCons f d (schema_app rest s2)
  end.

End Schema.

Import Schema.

(** ** The schema engine *)

Module Engine.
Section Engine.

Variable H : Host.

(** [f(args)] for a value [f] *)
Definition call_value (f : value) (args : list value) : M value :=
  match f with
  | VFun n => lift (call H n args)
  | _ => throw (TypeError (js_String (host_toString H) f ++ " is not a function"))
  end.

(** The length an argument of [substr] stands for. *)
Definition to_length (v : value) : nat :=
  Z.to_nat (default 0 (to_number (to_primitive (host_toString H) v))).

(** *** The sanitizers of the scalar types *)

Definition sanitizeCallback (value : value) (schemaConfig : options) : M Js.value :=
  if negb (String.eqb (typeof value) "function")
  then throw (Error "Provided callback is not a valid function")
  else mret value.

Definition sanitizeInteger (value : value) (schemaConfig : options) : M Js.value :=
  let coerce (value : Js.value) : M Js.value :=
    let value := parseInt (host_toString H) value in
    if defined (d_min schemaConfig) && js_lt (host_toString H) value (d_min schemaConfig)
    then throw (Error "Provided value cannot be sanitized, value is below minimum integer allowed")
    else if defined (d_max schemaConfig) && js_gt (host_toString H) value (d_max schemaConfig)
    then throw (Error "Provided value cannot be sanitized, value is greater than maximum integer allowed")
    else if isNaN value then mret (VStr "")
    else mret value in
  match value with
  | VStr s =>
      let value := strip_letters s in
      if (String.length value =? 0)%nat then mret (VStr "")
      else coerce (VStr value)
  | _ => coerce value
  end.

Definition sanitizeFloat (value : value) (schemaConfig : options) : M Js.value :=
  let value := parseFloat H value in
  if defined (d_min schemaConfig) && js_lt (host_toString H) value (d_min schemaConfig)
  then throw (Error "Provided value cannot be sanitized, value is below minimum float allowed")
  else if defined (d_max schemaConfig) && js_gt (host_toString H) value (d_max schemaConfig)
  then throw (Error "Provided value cannot be sanitized, value is greater than maximum float allowed")
  else mret value.

Definition sanitizeString (value : value) (schemaConfig : options) : M Js.value :=
  let value := js_String (host_toString H) value in
  let len := VNum (Z.of_nat (String.length value)) in
  if defined (d_minLength schemaConfig) && js_lt (host_toString H) len (d_minLength schemaConfig)
  then throw (Error "Provided value cannot be sanitized, string length is below minimum allowed")
  else if defined (d_maxLength schemaConfig) && js_gt (host_toString H) len (d_maxLength schemaConfig)
  then
    _ ← warn "Value was truncated during sanitization";
    mret (VStr (String.substring 0 (to_length (d_maxLength schemaConfig)) value))
  else mret (VStr value).

(** [schemaConfig.field] was set to [field] by [sanitizeField]. *)
Definition sanitizeDateTime (value : value) (schemaConfig : options) (field : string)
    (json : bool) : M Js.value :=
  let utc := negb (defined (d_utc schemaConfig)) || truthy (d_utc schemaConfig) in
  match moment_parse H utc value (d_format schemaConfig) with
  | Some t =>
      if json then mret (VStr (moment_format H t "YYYY-MM-DD hh:mm:ss"))
      else mret (VMoment t)
  | None =>
      throw (Error ("Provided value (" ++ js_String (host_toString H) value
                      ++ ") cannot be sanitized for field (" ++ field
                      ++ "), is not a valid date"))
  end.

Definition sanitizeBoolean (value : value) (schemaConfig : options) : M Js.value :=
  if strict_eq value (VBool false) || strict_eq value (VBool true) then mret value
  else
    let word := match value with VStr s => Some (trim (toLowerCase s)) | _ => None end in
    if bool_decide (word = Some "false") then mret (VBool false)
    else if bool_decide (word = Some "true") then mret (VBool true)
    else if strict_eq (parseInt (host_toString H) value) (VNum 0) then mret (VBool false)
    else if strict_eq (parseInt (host_toString H) value) (VNum 1) then mret (VBool true)
    else throw (Error "Provided value cannot be santized, is not a valid boolean").

(** *** [extend(true, {}, obj)]: the copy [sanitize] works on.  Plain
    objects and arrays are copied in depth, a member that is
    [undefined] is left out, anything else is taken as it is. *)
Fixpoint extend_value (v : value) : value :=
  match v with
  | VObj ps =>
      VObj ((fix members (l : props) : props :=
               match l with
               | [] => []
               | (k, x) :: l' =>
                   match x with
                   | VUndefined => members l'
                   | _ => (k, extend_value x) :: members l'
                   end
               end) ps)
  | VArr es => VArr (map extend_value es)
  | _ => v
  end.

Definition extend_copy (obj : value) : value := extend_value (VObj (enumerable obj)).

(** [new schemaConfig.constructor(o)].  A descriptor without a
    [constructor] of its own has the one every object inherits,
    [Object], and [new Object(o)] is [o]. *)
Definition has_constructor (schemaConfig : options) : bool :=
  negb (defined (d_constructor schemaConfig))
  || String.eqb (typeof (d_constructor schemaConfig)) "function".

Definition construct (schemaConfig : options) (o : value) : M value :=
  if defined (d_constructor schemaConfig)
  then call_value (d_constructor schemaConfig) [o]
  else mret o.

(** *** [sanitizeField], without the object and array cases, which
    it is given.  The default of a missing value is stored in the
    object given, [obj[field] = ...], which throws on a primitive, and
    is read back from it.  ([sanitize] gives [sanitizeField] a copy of
    its own, which it does not read after the field is sanitized.) *)
Definition sanitizeField_body (o : options)
    (sanitizeObject sanitizeArray : value -> M value)
    (field : string) (json : bool) (obj : value) : M value :=
  if strict_eq (d_type o) (VStr "function") then mret (d_value o)
  else
    x0 ← lift (get obj field);
    x ← (if negb (defined x0)
         then
           v ← (if defined (d_initial o) then call_value (d_initial o) [] else mret VNull);
           _ ← lift (set obj field v);
           mret v
         else mret x0);
    let type := d_type o in
    let type_is t := strict_eq type (VStr t) in
    if strict_eq x VNull && negb (type_is "obj") && negb (type_is "object") then mret VNull
    else if type_is "int" || type_is "integer" then sanitizeInteger x o
    else if type_is "float" || type_is "double" then sanitizeFloat x o
    else if type_is "string" || type_is "char" || type_is "varchar" then sanitizeString x o
    else if type_is "date" || type_is "datetime" || type_is "timestamp" then sanitizeDateTime x o field json
    else if type_is "bool" || type_is "boolean" then sanitizeBoolean x o
    else if type_is "obj" || type_is "object" then sanitizeObject x
    else if type_is "array" || type_is "collection" then sanitizeArray x
    else if type_is "callback" then sanitizeCallback x o
    else if defined (d_sanitize o) then call_value (d_sanitize o) [x]  (* and the descriptor *)
    else mret VUndefined.

(** A member of an array whose descriptor is
    [extend(true, {type: memberType, schema: null}, {})]. *)
Definition sanitizeMember_plain (memberType : value) (json : bool) (v : value) : M value :=
  sanitizeField_body (member_options memberType no_options)
    (fun x => mret x)
    (fun x => if isArray x then mret x else mret (VArr []))
    "member" json (VObj [("member", v)]).

Definition not_a_function {A : Type} (what : string) : M A :=
  throw (TypeError (what ++ " is not a function")).

(** *** [sanitize] and [sanitizeField].  [sanitize_fields] is the
    loop of [sanitize] over the fields of the schema, [clean] the
    object it fills.  [base], when given, is the [memberType] of the
    array the descriptor is the [memberTypeConfig] of: the
    descriptor stands for
    [extend(true, {type: memberType, schema: null}, d)]. *)
Fixpoint sanitize_fields (sch : schema) (json : bool) (tmp : value) (clean : props)
    {struct sch} : M props :=
  match sch with
  | SNil => mret clean
  | SCons field d rest =>
      v ← sanitizeField None field d json tmp;
      sanitize_fields rest json tmp (assign_prop field v clean)
  end
with sanitizeField (base : option value) (field : string) (d : descriptor)
    (json : bool) (obj : value) {struct d} : M value :=
  match d with
  | Descriptor o0 sub config =>
      let o := match base with Some memberType => member_options memberType o0 | None => o0 end in
      let sanitize (value : value) (f : unit -> schema) (json : bool) : M Js.value :=
        clean ← sanitize_fields (f tt) json (extend_copy value) []; mret (VObj clean) in
      let sanitizeObject (value : value) : M Js.value :=
        match sub, base with
        | SchemaUndefined, None =>
            throw (Error "Provided value cannot be santized, no reference schema provided for field type of object")
        | SchemaUndefined, Some _ | SchemaNull, _ => mret value
        | SchemaFalse, _ =>
            if strict_eq value VNull then mret VNull
            else not_a_function "schemaConfig.schema"
        | SchemaFactory f, _ =>
            if strict_eq value VNull then mret VNull
            else if negb json && has_constructor o
            then c ← sanitize value f false; construct o c
            else sanitize value f json
        end in
      let sanitizeArray (value : value) : M Js.value :=
        if defined (d_memberType o) then
          match value with
          | VArr es =>
              rs ← (fix each (l : list Js.value) : M (list Js.value) :=
                      match l with
                      | [] => mret []
                      | v :: l' =>
                          r ← match config with
                              | Config d' =>
                                  sanitizeField (Some (d_memberType o)) "member" d' json
                                    (VObj [("member", v)])
                              | NoConfig => sanitizeMember_plain (d_memberType o) json v
                              end;
                          rs ← each l'; mret (r :: rs)
                      end) es;
              mret (VArr rs)
          | _ => mret (VArr [])
          end
        else
          match value with
          | VArr es =>
              match sub with
              | SchemaUndefined | SchemaNull | SchemaFalse => mret value
              | SchemaFactory f =>
                  rs ← (fix each (l : list Js.value) : M (list Js.value) :=
                          match l with
                          | [] => mret []
                          | v :: l' =>
                              r ← (if negb json && has_constructor o
                                   then c ← sanitize v f false; construct o c
                                   else sanitize v f json);
                              rs ← each l'; mret (r :: rs)
                          end) es;
                  mret (VArr rs)
              end
          | _ => mret (VArr [])
          end in
      sanitizeField_body o sanitizeObject sanitizeArray field json obj
  end.

(** [sanitize(obj, schema, json)] *)
Definition sanitize (obj : value) (schema : schema) (json : bool) : M value :=
  let tmp := extend_copy obj in
  clean ← sanitize_fields schema json tmp [];
  mret (VObj clean).

(** *** [validate] *)

(** [errors.concat(results)] *)
Definition concat (errors : list value) (results : value) : list value :=
  match results with
  | VArr es => errors ++ es
  | _ => errors ++ [results]
  end.

(** [a + b] where one of the two is a string *)
Definition str (v : value) : string := js_String (host_toString H) v.

(** The [switch] of [validate] on the name of a rule: the errors
    after the rule. *)
Definition validate_rule (validation : string) (label value validationParameters : value)
    (errors : list Js.value) : M (list Js.value) :=
  if String.eqb validation "required" then
    if String.eqb (typeof value) "undefined" || strict_eq value VNull
       || strict_eq value (VStr "")
    then mret (errors ++ [VStr (str label ++ " is required")])
    else mret errors
  else if String.eqb validation "minLength" then
    len ← lift (get value "length");
    if js_lt (host_toString H) len validationParameters
    then mret (errors ++ [VStr (str label ++ " must be at least "
                                  ++ str validationParameters ++ " characters")])
    else mret errors
  else if String.eqb validation "maxLength" then
    len ← lift (get value "length");
    if js_gt (host_toString H) len validationParameters
    then mret (errors ++ [VStr (str label ++ " must be at under "
                                  ++ str validationParameters ++ " characters")])
    else mret errors
  else if String.eqb (typeof validationParameters) "function" then
    results ← call_value validationParameters [value];
    if negb (strict_eq results (VBool true)) then mret (concat errors results)
    else mret errors
  else mret errors.

(** [errors.length > 0 ? errors : true] *)
Definition verdict (errors : list value) : value :=
  if (0 <? length errors)%nat then VArr errors else VBool true.

(** The loop of [validate] over the rules of a field, from [errors]
    on.  [nested] is [this.validate(value, schema[field].schema())]. *)
Fixpoint validate_rules (o : options) (field : string) (obj : value)
    (nested : value -> M value) (names : list string) (errors : list value)
    : M (list value) :=
  match names with
  | [] => mret errors
  | validation :: names' =>
      if (0 <? length errors)%nat then mret errors
      else
        value ← lift (get obj field);
        validationParameters ← lift (get (d_validation o) validation);
        subErrors ←
          (if strict_eq (d_type o) (VStr "object")
              && String.eqb validation "validate"
              && truthy validationParameters
           then nested value
           else mret (VBool true));
        if negb (strict_eq subErrors (VBool true))
        then mret (concat errors subErrors)
        else
          let label := if truthy (d_label o) then d_label o else VStr field in
          errors ← validate_rule validation label value validationParameters errors;
          validate_rules o field obj nested names' errors
  end.

(** [validate_fields] is the loop of [validate] over the fields of
    the schema, from [errors] on. *)
Fixpoint validate_fields (sch : schema) (obj : value) (errors : list value)
    {struct sch} : M (list value) :=
  match sch with
  | SNil => mret errors
  | SCons field (Descriptor o sub _) rest =>
      errors ←
        (if defined (d_validation o) then
           validate_rules o field obj
             (fun value =>
                match sub with
                | SchemaFactory f =>
                    es ← validate_fields (f tt) value []; mret (verdict es)
                | _ => not_a_function "schema[field].schema"
                end)
             (keys (d_validation o)) errors
         else mret errors);
      validate_fields rest obj errors
  end.

(** [validate(obj, schema)] *)
Definition validate (obj : value) (schema : schema) : M value :=
  errors ← validate_fields schema obj [];
  mret (verdict errors).

(** [sanitizeAndValidate(obj, schema)] *)
Definition sanitizeAndValidate (obj : value) (schema : schema) : M value :=
  model ← sanitize obj schema false;
  validation ← validate model schema;
  if strict_eq validation (VBool true) then mret model else mret validation.

End Engine.
End Engine.

(** ** The keyed collection helper [upsertItem] *)

Module Collection.
Section Collection.

Variable H : Host.

(** What a call of [upsertItem] leaves: the boolean it returns, the
    collection of the caller and the item of the caller after the
    call. *)
Record upsert : Type := mkUpsert {
  returned : bool;
  collection : value;
  item : value
}.

(** The loop of [upsertItem] and [getItem]: the first index from [i]
    on whose element has [keyValue] as [__bID]. *)
Fixpoint find_existing (l : list value) (keyValue : value) (i : nat) : M (option nat) :=
  match l with
  | [] => mret None
  | item :: l' =>
      bid ← lift (get item "__bID");
      if strict_eq bid keyValue then mret (Some i)
      else find_existing l' keyValue (S i)
  end.

Definition upsertItem (modelArray keyValue newItem : value) (overwrite : bool) : M upsert :=
  (* a value that is no array gives way to a new, empty array *)
  local ← (if String.eqb (typeof modelArray) "undefined" || negb (isArray modelArray)
           then _ ← warn "Non array passed in as modelArray"; mret []
           else mret (match modelArray with VArr es => es | _ => [] end));
  let back (es : list value) : value :=
    if isArray modelArray then VArr es else modelArray in
  if negb (String.eqb (typeof newItem) "object") then
    _ ← warn "Upserted item must be an object";
    mret (mkUpsert false (back local) newItem)
  else
    bid ← lift (get newItem "__bID");
    if negb (String.eqb (typeof bid) "undefined") && negb (strict_eq bid keyValue) then
      _ ← warn "Upserted item does not match the keyValue passed in";
      mret (mkUpsert false (back local) newItem)
    else
      existing ← find_existing local keyValue 0%nat;
      match existing with
      | None =>
          newItem ← lift (set newItem "__bID" keyValue);
          mret (mkUpsert true (back (local ++ [newItem])) newItem)
      | Some i =>
          let existingItem := default VUndefined (local !! i) in
          if overwrite then
            newItem ← lift (set newItem "__bID" keyValue);
            mret (mkUpsert true (back (<[i:=newItem]> local)) newItem)
          else
            merged ← lift (set (lodash_merge H existingItem newItem) "__bID" keyValue);
            mret (mkUpsert true (back (<[i:=merged]> local)) newItem)
      end.

(** The loop [for (var i = 0; i < modelArray.length; i++)] of
    [getItem] and [removeItem], from the index [i] on, over the
    [count] indices that are left below the length: the first index
    whose element has [keyValue] as [__bID], with the element. *)
Fixpoint first_keyed (modelArray keyValue : value) (count i : nat)
    : M (option (nat * value)) :=
  match count with
  | O => mret None
  | S count' =>
      item ← lift (get modelArray (index_key i));
      bid ← lift (get item "__bID");
      if strict_eq bid keyValue then mret (Some (i, item))
      else first_keyed modelArray keyValue count' (S i)
  end.

(** The number of indices [i] with [i < modelArray.length]. *)
Definition index_count (modelArray : value) : M nat :=
  len ← lift (get modelArray "length");
  mret (Engine.to_length H len).

(** [getItem(modelArray, keyValue)] *)
Definition getItem (modelArray keyValue : value) : M value :=
  n ← index_count modelArray;
  found ← first_keyed modelArray keyValue n 0%nat;
  match found with
  | Some (_, item) => mret item
  | None => mret VNull
  end.

(** What a call of [removeItem] leaves: the value it returns ([false],
    or the array of the removed item that [splice] gives) and the
    collection of the caller after the call. *)
Record removal : Type := mkRemoval {
  removed : value;
  remaining : value
}.

(** [removeItem(modelArray, keyValue)].  On a value that is no array,
    [splice] is what the value has under that name: a function of the
    host, or the call throws. *)
Definition removeItem (modelArray keyValue : value) : M removal :=
  n ← index_count modelArray;
  found ← first_keyed modelArray keyValue n 0%nat;
  match found with
  | None => mret (mkRemoval (VBool false) modelArray)
  | Some (existing, _) =>
      match modelArray with
      | VArr es =>
          mret (mkRemoval (VArr (take 1 (drop existing es))) (VArr (delete existing es)))
      | _ =>
          splice ← lift (get modelArray "splice");
          r ← Engine.call_value H splice [VNum (Z.of_nat existing); VNum 1];
          mret (mkRemoval r modelArray)
      end
  end.

(** [removeItems(modelArray, keyValues)] for an array [keyValues], as
    its type has it:
    [keyValues.forEach((keyValue) => { this.removeItem(modelArray, keyValue) })].
    The result is the collection of the caller after the call. *)
Fixpoint removeItems (modelArray : value) (keyValues : list value) : M value :=
  match keyValues with
  | [] => mret modelArray
  | keyValue :: rest =>
      r ← removeItem modelArray keyValue;
      removeItems (remaining r) rest
  end.


End Collection.
End Collection.

(** ** The mutation and notification protocol of the store *)

Module Protocol.

(** The argument of [ignore]: a callback or a number. *)
Inductive ignore_arg : Type :=
| Callback (f : nat)
| Handle (n : Z).

Definition isDirty : M bool := this_ dirtyState.

Definition getState : M ref := this_ state.

(** [listen(callback)]: [push] returns the new length. *)
Definition listen (callback : nat) : M Z :=
  _ ← update_this (fun s => set_listeners (listeners s ++ [callback]) s);
  this_ (fun s => Z.of_nat (length (listeners s))).

(** [l.indexOf(x)] *)
Fixpoint indexOf (l : list nat) (x : nat) : Z :=
  match l with
  | [] => -1
  | y :: l' =>
      if Nat.eqb y x then 0
      else let i := indexOf l' x in if i <? 0 then -1 else i + 1
  end.

(** [l.splice(index, 1)] for an index that is not negative: past the
    end, nothing is removed. *)
Definition splice1 (index : Z) (l : list nat) : list nat := delete (Z.to_nat index) l.

Definition ignore (callback : ignore_arg) : M bool :=
  l ← this_ listeners;
  let index :=
    match callback with
    | Callback f => indexOf l f
    | Handle n => n - 1
    end in
  if 0 <=? index then
    _ ← update_this (set_listeners (splice1 index l));
    mret true
  else mret false.

(** Reads and writes through what a variable holds. *)
Definition ref_value (r : ref) : M value :=
  match r with
  | Prim p => mret p
  | Ref l => deref l
  end.

Definition ref_get (r : ref) (k : string) : M value :=
  o ← ref_value r; lift (get o k).

Definition ref_set (r : ref) (k : string) (x : value) : M unit :=
  o ← ref_value r;
  o' ← lift (set o k x);
  match r with
  | Prim _ => mret tt
  | Ref l => store_at l o'
  end.

(** [if (r)] *)
Definition ref_truthy (r : ref) : bool :=
  match r with
  | Prim p => truthy p
  | Ref _ => true
  end.

(** *** [cloneState]: lodash's [cloneDeepWith] with the customizer of
    the store.  The customizer answers for a moment and for a Date;
    where it answers [undefined] lodash copies arrays and plain
    objects member by member, keeps a primitive, and keeps a
    function that is a member of something ([{}] stands for a
    function cloned on its own); an object of another kind it
    copies in a way of its own, [other].  The heap holds the members
    of an object by value, so that a copy is known here by its value
    only: the module [Deep] below has the same functions on objects
    that have an identity at every depth. *)
Definition customizer (value : value) : option Js.value :=
  match value with
  | VMoment t => Some (VMoment t)           (* v.clone() *)
  | VDate t => Some (VDate t)               (* new Date(value.getTime()) *)
  | _ => None
  end.

Fixpoint cloneDeepWith (customizer : value -> option value) (other : value -> value)
    (member : bool) (v : value) : value :=
  match customizer v with
  | Some result => result
  | None =>
      match v with
      | VArr es => VArr (map (cloneDeepWith customizer other true) es)
      | VObj ps =>
          VObj (map (fun kv => (fst kv, cloneDeepWith customizer other true (snd kv))) ps)
      | VFun f => if member then VFun f else VObj []
      | VDate _ | VMoment _ => other v
      | _ => v
      end
  end.

(** lodash's own copy of a temporal value: by value, the same. *)
Definition lodash_copy (v : value) : value := v.

Definition is_primitive (v : value) : bool :=
  match v with
  | VUndefined | VNull | VBool _ | VNum _ | VNaN | VStr _ => true
  | _ => false
  end.

(** What a variable holds for a value: the value when it is a
    primitive, else a new object. *)
Definition new_ref (v : value) : M ref :=
  if is_primitive v then mret (Prim v) else alloc v.

Definition cloneState : M ref :=
  st ← this_ state;
  v ← ref_value st;
  new_ref (cloneDeepWith customizer lodash_copy false v).

(** [nextState()] *)
Definition nextState : M ref :=
  next ← this_ _nextState;
  if ref_truthy next then mret next
  else
    c ← cloneState;
    _ ← update_this (set_nextState c);
    mret c.

(** [newState()], deprecated *)
Definition newState : M ref := nextState.

Section Protocol.

(** What the store manager does with the machine when it is asked for
    a flush. *)
Variable manager : Machine -> Machine.

(** Modelled from the spec: [StoreManager.queueFlush] (the store
    manager, store-manager.ts, is not among the sources).  The
    manager schedules a flush of the store: at once under the
    synchronous policy, later under the deferred ones.  The request
    is recorded in [flushRequests], and the manager does with the
    machine what [manager] says. *)
Definition queueFlush : M unit :=
  id ← this_ uuid;
  _ ← modify (with_flushRequests (fun q => q ++ [id]));
  modify manager.

(** [stateChange(actionName, nextState)] *)
Definition stateChange (actionName : string) (nextState : ref) : M unit :=
  d ← this_ debug;
  _ ← (if (d : bool) then warn (actionName ++ " dispatched") else mret tt);
  _ ← update_this (fun s : Store => set_pendingActions (pendingActions s ++ [actionName]) s);
  _ ← update_this (set_nextState nextState);
  dirty ← this_ dirtyState;
  if negb (dirty : bool) then
    _ ← update_this (set_dirtyState true);
    queueFlush
  else mret tt.

(** What a listener does with the store when it is called: it may
    call [stateChange], run a mutator (take the draft, edit it,
    call [stateChange] with it), and call [listen] and [ignore]. *)
Inductive action : Type :=
| StateChange (actionName : string) (nextState : ref)
| Mutate (actionName : string) (edit : value -> value)
| Listen (callback : nat)
| Ignore (callback : ignore_arg).

Definition perform (a : action) : M unit :=
  match a with
  | StateChange actionName next => stateChange actionName next
  | Mutate actionName edit =>
      draft ← nextState;
      _ ← match draft with
          | Ref l => o ← deref l; store_at l (edit o)
          | Prim _ => mret tt
          end;
      stateChange actionName draft
  | Listen callback => _ ← listen callback; mret tt
  | Ignore callback => _ ← ignore callback; mret tt
  end.

Fixpoint perform_all (l : list action) : M unit :=
  match l with
  | [] => mret tt
  | a :: l' => _ ← perform a; perform_all l'
  end.

(** The listeners of the program, by identity: the calls a listener
    makes, given the two states it receives. *)
Variable behaviour : nat -> ref -> ref -> list action.

(** [this.listeners.forEach(...)] in [notify]: the indices below the
    length at the start, each read from the array as it is when its
    turn comes. *)
Fixpoint forEach_listener (count k : nat) (oldState : ref) : M unit :=
  match count with
  | O => mret tt
  | S count' =>
      l ← this_ listeners;
      _ ← match l !! k with
          | Some listener =>
              st ← this_ state;
              _ ← modify (with_delivered (fun d => d ++ [(listener, st, oldState)]));
              perform_all (behaviour listener st oldState)
          | None => mret tt
          end;
      forEach_listener count' (S k) oldState
  end.

Definition notify (oldState : ref) : M unit :=
  d ← this_ debug;
  n ← this_ (fun s => length (listeners s));
  _ ← (if (d : bool) then warn ("Store state changed, notifying " ++ pretty n
                         ++ " listener(s) of change")
       else mret tt);
  _ ← forEach_listener n 0%nat oldState;
  update_this (set_dirtyState false).

(** [flush()].  [assign(oldState, this.state)] copies the own
    enumerable members of the state into the new object. *)
Definition flush : M unit :=
  st ← this_ state;
  v ← ref_value st;
  oldState ← alloc (VObj (enumerable v));
  next ← this_ _nextState;
  _ ← update_this (set_state next);
  _ ← update_this (set_nextState (Prim VNull));
  d ← this_ debug;
  _ ← (if (d : bool) then
         pending ← this_ pendingActions;
         update_this (fun s : Store =>
           set_stateHistory
             (stateHistory s ++ [mkStateHistory (String.concat "," pending) oldState]) s)
       else mret tt);
  notify oldState.

(** Modelled from the spec: [ActionManager.dispatch] (the action
    dispatch bus, actions/manager.ts, is not among the sources).
    The bus delivers the arguments under the name of the action; the
    delivery is recorded in [dispatched]. *)
Definition dispatch (name : string) (args : list ref) : M unit :=
  modify (with_dispatched (fun d => d ++ [(name, args)])).

(** The loop of [seed] over the keys of the draft; [false] when the
    loop left [seed] by its [return]. *)
Fixpoint seed_keys (ks : list string) (nextState : ref) (partialState : value) : M bool :=
  match ks with
  | [] => mret true
  | key :: ks' =>
      value ← ref_get nextState key;
      from ← lift (get partialState "state");
      newValue ← lift (get from key);
      if String.eqb (typeof newValue) "undefined" then mret false
      else
        match value, newValue with
        | VArr a, VArr b =>
            _ ← ref_set nextState key (VArr (a ++ b));
            seed_keys ks' nextState partialState
        | _, _ =>
            _ ← (if String.eqb (typeof value) "undefined"
                 then ref_set nextState key newValue
                 else mret tt);
            seed_keys ks' nextState partialState
        end
  end.

Definition seed (partialState : value) : M unit :=
  invalid ← (if negb (String.eqb (typeof partialState) "object") then mret true
             else
               st ← lift (get partialState "state");
               mret (negb (String.eqb (typeof st) "object")));
  if (invalid : bool) then warn "Invalid object supplied to store seed: "
  else
    nextState ← nextState;
    o ← ref_value nextState;
    completed ← seed_keys (keys o) nextState partialState;
    if (completed : bool) then
      id ← this_ uuid;
      dispatch (ACTION_SEED ++ "_" ++ id) [nextState]
    else mret tt.

End Protocol.
End Protocol.

Import Engine Collection Protocol.

(** ** The comparator of [sortBy] *)

Module Sorting.
Section Sorting.

Variable H : Host.

Definition is_object (v : value) : bool :=
  match v with
  | VFun _ | VDate _ | VMoment _ | VArr _ | VObj _ => true
  | _ => false
  end.

(** ToPrimitive with no hint, as [==] asks for it: a moment gives its
    time ([valueOf]), a Date and any other object its string. *)
Definition to_primitive_default (v : value) : value :=
  match v with
  | VMoment t => VNum t
  | VDate _ | VFun _ | VArr _ | VObj _ => VStr (host_toString H v)
  | _ => v
  end.

(** [a == b].  [null] and [undefined] equal each other and nothing
    else; two objects compare as under [===]; an object and a
    primitive compare by the primitive of the object; two strings
    compare as strings, anything else as numbers. *)
Definition loose_eq (a b : value) : bool :=
  match a, b with
  | (VUndefined | VNull), (VUndefined | VNull) => true
  | (VUndefined | VNull), _ | _, (VUndefined | VNull) => false
  | _, _ =>
      if is_object a && is_object b then strict_eq a b
      else
        match to_primitive_default a, to_primitive_default b with
        | VStr x, VStr y => String.eqb x y
        | pa, pb =>
            match to_number pa, to_number pb with
            | Some x, Some y => x =? y
            | _, _ => false
            end
        end
  end.

(** [sortBy(key, dir)(a, b)]: the comparator [sortBy] returns, applied
    to two items.  It returns 1, -1 or 0, or nothing ([undefined]).
    [b[key]] is read first. *)
Definition sortBy (key dir : string) (a b : value) : M value :=
  bk ← lift (get b key);
  ak ← lift (get a key);
  let desc := String.eqb (toLowerCase dir) "desc" in
  if truthy bk && negb (truthy ak)
     || truthy bk && truthy ak && js_gt (host_toString H) bk ak
  then mret (VNum (if desc then 1 else -1))
  else if negb (truthy bk) && truthy ak
          || truthy bk && truthy ak && js_lt (host_toString H) bk ak
  then mret (VNum (if desc then -1 else 1))
  else if truthy bk && truthy ak && loose_eq bk ak then mret (VNum 0)
  else if truthy bk && negb (truthy ak) then mret (VNum 0)
  else mret VUndefined.

End Sorting.
End Sorting.

(** ** The builders of descriptors: [Store.string], [Store.int], ... *)

Module Builders.

(** The closures the builders give for [initial], by what they
    return: [() => ''], [() => 0], [() => false], [() => []],
    [() => { return {} }] and [() => null]. *)
Inductive initial : Type :=
| InitialString
| InitialZero
| InitialFalse
| InitialArray
| InitialObject
| InitialNull.

(** The identity of a closure, as a function of the host. *)
Definition initial_id (i : initial) : nat :=
  match i with
  | InitialString => 1
  | InitialZero => 2
  | InitialFalse => 3
  | InitialArray => 4
  | InitialObject => 5
  | InitialNull => 6
  end%nat.

Definition initial_value (i : initial) : value :=
  match i with
  | InitialString => VStr ""
  | InitialZero => VNum 0
  | InitialFalse => VBool false
  | InitialArray => VArr []
  | InitialObject => VObj []
  | InitialNull => VNull
  end.

(** [{}], the default of [params]. *)
Definition no_params : descriptor := Descriptor no_options SchemaUndefined NoConfig.

(** A member of the target of [extend(true, target, params)] after the
    member [copy] of [params] came in.  A member that is [undefined]
    leaves the target as it is.  The targets of the builders have no
    member that is an object or an array, so that a member of
    [params] that is one is copied in depth into a new one. *)
Definition extend_member (target copy : value) : value :=
  match copy with
  | VUndefined => target
  | _ => extend_value copy
  end.

Definition extend_options (target params : options) : options :=
  {| d_type := extend_member (d_type target) (d_type params);
     d_value := extend_member (d_value target) (d_value params);
     d_initial := extend_member (d_initial target) (d_initial params);
     d_label := extend_member (d_label target) (d_label params);
     d_validation := extend_member (d_validation target) (d_validation params);
     d_min := extend_member (d_min target) (d_min params);
     d_max := extend_member (d_max target) (d_max params);
     d_minLength := extend_member (d_minLength target) (d_minLength params);
     d_maxLength := extend_member (d_maxLength target) (d_maxLength params);
     d_format := extend_member (d_format target) (d_format params);
     d_utc := extend_member (d_utc target) (d_utc params);
     d_constructor := extend_member (d_constructor target) (d_constructor params);
     d_sanitize := extend_member (d_sanitize target) (d_sanitize params);
     d_memberType := extend_member (d_memberType target) (d_memberType params) |}.

(** [extend(true, target, params)] on descriptors: the [schema] of
    [params] (a function, [null] or [false]) is taken as it is, its
    [memberTypeConfig] is merged in depth. *)
Fixpoint extend (target params : descriptor) {struct params} : descriptor :=
  match target, params with
  | Descriptor t tsub tconfig, Descriptor p psub pconfig =>
      Descriptor (extend_options t p)
        (match psub with
         | SchemaUndefined => tsub
         | _ => psub
         end)
        (match pconfig with
         | NoConfig => tconfig
         | Config d =>
             Config (extend (match tconfig with
                             | Config td => td
                             | NoConfig => no_params
                             end) d)
         end)
  end.

(** The defaults of a builder: its [type], its [initial], and for
    [datetime] its [format]. *)
Definition defaults (type : value) (i : initial) (format : value) : options :=
  {| d_type := type; d_value := VUndefined; d_initial := VFun (initial_id i);
     d_label := VUndefined; d_validation := VUndefined; d_min := VUndefined;
     d_max := VUndefined; d_minLength := VUndefined; d_maxLength := VUndefined;
     d_format := format; d_utc := VUndefined; d_constructor := VUndefined;
     d_sanitize := VUndefined; d_memberType := VUndefined |}.

(** [Store.string(params)], [Store.int(params)], ... *)
Definition string (params : descriptor) : descriptor :=
  extend (Descriptor (defaults (VStr "string") InitialString VUndefined)
            SchemaUndefined NoConfig) params.

Definition int (params : descriptor) : descriptor :=
  extend (Descriptor (defaults (VStr "int") InitialZero VUndefined)
            SchemaUndefined NoConfig) params.

Definition double (params : descriptor) : descriptor :=
  extend (Descriptor (defaults (VStr "double") InitialZero VUndefined)
            SchemaUndefined NoConfig) params.

Definition bool (params : descriptor) : descriptor :=
  extend (Descriptor (defaults (VStr "bool") InitialFalse VUndefined)
            SchemaUndefined NoConfig) params.

Definition float (params : descriptor) : descriptor :=
  extend (Descriptor (defaults (VStr "float") InitialZero VUndefined)
            SchemaUndefined NoConfig) params.

Definition array (params : descriptor) : descriptor :=
  extend (Descriptor (defaults (VStr "array") InitialArray VUndefined)
            SchemaNull NoConfig) params.

Definition object (params : descriptor) : descriptor :=
  extend (Descriptor (defaults (VStr "object") InitialObject VUndefined)
            SchemaNull NoConfig) params.

Definition datetime (params : descriptor) : descriptor :=
  extend (Descriptor (defaults (VStr "datetime") InitialNull (VStr "YYYY-MM-DD HH:mm:ss"))
            SchemaNull NoConfig) params.

Definition callback (params : descriptor) : descriptor :=
  extend (Descriptor (defaults (VStr "callback") InitialNull VUndefined)
            SchemaNull NoConfig) params.

(** [Store.customType(type, params)], for the name [type] of a type. *)
Definition customType (type : String.string) (params : descriptor) : descriptor :=
  extend (Descriptor (defaults (VStr type) InitialNull VUndefined) SchemaNull NoConfig) params.

End Builders.

(** ** The component class of [subscribeTo] *)

Module Component.

(** [componentDidMount] of the class [subscribeTo] returns, as far as
    the store goes: the component listens, and keeps the handle in
    [__listeners].  (What the [componentDidMount] of the wrapped
    class does is not the store's.) *)
Definition componentDidMount (callback : nat) (__listeners : list Z) : M (list Z) :=
  index ← listen callback;
  mret (__listeners ++ [index]).

(** [componentWillUnmount]:
    [this.__listeners.forEach(index => { store.ignore(index) })]. *)
Fixpoint componentWillUnmount (__listeners : list Z) : M unit :=
  match __listeners with
  | [] => mret tt
  | index :: rest => _ ← ignore (Handle index); componentWillUnmount rest
  end.

End Component.

Import Sorting Component.

(** ** Objects with an identity: what [cloneState] copies *)

Module Deep.

Definition addr := nat.

(** A value that has no members: a primitive, or a function, known
    by its identity. *)
Inductive atom : Type :=
| AUndefined
| ANull
| ABool (b : bool)
| ANum (z : Z)
| ANaN
| AStr (s : string)
| AFun (f : nat).

Unset Elimination Schemes.

(** A state in which every object has an identity, its address [a]:
    the Dates, the moments, the arrays and the plain objects, at any
    depth.  Two objects are the same object when they have the same
    address.  The state is a tree: no object is a member of two
    objects, or of itself. *)
Inductive node : Type :=
| Atom (p : atom)
| Date (a : addr) (time : Z)
| Moment (a : addr) (time : Z)
| Arr (a : addr) (elems : list node)
| Obj (a : addr) (props : list (string * node)).

Set Elimination Schemes.

Section node_ind.
Variable P : node -> Prop.
Hypothesis Hatom : forall p, P (Atom p).
Hypothesis Hdate : forall a time, P (Date a time).
Hypothesis Hmoment : forall a time, P (Moment a time).
Hypothesis Harr : forall a es, Forall P es -> P (Arr a es).
Hypothesis Hobj : forall a ps, Forall (fun kv => P (snd kv)) ps -> P (Obj a ps).

End node_ind.




(** A computation that makes objects: it is given the next address
    that is free, and returns the next one after it. *)
Definition making (A : Type) : Type := addr -> A * addr.

(** The customizer of [cloneState]: [v.clone()] for a moment,
    [new Date(value.getTime())] for a Date, each a new object;
    [undefined] for anything else. *)
Definition customizer (value : node) : option (making node) :=
  match value with
  | Moment _ time => Some (fun next => (Moment next time, S next))
  | Date _ time => Some (fun next => (Date next time, S next))
  | _ => None
  end.

Section cloneDeepWith.

Variable customizer : node -> option (making node).

(** What lodash does by itself with an object that is no array and no
    plain object. *)
Variable other : node -> making node.

(** The members of an array or of an object, one after the other. *)
Definition each {A B : Type} (f : A -> making B) : list A -> making (list B) :=
  fix each (l : list A) (next : addr) : list B * addr :=
    match l with
    | [] => ([], next)
    | x :: l' =>
        let '(y, next) := f x next in
        let '(ys, next) := each l' next in
        (y :: ys, next)
    end.

(** lodash's [cloneDeepWith(value, customizer)].  The customizer is
    asked first, for the value and for every member at every depth;
    where it answers [undefined], an array and a plain object are
    made anew and then filled with the copies of their members, a
    primitive is kept, a function is kept when it is a member (and
    [{}] stands for a function cloned on its own), and another object
    is copied as [other] has it.  (In a tree the stack that lodash
    keeps of the objects it has met finds nothing.) *)
Fixpoint cloneDeepWith (member : bool) (value : node) (next : addr) {struct value}
    : node * addr :=
  match customizer value with
  | Some result => result next
  | None =>
      match value with
      | Atom (AFun f) => if member then (value, next) else (Obj next [], S next)
      | Atom _ => (value, next)
      | Arr _ es =>
          let '(es', next') := each (cloneDeepWith true) es (S next) in
          (Arr next es', next')
      | Obj _ ps =>
          let '(ps', next') :=
            each (fun kv next =>
                    let '(x, next) := cloneDeepWith true (snd kv) next in
                    ((fst kv, x), next)) ps (S next) in
          (Obj next ps', next')
      | Date _ _ | Moment _ _ => other value next
      end
  end.

End cloneDeepWith.

(** An edit of an object, by its address: [o[k] = x] for a plain
    object, [a.push(x)] for an array, [d.setTime(time)] for a Date or
    a moment. *)
Inductive edit : Type :=
| SetMember (a : addr) (k : string) (x : node)
| Push (a : addr) (x : node)
| SetTime (a : addr) (time : Z).

Definition target (e : edit) : addr :=
  match e with
  | SetMember a _ _ | Push a _ | SetTime a _ => a
  end.

Fixpoint assign (k : string) (x : node) (ps : list (string * node))
    : list (string * node) :=
  match ps with
  | [] => [(k, x)]
  | (k', x') :: ps' => if String.eqb k k' then (k, x) :: ps' else (k', x') :: assign k x ps'
  end.

(** The state after an edit: the object of the address is edited
    where the state has it. *)
Fixpoint apply (e : edit) (t : node) : node :=
  match t with
  | Atom _ => t
  | Date a time =>
      match e with
      | SetTime a' time' => if Nat.eqb a' a then Date a time' else t
      | _ => t
      end
  | Moment a time =>
      match e with
      | SetTime a' time' => if Nat.eqb a' a then Moment a time' else t
      | _ => t
      end
  | Arr a es =>
      let es' := map (apply e) es in
      match e with
      | Push a' x => if Nat.eqb a' a then Arr a (es' ++ [x]) else Arr a es'
      | _ => Arr a es'
      end
  | Obj a ps =>
      let ps' := map (fun kv => (fst kv, apply e (snd kv))) ps in
      match e with
      | SetMember a' k x => if Nat.eqb a' a then Obj a (assign k x ps') else Obj a ps'
      | _ => Obj a ps'
      end
  end.

End Deep.

(** ** The vocabulary of the statements *)

Module Statements.

(** The string input of [sanitizeInteger] after the letters are
    removed; any other input as it is. *)
Definition stripped (value : value) : Js.value :=
  match value with
  | VStr s => VStr (strip_letters s)
  | _ => value
  end.

(** The integers a number of JavaScript holds exactly
    ([Number.isSafeInteger]).  On them the arithmetic of the model,
    which is that of Z, is the arithmetic of JavaScript, [String]
    prints every digit and [parseInt] reads every digit. *)
Definition safe_integer (n : Z) : Prop := - 2 ^ 53 < n < 2 ^ 53.

Definition below_minimum : string :=
  "Provided value cannot be sanitized, value is below minimum integer allowed".

Definition above_maximum : string :=
  "Provided value cannot be sanitized, value is greater than maximum integer allowed".

(** What [sanitizeInteger] does with the number [n] that [parseInt]
    gave: the two bounds, then the test for [NaN]. *)
Definition bounded (H : Host) (cfg : options) (n : value) (m : Machine)
    : result value * Machine :=
  if defined (d_min cfg) && js_lt (host_toString H) n (d_min cfg)
  then (Throw (Error below_minimum), m)
  else if defined (d_max cfg) && js_gt (host_toString H) n (d_max cfg)
  then (Throw (Error above_maximum), m)
  else if isNaN n then (Ok (VStr ""), m)
  else (Ok n, m).





(** The two reasons [upsertItem] has to refuse an item. *)
Definition not_structured (newItem : value) : Prop := typeof newItem <> "object".

Definition conflicting (keyValue newItem : value) : Prop :=
  exists bid, get newItem "__bID" = Ok bid
              /\ typeof bid <> "undefined" /\ strict_eq bid keyValue = false.

Definition non_array_warning : string := "Non array passed in as modelArray".

(** A call of [listen] or of [ignore] by the program. *)
Inductive request : Type :=
| AskListen (callback : nat)
| AskIgnore (callback : ignore_arg).

Definition serve (r : request) : M unit :=
  match r with
  | AskListen callback => _ ← listen callback; mret tt
  | AskIgnore callback => _ ← ignore callback; mret tt
  end.

Fixpoint serve_all (rs : list request) : M unit :=
  match rs with
  | [] => mret tt
  | r :: rs' => _ ← serve r; serve_all rs'
  end.

(** The index [ignore] computes for its argument. *)
Definition ignore_index (l : list nat) (callback : ignore_arg) : Z :=
  match callback with
  | Callback f => indexOf l f
  | Handle n => n - 1
  end.

(** No request of [rs], served in turn from the listeners [l], removes
    one of the first [n] listeners. *)
Fixpoint spares (n : nat) (rs : list request) (l : list nat) : bool :=
  match rs with
  | [] => true
  | AskListen callback :: rs' => spares n rs' (l ++ [callback])
  | AskIgnore callback :: rs' =>
      let index := ignore_index l callback in
      if 0 <=? index then (Z.of_nat n <=? index) && spares n rs' (splice1 index l)
      else spares n rs' l
  end.

Definition listeners_of (m : Machine) : list nat := listeners (this m).

(** The value [cloneState] reads: what [this.state] holds. *)
Definition committed (m : Machine) : value :=
  match state (this m) with
  | Prim p => p
  | Ref l => default VUndefined (heap m !! l)
  end.

(** *** Decimal numerals *)

(** A decimal digit. *)
Definition is_digit (c : ascii) : bool :=
  match digit 10 c with
  | Some _ => true
  | None => false
  end.

Fixpoint all_digits (s : string) : bool :=
  match s with
  | EmptyString => true
  | String c s' => is_digit c && all_digits s'
  end.

(** *** Keyed collections *)

(** An item whose members can be read: every value but [null] and
    [undefined]. *)
Definition readable (item : value) : bool :=
  match item with
  | VNull | VUndefined => false
  | _ => true
  end.

(** The identity key of an item, [item['__bID']]. *)
Definition key_of (item : value) : value :=
  match get item "__bID" with
  | Ok bid => bid
  | Throw _ => VUndefined
  end.

(** [item['__bID'] === keyValue] *)
Definition has_key (keyValue item : value) : bool := strict_eq (key_of item) keyValue.

(** The items the scan for [keyValue] goes past: each can be read,
    and has another key. *)
Definition passed (keyValue : value) (l : list value) : Prop :=
  Forall (fun x => readable x = true /\ has_key keyValue x = false) l.

(** No two of the keys are equal under [===]. *)
Fixpoint distinct_keys (ks : list value) : Prop :=
  match ks with
  | [] => True
  | k :: rest => Forall (fun k' => strict_eq k' k = false) rest /\ distinct_keys rest
  end.

(** A collection in which no two items have the same key. *)
Definition unique_keys (es : list value) : Prop := distinct_keys (map key_of es).

(** lodash's [merge] gives an object when its first argument is one
    (it returns that argument). *)
Definition merges_objects (H : Host) : Prop :=
  forall ps b, exists ps', lodash_merge H (VObj ps) b = VObj ps'.

(** The test of [upsertItem] on an item with the members [ps]: it
    has a key already, and another one than [keyValue]. *)
Definition conflicted (keyValue : value) (ps : props) : bool :=
  let bid := default VUndefined (assoc "__bID" ps) in
  defined bid && negb (strict_eq bid keyValue).

(** The item [upsertItem] stores for a new key: the item with the key
    set. *)
Definition stamped (keyValue : value) (ps : props) : value :=
  VObj (assign_prop "__bID" keyValue ps).

(** *** Comparators *)

(** The result of a comparator with the sign changed. *)
Definition opposite (r : value) : value :=
  match r with
  | VNum z => VNum (- z)
  | _ => r
  end.

(** [dir.toLowerCase() === 'desc'] *)
Definition descending (dir : string) : bool := String.eqb (toLowerCase dir) "desc".

(** *** Sanitizers *)

Definition not_a_boolean : string :=
  "Provided value cannot be santized, is not a valid boolean".

Definition truncated_warning : string := "Value was truncated during sanitization".

Definition short_string : string :=
  "Provided value cannot be sanitized, string length is below minimum allowed".

Definition no_schema : string :=
  "Provided value cannot be santized, no reference schema provided for field type of object".

(** A value that takes a member: an object, an array, a function or
    a temporal value.  An assignment to a member of anything else
    throws. *)
Definition writable (obj : value) : bool :=
  match obj with
  | VFun _ | VDate _ | VMoment _ | VArr _ | VObj _ => true
  | _ => false
  end.

Definition array_type (o : options) : Prop :=
  d_type o = VStr "array" \/ d_type o = VStr "collection".

Definition object_type (o : options) : Prop :=
  d_type o = VStr "obj" \/ d_type o = VStr "object".

(** A host that runs the closures of the builders. *)
Definition runs_builders (H : Host) : Prop :=
  forall i args, call H (Builders.initial_id i) args = Ok (Builders.initial_value i).

(** *** Rules of validation *)

(** The rules with the parameter of every [required] set to [p]. *)
Definition require_with (p : value) (rules : props) : props :=
  map (fun kv => if String.eqb (fst kv) "required" then (fst kv, p) else kv) rules.

(** A value that the rule [required] takes for missing. *)
Definition missing (value : value) : bool :=
  String.eqb (typeof value) "undefined" || strict_eq value VNull || strict_eq value (VStr "").

(** No field of the schema has rules. *)
Fixpoint unvalidated (s : schema) : bool :=
  match s with
  | SNil => true
  | SCons _ (Descriptor o _ _) rest => negb (defined (d_validation o)) && unvalidated rest
  end.

(** [schema[field].label ? schema[field].label : field] *)
Definition label_of (o : options) (field : string) : value :=
  if truthy (d_label o) then d_label o else VStr field.

(** A rule that reads the length of the value. *)
Definition length_rule (name : string) : Prop := name = "minLength" \/ name = "maxLength".

(** *** The protocol *)

(** Calls of [stateChange], one after the other. *)
Fixpoint stateChanges (manager : Machine -> Machine) (changes : list (string * ref))
    : M unit :=
  match changes with
  | [] => mret tt
  | (actionName, next) :: rest =>
      _ ← stateChange manager actionName next; stateChanges manager rest
  end.

(** A manager that defers the flush: asked for one, it leaves the
    store and the queue as they are. *)
Definition defers (manager : Machine -> Machine) : Prop :=
  forall m, this (manager m) = this m /\ flushRequests (manager m) = flushRequests m.

(** What stays of the store through calls of [stateChange]. *)
Definition same_store (s s' : Store) : Prop :=
  uuid s' = uuid s /\ state s' = state s /\ listeners s' = listeners s
  /\ stateHistory s' = stateHistory s /\ debug s' = debug s.

(** A payload [seed] takes: its [state] is an object. *)
Definition seedable (partialState : value) : Prop :=
  exists st, get partialState "state" = Ok st /\ typeof st = "object".

(** What [seed] assigns to a key of the draft that holds [value],
    for the new value of the payload; [None] when it assigns nothing. *)
Definition seed_value (value newValue : value) : option Js.value :=
  match value, newValue with
  | VArr a, VArr b => Some (VArr (a ++ b))
  | _, _ => if String.eqb (typeof value) "undefined" then Some newValue else None
  end.

(** What [seed] may do to the members [ps] of the draft: the keys
    and their order stay; a value that is defined and is no array
    stays; an array stays or grows at its end. *)
Definition seeded (ps ps' : props) : Prop :=
  keys (VObj ps') = keys (VObj ps)
  /\ (forall k v, assoc k ps = Some v -> defined v = true -> isArray v = false ->
                  assoc k ps' = Some v)
  /\ (forall k a, assoc k ps = Some (VArr a) -> exists b, assoc k ps' = Some (VArr (a ++ b))).

(** The machine [m'] is [m] but for the object at [l], which was [ps]
    and is seeded, and for the console and the actions dispatched. *)
Definition draft_seeded (l : loc) (ps : props) (m m' : Machine) : Prop :=
  this m' = this m /\ delivered m' = delivered m /\ flushRequests m' = flushRequests m
  /\ length (heap m') = length (heap m)
  /\ (forall l', l' <> l -> heap m' !! l' = heap m !! l')
  /\ exists ps', heap m' !! l = Some (VObj ps') /\ seeded ps ps'.


End Statements.

Import Statements.

(** ** Examples *)

Module Examples.

(** A host for the examples: they call no function of it, and an
    object prints as [[object Object]]. *)
Definition host : Host :=
  {| host_toString := fun _ => "[object Object]";
     call := fun _ _ => Ok VUndefined;
     parseFloat := parseInt (fun _ => "");
     moment_parse := fun _ _ _ => None;
     moment_format := fun _ _ => "";
     lodash_merge := fun a _ => a |}.

(** A new store on an empty machine. *)
Definition m0 : Machine := new_Machine (new_Store "s1").

(** [{validation: {required: true}}] *)
Definition required : descriptor :=
  Descriptor (with_validation (VObj [("required", VBool true)]) no_options)
    SchemaUndefined NoConfig.

(** [{type: 'string', validation: {required: true}}] *)
Definition required_string : descriptor :=
  Descriptor (with_type "string" (with_validation (VObj [("required", VBool true)]) no_options))
    SchemaUndefined NoConfig.

(** A manager of the deferred policy: a request waits in the queue. *)
Definition deferred : Machine -> Machine := fun m => m.

(** Listeners that leave the store alone. *)
Definition quiet : nat -> ref -> ref -> list action := fun _ _ _ => [].

(** The state [{count: n}] and the mutator of a counter. *)
Definition counter (n : Z) : value := VObj [("count", VNum n)].

Definition increment (o : value) : value :=
  match o with
  | VObj [("count", VNum n)] => VObj [("count", VNum (n + 1))]
  | _ => o
  end.

(** Listener 7 runs the mutator when it is notified. *)
Definition reentrant : nat -> ref -> ref -> list action :=
  fun callback _ _ => if Nat.eqb callback 7 then [Mutate "again" increment] else [].

(** A store whose state is the object [o], with the listeners [ls]. *)
Definition machine_of (o : value) (ls : list nat) (dbg : bool) : Machine :=
  {| this := {| uuid := "s1"; config := DEFAULT_CONFIG; state := Ref 0%nat;
                stateHistory := []; listeners := ls; dirtyState := false;
                _nextState := Prim VNull; debug := dbg; pendingActions := [] |};
     heap := [o]; console := []; dispatched := []; flushRequests := [];
     delivered := [] |}.

(** A manager of the synchronous policy: the flush runs at once. *)
Definition synchronous (behaviour : nat -> ref -> ref -> list action)
    : Machine -> Machine :=
  fun m => snd (flush deferred behaviour m).

(** Two cycles of a mutation and a flush. *)
Definition one_cycle (actionName : string) : M unit :=
  _ ← perform deferred (Mutate actionName increment);
  flush deferred quiet.

Definition two_cycles : M unit :=
  _ ← one_cycle "first";
  one_cycle "second".




(** The payload [{state: {...}}] of [seed]. *)
Definition payload (ps : props) : value := VObj [("state", VObj ps)].

(** A host that runs the closures of the builders, and merges by
    returning its first argument. *)
Definition builder_host : Host :=
  {| host_toString := fun _ => "[object Object]";
     call := fun f _ =>
       match f with
       | 1 => Ok (VStr "")
       | 2 => Ok (VNum 0)
       | 3 => Ok (VBool false)
       | 4 => Ok (VArr [])
       | 5 => Ok (VObj [])
       | 6 => Ok VNull
       | _ => Ok VUndefined
       end%nat;
     parseFloat := parseInt (fun _ => "");
     moment_parse := fun _ _ _ => None;
     moment_format := fun _ _ => "";
     lodash_merge := fun a _ => a |}.

(** Listener 7 stops listening when it is notified. *)
Definition leaving : nat -> ref -> ref -> list action :=
  fun callback _ _ => if Nat.eqb callback 7 then [Ignore (Callback 7%nat)] else [].

(** An item of a keyed collection. *)
Definition keyed (k : Z) (name : string) : value :=
  VObj [("__bID", VNum k); ("name", VStr name)].

(** [{required: p}] and [{minLength: n}] as the rules of a field. *)
Definition ruled (rules : props) : descriptor :=
  Descriptor (with_validation (VObj rules) no_options) SchemaUndefined NoConfig.

End Examples.

Import Examples.

(** * Properties *)

Ltac unfold_m :=
  unfold mbind, M_bind, mret, M_ret, this_, update_this, warn, lift, throw,
    modify, gets in *.

(** ** [sanitizeInteger] *)

Lemma strip_letters_idem s : strip_letters (strip_letters s) = strip_letters s.
Proof.
  induction s as [|c s IH]; simpl; [done|].
  destruct (is_letter c) eqn:E; simpl; [done|]. by rewrite E, IH.
Qed.

Lemma js_lt_num h a b : js_lt h (VNum a) (VNum b) = (a <? b).
Proof. reflexivity. Qed.

Lemma sanitizeInteger_eq H value cfg m :
  sanitizeInteger H value cfg m =
  match value with
  | VStr s =>
      if (String.length (strip_letters s) =? 0)%nat then (Ok (VStr ""), m)
      else bounded H cfg (parseInt (host_toString H) (stripped value)) m
  | _ => bounded H cfg (parseInt (host_toString H) (stripped value)) m
  end.
Proof.
  unfold sanitizeInteger, bounded, below_minimum, above_maximum.
  destruct value; simpl; unfold_m; repeat (case_match; try reflexivity).
Qed.

Lemma parseInt_of_empty H s n :
  parseInt (host_toString H) (VStr s) = VNum n -> (String.length s =? 0)%nat = false.
Proof. by destruct s. Qed.

(** C8 (amended): [sanitizeInteger] removes the letters of a string
    input before the coercion, so that ["12abc"] gives 12 and ["abc"]
    gives the empty string and no number; when the coerced value is a
    number below [min] or above [max] it throws, and what it throws is
    a plain [Error] (never a [RangeError]), so
    [sanitizeInteger(5, {max: 3})] throws an [Error].  The coerced
    value and the bounds are safe integers: there the comparisons of
    the model are those of JavaScript. *)
Theorem sanitizeInteger_strips_then_bounds (H : Host) (m : Machine) :
  (forall s cfg,
      sanitizeInteger H (VStr s) cfg m = sanitizeInteger H (VStr (strip_letters s)) cfg m)
  /\ sanitizeInteger H (VStr "12abc") no_options m = (Ok (VNum 12), m)
  /\ sanitizeInteger H (VStr "abc") no_options m = (Ok (VStr ""), m)
  /\ (forall value cfg n lo,
        parseInt (host_toString H) (stripped value) = VNum n -> safe_integer n ->
        d_min cfg = VNum lo -> safe_integer lo -> n < lo ->
        sanitizeInteger H value cfg m = (Throw (Error below_minimum), m))
  /\ (forall value cfg n hi,
        parseInt (host_toString H) (stripped value) = VNum n -> safe_integer n ->
        d_min cfg = VUndefined
        \/ (exists lo, d_min cfg = VNum lo /\ safe_integer lo /\ lo <= n) ->
        d_max cfg = VNum hi -> safe_integer hi -> hi < n ->
        sanitizeInteger H value cfg m = (Throw (Error above_maximum), m))
  /\ sanitizeInteger H (VNum 5) (with_max (VNum 3) no_options) m
     = (Throw (Error above_maximum), m)
  /\ (forall value cfg e m',
        sanitizeInteger H value cfg m = (Throw e, m') -> is_RangeError e = false).
Proof.
  repeat apply conj.
  - intros s cfg. rewrite !sanitizeInteger_eq. simpl. by rewrite strip_letters_idem.
  - reflexivity.
  - reflexivity.
  - intros value cfg n lo Hn _ Hlo _ Hlt.
    assert (Hb : bounded H cfg (VNum n) m = (Throw (Error below_minimum), m)).
    { unfold bounded. rewrite Hlo. simpl. rewrite js_lt_num.
      apply Z.ltb_lt in Hlt. by rewrite Hlt. }
    rewrite sanitizeInteger_eq, Hn.
    destruct value; try done. by rewrite (parseInt_of_empty H _ n).
  - intros value cfg n hi Hn _ Hmin Hhi _ Hlt.
    assert (Hb : bounded H cfg (VNum n) m = (Throw (Error above_maximum), m)).
    { unfold bounded.
      replace (defined (d_min cfg) && js_lt (host_toString H) (VNum n) (d_min cfg))
        with false.
      - rewrite Hhi. simpl. unfold js_gt. rewrite js_lt_num.
        apply Z.ltb_lt in Hlt. by rewrite Hlt.
      - destruct Hmin as [-> | (lo & -> & _ & Hle)]; [reflexivity|].
        simpl. rewrite js_lt_num. symmetry. by apply Z.ltb_ge. }
    rewrite sanitizeInteger_eq, Hn.
    destruct value; try done. by rewrite (parseInt_of_empty H _ n).
  - reflexivity.
  - intros value cfg e m'. rewrite sanitizeInteger_eq. unfold bounded.
    destruct value; simpl; repeat case_match; intros [= <- _]; reflexivity.
Qed.

(** An instance: ["2px"] under [{min: 5}]. *)
Lemma sanitizeInteger_strips_then_bounds_witness :
  safe_integer 2 /\ safe_integer 5
  /\ sanitizeInteger host (VStr "2px") (with_min (VNum 5) no_options) m0
     = (Throw (Error below_minimum), m0).
Proof.
  assert (H2 : safe_integer 2) by (split; reflexivity).
  assert (H5 : safe_integer 5) by (split; reflexivity).
  split; [exact H2 | split; [exact H5|]].
  apply (proj1 (proj2 (proj2 (proj2 (sanitizeInteger_strips_then_bounds host m0))))
           (VStr "2px") (with_min (VNum 5) no_options) 2 5);
    [reflexivity | exact H2 | reflexivity | exact H5 | reflexivity].
Defined.

(** C8, as stated, fails: [sanitizeInteger(5, {max: 3})] throws an
    [Error], which is no [RangeError]. *)
Lemma sanitizeInteger_throws_plain_Error :
  match fst (sanitizeInteger host (VNum 5) (with_max (VNum 3) no_options) m0) with
  | Throw e => e = Error above_maximum /\ is_RangeError e = false
  | Ok _ => False
  end.
Proof. vm_compute. split; reflexivity. Qed.

(** ** [validate] *)

Lemma validate_rules_stop H o field obj nested names errors m :
  errors <> [] -> validate_rules H o field obj nested names errors m = (Ok errors, m).
Proof.
  intros Hne. destruct names as [|n names]; [reflexivity|].
  destruct errors; [done | reflexivity].
Qed.

Lemma validate_fields_stop H sch obj errors m :
  errors <> [] -> validate_fields H sch obj errors m = (Ok errors, m).
Proof.
  intros Hne. revert m.
  induction sch as [|field [o sub cfg] rest IH]; intros m; [reflexivity|].
  simpl. unfold mbind, M_bind.
  destruct (defined (d_validation o)).
  - rewrite validate_rules_stop by done. apply IH.
  - unfold mret, M_ret. apply IH.
Qed.

Lemma validate_fields_app H s1 s2 obj errors m :
  validate_fields H (schema_app s1 s2) obj errors m =
  match validate_fields H s1 obj errors m with
  | (Ok errors', m') => validate_fields H s2 obj errors' m'
  | (Throw e, m') => (Throw e, m')
  end.
Proof.
  revert errors m.
  induction s1 as [|field [o sub cfg] rest IH]; intros errors m; [reflexivity|].
  simpl. unfold mbind, M_bind.
  match goal with
  | |- context [match ?c m with _ => _ end] => destruct (c m) as [[e'|x] m1]
  end; [apply IH | reflexivity].
Qed.

(** C3 (amended): [validate] stops collecting errors as soon as one
    error is there, whichever field it came from: no further rule of
    that field is evaluated, and no rule of any subsequent field
    either, so an error in an earlier field suppresses the error
    messages of the later fields.  The errors of a schema are the
    errors of the same schema followed by further fields. *)
Theorem validate_stops_at_first_error (H : Host) (obj : value) :
  (forall o field nested names errors m,
      errors <> [] ->
      validate_rules H o field obj nested names errors m = (Ok errors, m))
  /\ (forall sch errors m,
        errors <> [] -> validate_fields H sch obj errors m = (Ok errors, m))
  /\ (forall s1 s2 es m m',
        validate H obj s1 m = (Ok (VArr es), m') ->
        validate H obj (schema_app s1 s2) m = (Ok (VArr es), m')).
Proof.
  repeat apply conj.
  - intros. by apply validate_rules_stop.
  - intros. by apply validate_fields_stop.
  - intros s1 s2 es m m'. unfold validate, mbind, M_bind, mret, M_ret.
    rewrite validate_fields_app.
    destruct (validate_fields H s1 obj [] m) as [[e|x] m1]; [|discriminate].
    unfold verdict. destruct e as [|v e]; simpl; [discriminate|].
    intros [= <- <-]. by rewrite validate_fields_stop.
Qed.

(** An instance: the required fields [a] and [b] on [{}]. *)
Lemma validate_stops_at_first_error_witness :
  validate host (VObj []) (schema_app (SCons "a" required SNil) (SCons "b" required SNil)) m0
  = (Ok (VArr [VStr "a is required"]), m0).
Proof.
  apply (proj2 (proj2 (validate_stops_at_first_error host (VObj [])))
           (SCons "a" required SNil) (SCons "b" required SNil)).
  reflexivity.
Defined.

(** C3, as stated, fails: on [{}] the field [b] alone gives
    ["b is required"], and after the field [a], which fails too, the
    message of [b] is not there. *)
Lemma validate_later_field_suppressed :
  fst (validate host (VObj []) (SCons "b" required SNil) m0)
  = Ok (VArr [VStr "b is required"])
  /\ fst (validate host (VObj []) (SCons "a" required (SCons "b" required SNil)) m0)
     = Ok (VArr [VStr "a is required"]).
Proof. split; reflexivity. Qed.

(** ** [sanitize] *)

Lemma bind_run {A B : Type} (c : M A) (k : A -> M B) (m : Machine) :
  (c ≫= k) m
  = match c m with
    | (Ok a, m1) => k a m1
    | (Throw e, m1) => (Throw e, m1)
    end.
Proof. unfold mbind, M_bind. by destruct (c m) as [[a|e] m1]. Qed.

Lemma bind_Ok {A B : Type} (c : M A) (k : A -> M B) (m m' : Machine) (r : B) :
  (c ≫= k) m = (Ok r, m') ->
  exists a m1, c m = (Ok a, m1) /\ k a m1 = (Ok r, m').
Proof.
  unfold mbind, M_bind. destruct (c m) as [[a|e] m1]; [eauto | discriminate].
Qed.

Lemma strict_eq_true a b : strict_eq a b = true -> a = b.
Proof.
  destruct a, b; try done; cbn.
  - by intros ->%Bool.eqb_prop.
  - by intros ->%Z.eqb_eq.
  - by intros ->%String.eqb_eq.
  - by intros ->%Nat.eqb_eq.
Qed.

Lemma assoc_assign_same k v ps : assoc k (assign_prop k v ps) = Some v.
Proof.
  induction ps as [|[k' v'] ps IH]; cbn; [by rewrite String.eqb_refl|].
  destruct (String.eqb_spec k k') as [<-|Hne]; cbn; [by rewrite String.eqb_refl|].
  destruct (String.eqb_spec k k'); [done | exact IH].
Qed.

Lemma assoc_assign_other k k' v ps : k' <> k -> assoc k' (assign_prop k v ps) = assoc k' ps.
Proof.
  intros Hne. induction ps as [|[k0 v0] ps IH]; cbn.
  - destruct (String.eqb_spec k' k); done.
  - destruct (String.eqb_spec k k0) as [<-|Hk]; cbn.
    + destruct (String.eqb_spec k' k); done.
    + destruct (String.eqb_spec k' k0); [done | exact IH].
Qed.

Lemma eqb_decide (a b : string) : String.eqb a b = bool_decide (a = b).
Proof.
  destruct (String.eqb_spec a b);
    [by rewrite bool_decide_eq_true_2 | by rewrite bool_decide_eq_false_2].
Qed.

Lemma assign_prop_keys k v ps :
  (assign_prop k v ps).*1 = if bool_decide (k ∈ ps.*1) then ps.*1 else ps.*1 ++ [k].
Proof.
  induction ps as [|[k' v'] ps IH].
  - by rewrite bool_decide_eq_false_2 by apply not_elem_of_nil.
  - cbn [assign_prop fmap list_fmap fst]. rewrite eqb_decide.
    destruct (decide (k = k')) as [->|Hne].
    + rewrite bool_decide_eq_true_2 by done.
      by rewrite bool_decide_eq_true_2 by apply list_elem_of_here.
    + rewrite bool_decide_eq_false_2 by done.
      cbn [fmap list_fmap fst]. fold (fmap (M:=list) (@fst string value)). rewrite IH.
      destruct (decide (k ∈ ps.*1)) as [Hin|Hnin].
      * rewrite !bool_decide_eq_true_2; [done | by apply list_elem_of_further | done].
      * rewrite !bool_decide_eq_false_2; [done | | done].
        intros [?|?]%elem_of_cons; congruence.
Qed.

Lemma sanitize_fields_keys H sch json tmp clean m clean' m' :
  sanitize_fields H sch json tmp clean m = (Ok clean', m') ->
  (forall k, k ∈ clean'.*1 <-> k ∈ clean.*1 \/ k ∈ fields sch)
  /\ (NoDup clean.*1 -> NoDup clean'.*1)
  /\ (NoDup (fields sch) -> (forall k, k ∈ fields sch -> k ∉ clean.*1) ->
      clean'.*1 = clean.*1 ++ fields sch).
Proof.
  revert clean m. induction sch as [|field d rest IH]; intros clean m.
  - simpl. intros [= <- <-]. repeat apply conj.
    + intros k. rewrite elem_of_nil. tauto.
    + done.
    + intros _ _. by rewrite app_nil_r.
  - simpl. unfold mbind, M_bind.
    destruct (sanitizeField H None field d json tmp m) as [[v|x] m1]; [|discriminate].
    intros Hrest. apply IH in Hrest as (Hk & Hnd & Heq).
    rewrite assign_prop_keys in Hk, Hnd, Heq.
    repeat apply conj.
    + intros k. rewrite Hk, elem_of_cons. case_bool_decide as E.
      * split; [tauto|]. intros [?|[->|?]]; tauto.
      * rewrite elem_of_app, list_elem_of_singleton. tauto.
    + intros Hc. apply Hnd. case_bool_decide as E; [done|].
      apply NoDup_app. repeat apply conj; [done | | apply NoDup_singleton].
      intros k Hin ->%list_elem_of_singleton. done.
    + intros [Hnf Hndr]%NoDup_cons Hfresh.
      rewrite bool_decide_eq_false_2 in Heq by (apply Hfresh, list_elem_of_here).
      rewrite Heq; [by rewrite <- app_assoc | done |].
      intros k Hin [?| ->%list_elem_of_singleton]%elem_of_app; [|done].
      eapply Hfresh; [by apply list_elem_of_further | done].
Qed.










(** ** [upsertItem] *)

Lemma not_array_test v :
  String.eqb (typeof v) "undefined" || negb (isArray v) = negb (isArray v).
Proof. by destruct v. Qed.

Lemma isArray_elems v :
  isArray v = true -> VArr (match v with VArr es => es | _ => [] end) = v.
Proof. by destruct v. Qed.

Lemma find_existing_pure l keyValue i m r m' :
  find_existing l keyValue i m = (r, m') -> m' = m.
Proof.
  revert i. induction l as [|x l IH]; intros i; simpl; unfold_m.
  - by intros [= _ <-].
  - destruct (get x "__bID") as [bid|e]; [|by intros [= _ <-]].
    destruct (strict_eq bid keyValue); [by intros [= _ <-] | apply IH].
Qed.

Lemma upsertItem_outcome H modelArray keyValue newItem overwrite m out m' :
  upsertItem H modelArray keyValue newItem overwrite m = (Ok out, m') ->
  (returned out = false /\ (not_structured newItem \/ conflicting keyValue newItem)
   /\ collection out = modelArray /\ item out = newItem
   /\ exists w, console m' = console m
                  ++ (if isArray modelArray then [] else [non_array_warning]) ++ [w])
  \/ (returned out = true /\ ~ not_structured newItem /\ ~ conflicting keyValue newItem
      /\ (isArray modelArray = false -> collection out = modelArray)
      /\ console m' = console m
           ++ (if isArray modelArray then [] else [non_array_warning])).
Proof.
  unfold upsertItem, not_structured, conflicting. rewrite not_array_test.
  pose proof (isArray_elems modelArray) as Hback.
  destruct (isArray modelArray) eqn:Ha; [specialize (Hback eq_refl)|clear Hback];
    cbn [negb]; unfold_m; cbn beta iota.
  all: destruct (String.eqb_spec (typeof newItem) "object") as [Hobj|Hobj]; cbn [negb];
    [|intros [= <- <-]; left; cbn; rewrite <- ?app_assoc, ?Hback; eauto 10].
  all: destruct (get newItem "__bID") as [bid|x] eqn:Hbid; [|discriminate].
  all: destruct (String.eqb_spec (typeof bid) "undefined") as [Hu|Hu]; cbn [negb andb].
  all: try (destruct (strict_eq bid keyValue) eqn:Hk; cbn [negb];
            [|intros [= <- <-]; left; cbn; rewrite <- ?app_assoc, ?Hback; eauto 10]).
  all: match goal with
       | |- context [find_existing ?l ?k ?i ?m] =>
           destruct (find_existing l k i m) as [[[i0|]|x] m1] eqn:Hfind;
           apply find_existing_pure in Hfind as ->
       end; try discriminate.
  all: repeat case_match; try discriminate.
  all: intros [= <- <-]; right; cbn; rewrite ?app_nil_r;
    (split; [done|]); (split; [by intros Hn|]);
    (split; [intros (b & Hb & ? & ?); simplify_eq; congruence | done]).
Qed.




(** ** [listen] and [ignore] *)

Lemma listen_eq callback m :
  listen callback m
  = (Ok (Z.of_nat (length (listeners_of m)) + 1),
     with_this (set_listeners (listeners_of m ++ [callback])) m).
Proof.
  unfold listen, listeners_of. unfold_m. cbn. unfold with_this. cbn.
  rewrite length_app. cbn. do 3 f_equal. lia.
Qed.

Lemma ignore_eq callback m :
  ignore callback m
  = let index := ignore_index (listeners_of m) callback in
    if 0 <=? index
    then (Ok true, with_this (set_listeners (splice1 index (listeners_of m))) m)
    else (Ok false, m).
Proof.
  unfold ignore, ignore_index, listeners_of. unfold_m. cbn.
  destruct callback; by case_match.
Qed.

Lemma delete_past_front {A} (front rest : list A) (i : nat) :
  (length front <= i)%nat ->
  delete i (front ++ rest) = front ++ delete (i - length front)%nat rest.
Proof.
  revert i. induction front as [|x front IH]; intros i Hi; cbn in *.
  - by rewrite Nat.sub_0_r.
  - destruct i as [|i]; [lia|]. cbn. f_equal. apply IH. lia.
Qed.

Lemma serve_all_spares n rs front rest m :
  length front = n ->
  listeners_of m = front ++ rest ->
  spares n rs (listeners_of m) = true ->
  exists rest', listeners_of (snd (serve_all rs m)) = front ++ rest'.
Proof.
  intros Hn. revert rest m.
  induction rs as [|[callback|callback] rs IH]; intros rest m Hl Hs.
  - exists rest. done.
  - cbn in Hs |- *. unfold mbind, M_bind. rewrite listen_eq. cbn.
    apply (IH (rest ++ [callback])).
    + unfold listeners_of. cbn. fold (listeners_of m). by rewrite Hl, app_assoc.
    + unfold listeners_of at 1. cbn. done.
  - cbn in Hs |- *. unfold mbind, M_bind. rewrite ignore_eq. cbn.
    set (index := ignore_index (listeners_of m) callback) in *.
    destruct (0 <=? index) eqn:E; cbn.
    + apply andb_true_iff in Hs as [Hge Hs]. apply Z.leb_le in Hge, E.
      apply (IH (delete (Z.to_nat index - n)%nat rest)).
      * unfold listeners_of at 1. cbn. unfold splice1. rewrite Hl.
        rewrite delete_past_front by lia. by rewrite Hn.
      * unfold listeners_of at 1. cbn. done.
    + by apply (IH rest).
Qed.

Lemma indexOf_spec l f :
  ((f ∉ l) /\ indexOf l f = -1)
  \/ (exists pre post,
        l = pre ++ f :: post /\ (f ∉ pre) /\ indexOf l f = Z.of_nat (length pre)).
Proof.
  induction l as [|y l IH]; cbn.
  - left. split; [apply not_elem_of_nil | done].
  - destruct (Nat.eqb_spec y f) as [->|Hne].
    + right. exists [], l. repeat split. apply not_elem_of_nil.
    + destruct IH as [[Hnin ->] | (pre & post & -> & Hnin & ->)].
      * left. split; [|done]. rewrite elem_of_cons. intros [?|?]; [congruence | tauto].
      * right. exists (y :: pre), post. repeat split.
        -- rewrite elem_of_cons. intros [?|?]; [congruence | tauto].
        -- destruct (Z.ltb_spec (Z.of_nat (length pre)) 0); cbn [length]; lia.
Qed.

(** C7 (amended): [listen(callback)] appends the callback and returns
    its position, counted from 1.  The handle stands for that
    position and for nothing else: [ignore(handle)] removes the
    callback which is at that position when [ignore] is called.  So,
    after any calls of [listen] and [ignore] in the interim that
    removed no listener at that position or before it, [ignore] of
    the handle removes exactly the callback its [listen] registered,
    and returns [true].  [ignore(callback)] removes the first
    registration of the callback and returns [true], and returns
    [false], removing nothing, for a callback that is not registered. *)
Theorem handle_is_a_position (m : Machine) (callback : nat) :
  let before := listeners_of m in
  let handle := Z.of_nat (length before) + 1 in
  listen callback m = (Ok handle, with_this (set_listeners (before ++ [callback])) m)
  /\ (forall rs,
        spares (length before + 1) rs (before ++ [callback]) = true ->
        let m2 := snd ((_ ← listen callback; serve_all rs) m) in
        exists rest,
          listeners_of m2 = before ++ callback :: rest
          /\ ignore (Handle handle) m2
             = (Ok true, with_this (set_listeners (before ++ rest)) m2))
  /\ (forall f,
        ((f ∉ before) /\ ignore (Callback f) m = (Ok false, m))
        \/ (exists pre post,
              before = pre ++ f :: post /\ (f ∉ pre)
              /\ ignore (Callback f) m
                 = (Ok true, with_this (set_listeners (pre ++ post)) m))).
Proof.
  cbn zeta. split; [apply listen_eq | split].
  - intros rs Hs. unfold mbind, M_bind. rewrite listen_eq.
    set (m1 := with_this _ m).
    destruct (serve_all_spares (length (listeners_of m) + 1) rs
                (listeners_of m ++ [callback]) [] m1) as [rest Hrest].
    + rewrite length_app. cbn. lia.
    + by rewrite app_nil_r.
    + done.
    + exists rest. rewrite <- app_assoc in Hrest. cbn in Hrest. split; [done|].
      rewrite ignore_eq. cbn. rewrite Hrest.
      replace (0 <=? Z.of_nat (length (listeners_of m)) + 1 - 1) with true
        by (symmetry; apply Z.leb_le; lia).
      unfold splice1.
      replace (Z.to_nat (Z.of_nat (length (listeners_of m)) + 1 - 1))
        with (length (listeners_of m)) by lia.
      rewrite delete_past_front by lia. rewrite Nat.sub_diag. done.
  - intros f. rewrite ignore_eq. cbn.
    destruct (indexOf_spec (listeners_of m) f) as [[Hnin ->] | (pre & post & Hl & Hnin & ->)].
    + left. done.
    + right. exists pre, post. repeat split; [done..|].
      replace (0 <=? Z.of_nat (length pre)) with true by (symmetry; apply Z.leb_le; lia).
      unfold splice1. rewrite Nat2Z.id, Hl.
      rewrite delete_past_front by lia. by rewrite Nat.sub_diag.
Qed.

(** An instance: callback 20 is registered second; a third callback
    comes and goes before the handle of 20 is ignored. *)
Lemma handle_is_a_position_witness :
  let m2 :=
    snd ((_ ← listen 20%nat; serve_all [AskListen 30%nat; AskIgnore (Handle 3)])
           (with_this (set_listeners [10%nat]) m0)) in
  exists rest,
    listeners_of m2 = [10%nat] ++ 20%nat :: rest
    /\ ignore (Handle 2) m2
       = (Ok true, with_this (set_listeners ([10%nat] ++ rest)) m2).
Proof.
  apply (proj1 (proj2 (handle_is_a_position (with_this (set_listeners [10%nat]) m0) 20%nat))
           [AskListen 30%nat; AskIgnore (Handle 3)]).
  reflexivity.
Defined.

(** C7, as stated, fails: three callbacks 10, 20 and 30 get the
    handles 1, 2 and 3; once handle 1 is ignored, [ignore] of handle 2
    returns [true], leaves callback 20 registered and removes
    callback 30. *)
Lemma handle_shifts_after_removal :
  (_ ← listen 10%nat; _ ← listen 20%nat; h ← listen 30%nat; mret h) m0
  = (Ok 3, with_this (set_listeners [10%nat; 20%nat; 30%nat]) m0)
  /\ (_ ← ignore (Handle 1); ignore (Handle 2))
       (with_this (set_listeners [10%nat; 20%nat; 30%nat]) m0)
     = (Ok true, with_this (set_listeners [20%nat]) m0).
Proof. split; reflexivity. Qed.

(** ** [stateChange], [flush] and [notify] *)

Lemma forEach_quiet manager behaviour oldState count k m :
  (forall callback a b, behaviour callback a b = []) ->
  forEach_listener manager behaviour count k oldState m
  = (Ok tt,
     with_delivered
       (fun d => d ++ map (fun callback => (callback, state (this m), oldState))
                        (take count (drop k (listeners_of m)))) m).
Proof.
  intros Hq. revert k m. induction count as [|count IH]; intros k m.
  - cbn. unfold mret, M_ret, with_delivered. rewrite app_nil_r. by destruct m.
  - cbn [forEach_listener]. unfold_m. cbn beta iota. fold (listeners_of m).
    destruct (listeners_of m !! k) as [callback|] eqn:Hk.
    + rewrite Hq. cbn [perform_all]. unfold mret, M_ret. rewrite IH.
      unfold listeners_of, with_delivered. cbn.
      fold (listeners_of m). rewrite (drop_S _ _ _ Hk). cbn.
      by rewrite <- app_assoc.
    + unfold mret, M_ret. rewrite IH.
      apply lookup_ge_None in Hk.
      rewrite !drop_ge by lia. by rewrite !take_nil.
Qed.

(** What [flush] does when no listener calls the store back: the draft
    is committed, the draft is [null], the store is not dirty, every
    listener is called once, in order, with the new state and the
    copy of the old one, and, in debug mode, one entry joins the
    pending names.  The pending names are as they were. *)
Lemma flush_quiet manager behaviour m :
  (forall callback a b, behaviour callback a b = []) ->
  exists m',
    flush manager behaviour m = (Ok tt, m')
    /\ state (this m') = _nextState (this m)
    /\ _nextState (this m') = Prim VNull
    /\ dirtyState (this m') = false
    /\ pendingActions (this m') = pendingActions (this m)
    /\ listeners_of m' = listeners_of m
    /\ heap m' = heap m ++ [VObj (enumerable (committed m))]
    /\ stateHistory (this m')
       = stateHistory (this m)
         ++ (if debug (this m)
             then [mkStateHistory (String.concat "," (pendingActions (this m)))
                     (Ref (length (heap m)))]
             else [])
    /\ delivered m'
       = delivered m
         ++ map (fun callback => (callback, _nextState (this m), Ref (length (heap m))))
              (listeners_of m).
Proof.
  intros Hq. unfold flush, notify, ref_value, deref, alloc, committed, listeners_of.
  unfold_m. cbn beta iota.
  destruct (state (this m)) as [p|l]; cbn; destruct (debug (this m)) eqn:Hg; cbn;
    rewrite ?Hg; cbn; rewrite forEach_quiet by done;
    (eexists; split; [reflexivity|]); cbn;
    rewrite ?app_nil_r, ?firstn_all; repeat split; reflexivity.
Qed.

(** When the store is dirty, [stateChange] records the name and the
    draft and asks the manager for nothing. *)
Lemma stateChange_when_dirty manager actionName next m :
  dirtyState (this m) = true -> debug (this m) = false ->
  stateChange manager actionName next m
  = (Ok tt,
     with_this (fun s => set_nextState next
                           (set_pendingActions (pendingActions s ++ [actionName]) s)) m).
Proof.
  intros Hd Hg. unfold stateChange. unfold_m. cbn. rewrite Hg. cbn.
  by rewrite Hd.
Qed.

(** ** [nextState] and [cloneState] *)
















(** ** [flush] and the pending names *)

(** C1, which the code does not meet.  [flush] commits the draft,
    resets the draft and the dirty flag, writes the history entry in
    debug mode and notifies the listeners, and it leaves the pending
    names as they are: after a cycle with the action "first" the
    names are ["first"], not empty, and the history entry of a second
    cycle, with the action "second", joins both names. *)
Theorem flush_keeps_the_pending_names :
  let m1 := snd (one_cycle "first" (machine_of (counter 0) [7%nat] true)) in
  let m2 := snd (two_cycles (machine_of (counter 0) [7%nat] true)) in
  state (this m1) = Ref 1%nat /\ heap m1 !! 1%nat = Some (counter 1)
  /\ _nextState (this m1) = Prim VNull /\ dirtyState (this m1) = false
  /\ delivered m1 = [(7%nat, Ref 1%nat, Ref 2%nat)]
  /\ map actionName (stateHistory (this m1)) = ["first"]
  /\ pendingActions (this m1) = ["first"]
  /\ pendingActions (this m2) = ["first"; "second"]
  /\ map actionName (stateHistory (this m2)) = ["first"; "first,second"].
Proof. cbv zeta. repeat apply conj; vm_compute; reflexivity. Qed.

(** C6, which the code does not meet.  Listener 7 runs a mutator
    when it is notified.  After the flush in which it is called, the
    draft of its [stateChange] is there (count 2, on the
    committed count 1), and the store is not dirty and the manager has
    no request but the one of the first mutation: the dirty flag, still
    set during the notification, kept [stateChange] from asking for a
    flush, and [notify] cleared it afterwards.  The same under a
    manager that flushes at once. *)
Theorem stateChange_in_listener_is_not_flushed :
  let start := machine_of (counter 0) [7%nat] false in
  let m :=
    snd ((_ ← perform deferred (Mutate "increment" increment);
          flush deferred reentrant) start) in
  state (this m) = Ref 1%nat /\ heap m !! 1%nat = Some (counter 1)
  /\ _nextState (this m) = Ref 3%nat /\ heap m !! 3%nat = Some (counter 2)
  /\ pendingActions (this m) = ["increment"; "again"]
  /\ dirtyState (this m) = false
  /\ flushRequests m = ["s1"]
  /\ snd (perform (synchronous reentrant) (Mutate "increment" increment) start) = m.
Proof. cbv zeta. repeat apply conj; vm_compute; reflexivity. Qed.

(** ** [seed] *)

(** C2, which the code does not meet.  [seed] leaves at the first key
    of the draft that the payload does not define: the keys after it
    are not seeded, and nothing is dispatched.  With the
    payload [{state: {a: 1}}], a draft [{b: 2, a: undefined}] keeps
    [a] undefined; a draft [{a: undefined, b: 2}] gets [a = 1] and
    keeps [b], and is not dispatched.  Arrays are concatenated, and a
    draft all of whose keys the payload defines is dispatched. *)
Theorem seed_returns_at_a_missing_key :
  let m1 := snd (seed (payload [("a", VNum 1)])
                   (machine_of (VObj [("b", VNum 2); ("a", VUndefined)]) [] false)) in
  let m2 := snd (seed (payload [("a", VNum 1)])
                   (machine_of (VObj [("a", VUndefined); ("b", VNum 2)]) [] false)) in
  let m3 := snd (seed (payload [("a", VArr [VNum 3])])
                   (machine_of (VObj [("a", VArr [VNum 1; VNum 2])]) [] false)) in
  (_nextState (this m1) = Ref 1%nat
   /\ heap m1 !! 1%nat = Some (VObj [("b", VNum 2); ("a", VUndefined)])
   /\ dispatched m1 = [])
  /\ (_nextState (this m2) = Ref 1%nat
      /\ heap m2 !! 1%nat = Some (VObj [("a", VNum 1); ("b", VNum 2)])
      /\ dispatched m2 = [])
  /\ (_nextState (this m3) = Ref 1%nat
      /\ heap m3 !! 1%nat = Some (VObj [("a", VArr [VNum 1; VNum 2; VNum 3])])
      /\ dispatched m3 = [("__STORE_STATE_SEED___s1", [Ref 1%nat])]).
Proof. cbv zeta. repeat apply conj; vm_compute; reflexivity. Qed.

(** C4, which the code does not meet.  [typeof null] is ['object'],
    so [null] passes the guards that log a warning: [seed(null)] throws a TypeError, [seed({state: null})] throws one
    on a draft with a key, and [upsertItem] throws one for the item
    [null].  A payload or an item of another type is refused with a
    warning. *)
Theorem null_passes_the_object_guards :
  let m := machine_of (VObj [("a", VUndefined)]) [] false in
  fst (seed VNull m)
  = Throw (TypeError "Cannot read properties of null (reading 'state')")
  /\ fst (seed (VObj [("state", VNull)]) m)
     = Throw (TypeError "Cannot read properties of null (reading 'a')")
  /\ fst (upsertItem host (VArr []) (VNum 1) VNull false m)
     = Throw (TypeError "Cannot read properties of null (reading '__bID')")
  /\ seed (VNum 3) m
     = (Ok tt, with_console (fun c => c ++ ["Invalid object supplied to store seed: "]) m)
  /\ seed (VObj []) m
     = (Ok tt, with_console (fun c => c ++ ["Invalid object supplied to store seed: "]) m)
  /\ upsertItem host (VArr []) (VNum 1) (VNum 3) false m
     = (Ok {| returned := false; collection := VArr []; item := VNum 3 |},
        with_console (fun c => c ++ ["Upserted item must be an object"]) m).
Proof. cbv zeta. repeat apply conj; vm_compute; reflexivity. Qed.

(** ** Decimal numerals: [String(n)] and [parseInt] *)

Lemma digit_pretty_N_char (y : N) :
  (y < 10)%N -> digit 10 (pretty_N_char y) = Some (Z.of_N y).
Proof.
  intros Hy.
  assert (y = 0 \/ y = 1 \/ y = 2 \/ y = 3 \/ y = 4 \/ y = 5 \/ y = 6 \/ y = 7
          \/ y = 8 \/ y = 9)%N as Hc by lia.
  repeat (destruct Hc as [-> | Hc]; [reflexivity|]). by subst.
Qed.

Lemma pretty_N_go_digits (x : N) (s : string) :
  all_digits s = true -> all_digits (pretty_N_go x s) = true.
Proof.
  revert s. induction (N.lt_wf_0 x) as [x _ IH]; intros s Hs.
  destruct (decide (x = 0)%N) as [->|Hx]; [by rewrite pretty_N_go_0|].
  rewrite pretty_N_go_step by lia. apply IH.
  - apply N.div_lt; lia.
  - cbn. rewrite Hs. unfold is_digit.
    rewrite digit_pretty_N_char; [done|]. by apply N.mod_lt.
Qed.

Lemma pretty_N_go_value (x : N) (s : string) :
  (0 < x)%N ->
  digits 10 (pretty_N_go x s) None = digits 10 s (Some (Z.of_N x))
  /\ pretty_N_go x s <> "".
Proof.
  revert s. induction (N.lt_wf_0 x) as [x _ IH]; intros s Hx.
  rewrite pretty_N_go_step by done.
  assert (Hd : digit 10 (pretty_N_char (x `mod` 10)) = Some (Z.of_N (x `mod` 10)))
    by (apply digit_pretty_N_char, N.mod_lt; lia).
  assert (Hx10 : x = (10 * (x `div` 10) + x `mod` 10)%N) by (apply N.div_mod; lia).
  destruct (decide (x `div` 10 = 0)%N) as [E|E].
  - rewrite E, pretty_N_go_0. split; [|done]. cbn [digits]. rewrite Hd. cbn [default].
    do 2 f_equal. clear Hd IH.
    set (u := (x `mod` 10)%N) in *. set (t := (x `div` 10)%N) in *.
    clearbody u t. unfold id. lia.
  - destruct (IH (x `div` 10)%N) with (s := String (pretty_N_char (x `mod` 10)) s)
      as [Hv Hne]; [apply N.div_lt; lia | by apply N.neq_0_lt_0 |].
    split; [|done]. rewrite Hv. cbn [digits]. rewrite Hd. cbn [default].
    do 2 f_equal. clear Hd IH.
    set (u := (x `mod` 10)%N) in *. set (t := (x `div` 10)%N) in *.
    clearbody u t. unfold id. lia.
Qed.

Lemma is_digit_inv (c : ascii) :
  is_digit c = true ->
  In c ["0"; "1"; "2"; "3"; "4"; "5"; "6"; "7"; "8"; "9"]%char.
Proof.
  destruct c as [[] [] [] [] [] [] [] []]; intros Hc; try discriminate Hc; cbn; tauto.
Qed.

Lemma strip_letters_digits (t : string) : all_digits t = true -> strip_letters t = t.
Proof.
  induction t as [|a t IHt]; [done|]. cbn. intros [Ha Ht]%andb_true_iff.
  rewrite IHt by done.
  apply is_digit_inv in Ha. cbn in Ha.
  repeat (destruct Ha as [<- | Ha]; [reflexivity|]). done.
Qed.

Lemma parseInt_string_digits (s : string) :
  s <> "" -> all_digits s = true ->
  parseInt_string s = match digits 10 s None with Some n => VNum n | None => VNaN end
  /\ parseInt_string (String "-" s)
     = match digits 10 s None with Some n => VNum (-1 * n) | None => VNaN end
  /\ exists c r, s = String c r /\ is_digit c = true.
Proof.
  intros Hne Hs. destruct s as [|c r]; [done|]. clear Hne.
  cbn [all_digits] in Hs. apply andb_true_iff in Hs as [Hc Hr].
  split; [|split]; [| |by exists c, r].
  all: apply is_digit_inv in Hc; cbn in Hc.
  all: repeat (destruct Hc as [<- | Hc]); try done.
  all: try (unfold parseInt_string; cbv -[digits Z.mul];
            destruct (digits _ _ _); [f_equal; lia | reflexivity]).
  all: destruct r as [|c' r']; [reflexivity|].
  all: cbn [all_digits] in Hr; apply andb_true_iff in Hr as [Hc' _].
  all: apply is_digit_inv in Hc'; cbn in Hc'.
  all: repeat (destruct Hc' as [<- | Hc']); try done.
  all: unfold parseInt_string; cbv -[digits Z.mul];
    destruct (digits _ _ _); [f_equal; lia | reflexivity].
Qed.

Lemma pretty_N_digits (x : N) :
  all_digits (pretty x) = true /\ pretty x <> "" /\ digits 10 (pretty x) None = Some (Z.of_N x).
Proof.
  unfold pretty, pretty_N. destruct (decide (x = 0)%N) as [->|Hx]; [done|].
  destruct (pretty_N_go_value x "") as [Hv Hne]; [lia|].
  split; [by apply pretty_N_go_digits | done].
Qed.

Lemma parseInt_string_pretty (z : Z) : parseInt_string (pretty z) = VNum z.
Proof.
  destruct z as [|p|p]; [reflexivity|..].
  - change (pretty (Z.pos p)) with (pretty (N.pos p)).
    destruct (pretty_N_digits (N.pos p)) as (Hd & Hne & Hv).
    destruct (parseInt_string_digits _ Hne Hd) as (-> & _). by rewrite Hv.
  - change (pretty (Z.neg p)) with (String "-" (pretty (N.pos p))).
    destruct (pretty_N_digits (N.pos p)) as (Hd & Hne & Hv).
    destruct (parseInt_string_digits _ Hne Hd) as (_ & -> & _). rewrite Hv.
    f_equal.
Qed.

Lemma strip_letters_pretty (z : Z) : strip_letters (pretty z) = pretty z.
Proof.
  destruct z as [|p|p]; [reflexivity|..].
  - change (pretty (Z.pos p)) with (pretty (N.pos p)).
    destruct (pretty_N_digits (N.pos p)) as (Hd & Hne & Hv).
    by apply strip_letters_digits.
  - change (pretty (Z.neg p)) with (String "-" (pretty (N.pos p))).
    destruct (pretty_N_digits (N.pos p)) as (Hd & Hne & Hv).
    cbn. by rewrite strip_letters_digits.
Qed.

Lemma index_key_digit (i : nat) : exists c r, index_key i = String c r /\ is_digit c = true.
Proof.
  unfold index_key. change (pretty i) with (pretty (N.of_nat i)).
  destruct (pretty_N_digits (N.of_nat i)) as (Hd & Hne & _).
  by destruct (parseInt_string_digits _ Hne Hd) as (_ & _ & ?).
Qed.

Lemma index_key_not_name (i : nat) (c : ascii) (r : string) :
  is_digit c = false -> index_key i <> String c r.
Proof.
  intros Hc E. destruct (index_key_digit i) as (c' & r' & E' & Hc').
  rewrite E in E'. injection E' as -> _. congruence.
Qed.

(** ** [getItem], [removeItem] and [removeItems] *)

Lemma find_index_here n j i :
  (j <= i < j + n)%nat -> find_index (index_key i) n j = Some i.
Proof.
  revert j. induction n as [|n IH]; intros j Hi; [lia|].
  cbn [find_index]. destruct (String.eqb_spec (index_key i) (index_key j)) as [E|E].
  - apply (inj pretty) in E. by subst.
  - apply IH. assert (i <> j) by congruence. lia.
Qed.

Lemma find_index_name (c : ascii) (r : string) n j :
  is_digit c = false -> find_index (String c r) n j = None.
Proof.
  intros Hc. revert j. induction n as [|n IH]; intros j; [done|].
  cbn [find_index]. destruct (String.eqb_spec (String c r) (index_key j)) as [E|E]; [|apply IH].
  symmetry in E. by apply index_key_not_name in E.
Qed.

Lemma get_array_index es i x :
  es !! i = Some x -> get (VArr es) (index_key i) = Ok x.
Proof.
  intros Hx. unfold get.
  destruct (String.eqb_spec (index_key i) "length") as [E|_].
  - by apply index_key_not_name in E.
  - unfold array_index. rewrite find_index_here by (apply lookup_lt_Some in Hx; lia).
    cbn. by rewrite Hx.
Qed.

Lemma get_key_not_object item :
  readable item = true -> (forall ps, item <> VObj ps) -> get item "__bID" = Ok VUndefined.
Proof.
  intros Hr Hno. destruct item as [| | | | | | | | |es|ps]; try done; cbn.
  - unfold array_index. by rewrite find_index_name.
  - unfold array_index. by rewrite find_index_name.
  - by destruct (Hno ps).
Qed.

Lemma get_key_of item : readable item = true -> get item "__bID" = Ok (key_of item).
Proof.
  intros Hr. unfold key_of. destruct (get item "__bID") eqn:E; [done|].
  destruct item; try done; cbn in E; repeat case_match; done.
Qed.

Lemma get_unreadable item k :
  readable item = false -> exists msg, get item k = Throw (TypeError msg).
Proof. destruct item; try done; intros _; cbn; eauto. Qed.

Lemma strict_eq_sym a b : strict_eq a b = strict_eq b a.
Proof.
  destruct a, b; try done; cbn.
  - by destruct b0, b.
  - apply Z.eqb_sym.
  - apply String.eqb_sym.
  - apply Nat.eqb_sym.
Qed.

Lemma index_count_array H es m : index_count H (VArr es) m = (Ok (length es), m).
Proof.
  unfold index_count, to_length. unfold_m. cbn. by rewrite Nat2Z.id.
Qed.

Lemma first_keyed_none keyValue front l m :
  passed keyValue l ->
  first_keyed (VArr (front ++ l)) keyValue (length l) (length front) m = (Ok None, m).
Proof.
  revert front. induction l as [|x l IH]; intros front Hl; [done|].
  apply Forall_cons in Hl as [[Hr Hk] Hl].
  cbn [first_keyed length]. unfold_m.
  rewrite (get_array_index _ _ x) by (by rewrite lookup_app_r, Nat.sub_diag by lia).
  rewrite get_key_of by done. unfold has_key in Hk. rewrite Hk.
  specialize (IH (front ++ [x]) Hl). rewrite <- app_assoc, (length_app front) in IH. cbn in IH.
  by rewrite Nat.add_1_r in IH.
Qed.

Lemma first_keyed_found keyValue front pre x post m :
  passed keyValue pre -> readable x = true -> has_key keyValue x = true ->
  first_keyed (VArr (front ++ pre ++ x :: post)) keyValue
    (length (pre ++ x :: post)) (length front) m
  = (Ok (Some ((length front + length pre)%nat, x)), m).
Proof.
  revert front. induction pre as [|y pre IH]; intros front Hl Hr Hk.
  - cbn [first_keyed length app]. unfold_m.
    rewrite (get_array_index _ _ x) by (by rewrite lookup_app_r, Nat.sub_diag by lia).
    rewrite get_key_of by done. unfold has_key in Hk. rewrite Hk.
    by rewrite Nat.add_0_r.
  - apply Forall_cons in Hl as [[Hry Hky] Hl].
    cbn [first_keyed length app]. unfold_m.
    rewrite (get_array_index _ _ y) by (by rewrite lookup_app_r, Nat.sub_diag by lia).
    rewrite get_key_of by done. unfold has_key in Hky. rewrite Hky.
    specialize (IH (front ++ [y]) Hl Hr Hk).
    rewrite <- app_assoc, (length_app front) in IH. cbn in IH.
    rewrite Nat.add_1_r in IH. rewrite IH. do 4 f_equal. lia.
Qed.

Lemma first_keyed_throws keyValue front pre bad post m :
  passed keyValue pre -> readable bad = false ->
  exists msg,
    first_keyed (VArr (front ++ pre ++ bad :: post)) keyValue
      (length (pre ++ bad :: post)) (length front) m
    = (Throw (TypeError msg), m).
Proof.
  revert front. induction pre as [|y pre IH]; intros front Hl Hr.
  - cbn [first_keyed length app]. unfold_m.
    rewrite (get_array_index _ _ bad) by (by rewrite lookup_app_r, Nat.sub_diag by lia).
    destruct (get_unreadable bad "__bID" Hr) as [msg ->]. eauto.
  - apply Forall_cons in Hl as [[Hry Hky] Hl].
    cbn [first_keyed length app]. unfold_m.
    rewrite (get_array_index _ _ y) by (by rewrite lookup_app_r, Nat.sub_diag by lia).
    rewrite get_key_of by done. unfold has_key in Hky. rewrite Hky.
    destruct (IH (front ++ [y]) Hl Hr) as [msg IH'].
    rewrite <- app_assoc, (length_app front) in IH'. cbn in IH'.
    rewrite Nat.add_1_r in IH'. eauto.
Qed.

(** Every list is passed by the scan, or holds a first item that
    stops it. *)
Lemma scan_cases keyValue (l : list value) :
  passed keyValue l
  \/ exists pre x post,
       l = pre ++ x :: post /\ passed keyValue pre
       /\ (readable x = false \/ (readable x = true /\ has_key keyValue x = true)).
Proof.
  induction l as [|y l IH]; [left; constructor|].
  destruct (readable y) eqn:Hr.
  - destruct (has_key keyValue y) eqn:Hk.
    + right. exists [], y, l. repeat split; [constructor | auto].
    + destruct IH as [Hp | (pre & x & post & -> & Hp & Hx)].
      * left. by constructor.
      * right. exists (y :: pre), x, post. repeat split; [by constructor | done].
  - right. exists [], y, l. repeat split; [constructor | auto].
Qed.

Lemma find_passed keyValue l :
  passed keyValue l -> List.find (has_key keyValue) l = None.
Proof.
  induction 1 as [|x l [_ Hk] _ IH]; [done|]. cbn. by rewrite Hk.
Qed.

Lemma find_stopped keyValue pre x post :
  passed keyValue pre -> has_key keyValue x = true ->
  List.find (has_key keyValue) (pre ++ x :: post) = Some x.
Proof.
  induction 1 as [|y l [_ Hk] _ IH]; intros Hx; cbn; [by rewrite Hx|].
  rewrite Hk. by apply IH.
Qed.

Lemma passed_readable keyValue l :
  Forall (fun x => readable x = true) l ->
  Forall (fun x => has_key keyValue x = false) l -> passed keyValue l.
Proof.
  intros Hr Hk. apply Forall_and. split; [exact Hr | exact Hk].
Qed.


Lemma getItem_none H keyValue es m :
  passed keyValue es -> getItem H (VArr es) keyValue m = (Ok VNull, m).
Proof.
  intros Hp. unfold getItem. unfold mbind at 1, M_bind. rewrite index_count_array.
  unfold mbind, M_bind. by rewrite (first_keyed_none keyValue [] es).
Qed.

Lemma getItem_found H keyValue pre x post m :
  passed keyValue pre -> readable x = true -> has_key keyValue x = true ->
  getItem H (VArr (pre ++ x :: post)) keyValue m = (Ok x, m).
Proof.
  intros Hp Hr Hk. unfold getItem. unfold mbind at 1, M_bind. rewrite index_count_array.
  unfold mbind, M_bind. by rewrite (first_keyed_found keyValue [] pre x post).
Qed.

Lemma getItem_unreadable H keyValue pre bad post m :
  passed keyValue pre -> readable bad = false ->
  exists msg, getItem H (VArr (pre ++ bad :: post)) keyValue m = (Throw (TypeError msg), m).
Proof.
  intros Hp Hb. unfold getItem. unfold mbind at 1, M_bind.
  rewrite index_count_array. unfold mbind, M_bind.
  destruct (first_keyed_throws keyValue [] pre bad post m Hp Hb) as [msg Hm].
  cbn [app length] in Hm. rewrite Hm. eauto.
Qed.

(** X1: [getItem] on an array whose items can all be read returns the
    first item whose [__bID] is [keyValue] under [===], and [null]
    when there is none; the machine is left as it was.  It throws a
    TypeError when it meets a [null] or [undefined] item before such
    an item. *)
Theorem getItem_first_match (H : Host) (es : list value) (keyValue : value) (m : Machine) :
  (Forall (fun x => readable x = true) es ->
   getItem H (VArr es) keyValue m
   = (Ok (default VNull (List.find (has_key keyValue) es)), m))
  /\ (forall pre bad post,
        es = pre ++ bad :: post -> passed keyValue pre -> readable bad = false ->
        exists msg, getItem H (VArr es) keyValue m = (Throw (TypeError msg), m)).
Proof.
  split.
  - intros Hr.
    destruct (scan_cases keyValue es) as [Hp | (pre & x & post & -> & Hp & [Hx | [Hx Hk]])].
    + by rewrite getItem_none, find_passed.
    + apply Forall_app in Hr as [_ Hr]. apply Forall_cons in Hr as [Hr _]. congruence.
    + by rewrite getItem_found, find_stopped.
  - intros pre bad post -> Hp Hb. by apply getItem_unreadable.
Qed.

Lemma removeItem_none H keyValue es m :
  passed keyValue es ->
  removeItem H (VArr es) keyValue m = (Ok (mkRemoval (VBool false) (VArr es)), m).
Proof.
  intros Hp. unfold removeItem. unfold mbind at 1, M_bind. rewrite index_count_array.
  unfold mbind, M_bind. by rewrite (first_keyed_none keyValue [] es).
Qed.

Lemma removeItem_found H keyValue pre x post m :
  passed keyValue pre -> readable x = true -> has_key keyValue x = true ->
  removeItem H (VArr (pre ++ x :: post)) keyValue m
  = (Ok (mkRemoval (VArr [x]) (VArr (pre ++ post))), m).
Proof.
  intros Hp Hr Hk. unfold removeItem. unfold mbind at 1, M_bind.
  rewrite index_count_array. unfold mbind, M_bind.
  rewrite (first_keyed_found keyValue [] pre x post) by done.
  cbn [length app Nat.add]. by rewrite drop_app_length, delete_middle.
Qed.

(** X2: [removeItem] returns [false] and leaves the array as it is
    when no item has the key.  Otherwise it removes the first item
    that has the key, and only that one, and returns it in an array;
    when no later item has the key, [getItem] then finds none. *)
Theorem removeItem_removes_first_match (H : Host) (es : list value) (keyValue : value)
    (m : Machine) :
  (passed keyValue es ->
   removeItem H (VArr es) keyValue m
   = (Ok {| removed := VBool false; remaining := VArr es |}, m))
  /\ (forall pre x post,
        es = pre ++ x :: post -> passed keyValue pre ->
        readable x = true -> has_key keyValue x = true ->
        removeItem H (VArr es) keyValue m
        = (Ok {| removed := VArr [x]; remaining := VArr (pre ++ post) |}, m)
        /\ (passed keyValue post ->
            getItem H (VArr (pre ++ post)) keyValue m = (Ok VNull, m))).
Proof.
  split; [apply removeItem_none|].
  intros pre x post -> Hp Hr Hk. split; [by apply removeItem_found|].
  intros Hpost. apply getItem_none. by apply Forall_app.
Qed.

Lemma distinct_keys_snoc ks k :
  distinct_keys ks -> Forall (fun k' => strict_eq k' k = false) ks ->
  distinct_keys (ks ++ [k]).
Proof.
  induction ks as [|k0 ks IH]; intros Hd Hk; cbn; [by split|].
  destruct Hd as [Hd0 Hd]. apply Forall_cons in Hk as [Hk0 Hk].
  split; [|by apply IH].
  apply Forall_app. split; [done|]. constructor; [|constructor].
  by rewrite strict_eq_sym.
Qed.

Lemma distinct_keys_filter {A} (f : A -> value) (p : A -> bool) l :
  distinct_keys (map f l) -> distinct_keys (map f (List.filter p l)).
Proof.
  induction l as [|x l IH]; [done|]. cbn. intros [Hx Hd].
  destruct (p x); cbn; [|by apply IH]. split; [|by apply IH].
  clear IH Hd. induction l as [|y l IHl]; [constructor|].
  cbn in Hx |- *. apply Forall_cons in Hx as [Hy Hx].
  destruct (p y); cbn; [constructor|]; auto.
Qed.

Lemma passed_keys keyValue l :
  passed keyValue l -> Forall (fun k' => strict_eq k' keyValue = false) (map key_of l).
Proof.
  induction 1 as [|x l [_ Hk] _ IH]; cbn; constructor; done.
Qed.

Lemma unique_keys_after keyValue pre x post :
  unique_keys (pre ++ x :: post) -> has_key keyValue x = true ->
  Forall (fun y => has_key keyValue y = false) post.
Proof.
  unfold unique_keys, has_key. intros Hu Hk. apply strict_eq_true in Hk.
  induction pre as [|y pre IH]; cbn in Hu.
  - destruct Hu as [Hx _]. rewrite Hk in Hx.
    by apply Forall_map in Hx.
  - apply IH. by destruct Hu.
Qed.

Lemma filter_passed keyValue l (p : value -> bool) :
  passed keyValue l -> (forall x, has_key keyValue x = false -> p x = true) ->
  List.filter p l = l.
Proof.
  intros Hp Hpx. induction Hp as [|x l [_ Hk] _ IH]; [done|].
  cbn. by rewrite (Hpx x Hk), IH.
Qed.

(** The first item with the key is the only one, in a collection of
    unique keys: removing it is removing every item with the key. *)
Lemma removeItem_filter H keyValue es m :
  Forall (fun x => readable x = true) es -> unique_keys es ->
  removeItem H (VArr es) keyValue m
  = (Ok (mkRemoval
           (match List.find (has_key keyValue) es with
            | Some x => VArr [x]
            | None => VBool false
            end)
           (VArr (List.filter (fun x => negb (has_key keyValue x)) es))), m).
Proof.
  intros Hr Hu.
  destruct (scan_cases keyValue es) as [Hp | (pre & x & post & -> & Hp & [Hx | [Hx Hk]])].
  - rewrite removeItem_none, find_passed by done.
    rewrite (filter_passed keyValue) by (done || by intros ? ->). done.
  - apply Forall_app in Hr as [_ Hr]. apply Forall_cons in Hr as [Hr _]. congruence.
  - rewrite removeItem_found, find_stopped by done.
    rewrite List.filter_app. cbn. rewrite Hk. cbn.
    rewrite (filter_passed keyValue pre) by (done || by intros ? ->).
    rewrite (filter_passed keyValue post); [done | | by intros ? ->].
    apply passed_readable.
    + apply Forall_app in Hr as [_ Hr]. by apply Forall_cons in Hr as [_ Hr].
    + by eapply unique_keys_after.
Qed.

Lemma filter_filter {A} (p q : A -> bool) l :
  List.filter q (List.filter p l) = List.filter (fun x => p x && q x) l.
Proof.
  induction l as [|x l IH]; [done|]. cbn.
  destruct (p x); cbn; [destruct (q x)|]; by rewrite IH.
Qed.

Lemma Forall_filter_bool {A} (P : A -> Prop) (p : A -> bool) l :
  Forall P l -> Forall P (List.filter p l).
Proof.
  induction 1 as [|x l Hx _ IH]; [constructor|]. cbn.
  destruct (p x); [by constructor | done].
Qed.

(** X3: on an array of readable items with unique keys,
    [removeItems] leaves exactly the items whose key is none of
    [keyValues], in their order, and the machine as it was. *)
Theorem removeItems_filters_unique_keys (H : Host) (es keyValues : list value)
    (m : Machine) :
  Forall (fun x => readable x = true) es -> unique_keys es ->
  removeItems H (VArr es) keyValues m
  = (Ok (VArr (List.filter
                 (fun x => negb (existsb (fun keyValue => has_key keyValue x) keyValues))
                 es)), m).
Proof.
  revert es.
  induction keyValues as [|keyValue rest IH]; intros es Hr Hu.
  - cbn. unfold mret, M_ret. do 3 f_equal. symmetry.
    induction es as [|x es IHes]; [done|]. cbn. f_equal. apply IHes.
    + by apply Forall_cons in Hr as [_ ?].
    + by destruct Hu.
  - cbn [removeItems]. unfold mbind, M_bind.
    rewrite removeItem_filter by done. cbn [remaining].
    rewrite IH.
    + rewrite filter_filter. do 3 f_equal.
      apply List.filter_ext. intros x. cbn. by rewrite negb_orb.
    + by apply Forall_filter_bool.
    + by apply distinct_keys_filter.
Qed.

(** An instance: the keys 3 and 1 removed from the keys 1, 2, 3. *)
Lemma removeItems_filters_unique_keys_witness :
  let es := [keyed 1 "a"; keyed 2 "b"; keyed 3 "c"] in
  Forall (fun x => readable x = true) es
  /\ unique_keys es
  /\ removeItems host (VArr es) [VNum 3; VNum 1] m0 = (Ok (VArr [keyed 2 "b"]), m0).
Proof.
  cbv zeta.
  assert (Hr : Forall (fun x => readable x = true) [keyed 1 "a"; keyed 2 "b"; keyed 3 "c"])
    by (repeat constructor).
  assert (Hu : unique_keys [keyed 1 "a"; keyed 2 "b"; keyed 3 "c"])
    by (vm_compute; repeat constructor).
  split; [exact Hr | split; [exact Hu|]].
  exact (removeItems_filters_unique_keys host [keyed 1 "a"; keyed 2 "b"; keyed 3 "c"]
           [VNum 3; VNum 1] m0 Hr Hu).
Defined.

(** ** [upsertItem] on an array *)

Lemma find_existing_none keyValue l i m :
  passed keyValue l -> find_existing l keyValue i m = (Ok None, m).
Proof.
  intros Hp. revert i. induction Hp as [|x l [Hr Hk] _ IH]; intros i; [done|].
  cbn [find_existing]. unfold_m. rewrite get_key_of by done.
  unfold has_key in Hk. rewrite Hk. apply IH.
Qed.

Lemma find_existing_found keyValue pre x post i m :
  passed keyValue pre -> readable x = true -> has_key keyValue x = true ->
  find_existing (pre ++ x :: post) keyValue i m = (Ok (Some (i + length pre)%nat), m).
Proof.
  intros Hp Hr Hk. revert i. induction Hp as [|y l [Hry Hky] _ IH]; intros i.
  - cbn [find_existing app]. unfold_m. rewrite get_key_of by done.
    unfold has_key in Hk. rewrite Hk. cbn. by rewrite Nat.add_0_r.
  - cbn [find_existing app]. unfold_m. rewrite get_key_of by done.
    unfold has_key in Hky. rewrite Hky. rewrite IH. cbn. do 3 f_equal. lia.
Qed.

Lemma find_existing_throws keyValue pre bad post i m :
  passed keyValue pre -> readable bad = false ->
  exists msg, find_existing (pre ++ bad :: post) keyValue i m = (Throw (TypeError msg), m).
Proof.
  intros Hp Hb. revert i. induction Hp as [|y l [Hry Hky] _ IH]; intros i.
  - cbn [find_existing app]. unfold_m.
    destruct (get_unreadable bad "__bID" Hb) as [msg ->]. eauto.
  - cbn [find_existing app]. unfold_m. rewrite get_key_of by done.
    unfold has_key in Hky. rewrite Hky. apply IH.
Qed.

Lemma conflicted_spec keyValue ps :
  conflicted keyValue ps = false <-> ~ conflicting keyValue (VObj ps).
Proof.
  unfold conflicted, conflicting, defined. cbn [get].
  set (bid := default VUndefined (assoc "__bID" ps)). split.
  - intros Hc (b & [= <-] & Hu & Hk). rewrite Hk in Hc.
    apply String.eqb_neq in Hu. by rewrite Hu in Hc.
  - intros Hnc. apply not_true_is_false. intros [Hu Hk]%andb_true_iff.
    apply Hnc. exists bid. split; [done|]. split.
    + intros E. rewrite E in Hu. done.
    + by apply negb_true_iff in Hk.
Qed.

(** [upsertItem] on an array, for an item it takes. *)
Lemma upsertItem_head H es keyValue ps overwrite m :
  conflicted keyValue ps = false ->
  upsertItem H (VArr es) keyValue (VObj ps) overwrite m
  = match find_existing es keyValue 0%nat m with
    | (Ok None, m1) =>
        (Ok (mkUpsert true (VArr (es ++ [stamped keyValue ps])) (stamped keyValue ps)), m1)
    | (Ok (Some i), m1) =>
        if overwrite
        then (Ok (mkUpsert true (VArr (<[i:=stamped keyValue ps]> es))
                    (stamped keyValue ps)), m1)
        else
          match set (lodash_merge H (default VUndefined (es !! i)) (VObj ps))
                  "__bID" keyValue with
          | Ok merged => (Ok (mkUpsert true (VArr (<[i:=merged]> es)) (VObj ps)), m1)
          | Throw e => (Throw e, m1)
          end
    | (Throw e, m1) => (Throw e, m1)
    end.
Proof.
  intros Hnc. unfold upsertItem, stamped. rewrite not_array_test.
  cbn [isArray negb].
  change (String.eqb (typeof (VObj ps)) "object") with true. cbn [negb].
  unfold_m. cbn beta iota. cbn [get].
  set (bid := default VUndefined (assoc "__bID" ps)).
  replace (negb (String.eqb (typeof bid) "undefined") && negb (strict_eq bid keyValue))
    with false by (symmetry; exact Hnc).
  destruct (find_existing es keyValue 0%nat m) as [[[i|]|e] m1]; [|done|done].
  destruct overwrite; [done|].
  by destruct (set _ _ _).
Qed.

Lemma key_of_stamped keyValue ps : key_of (stamped keyValue ps) = keyValue.
Proof.
  unfold key_of, stamped. cbn.
  induction ps as [|[k' v'] ps IH]; [done|]. cbn [assign_prop].
  destruct (String.eqb_spec "__bID" k') as [<-|Hne]; [done|].
  cbn [assoc]. destruct (String.eqb_spec "__bID" k'); [done | exact IH].
Qed.

(** What [set] leaves under the key it was given, where it returns. *)
Lemma key_of_set r keyValue r' :
  set r "__bID" keyValue = Ok r' ->
  readable r' = true
  /\ ((exists ps, r = VObj ps /\ r' = stamped keyValue ps)
      \/ ((forall ps, r <> VObj ps) /\ r' = r /\ key_of r' = VUndefined)).
Proof.
  destruct r as [| | | | | | | | |es|ps]; cbn; try done.
  - intros [= <-]. split; [done|]. right. by split.
  - intros [= <-]. split; [done|]. right. by split.
  - intros [= <-]. split; [done|]. right. by split.
  - unfold array_index. rewrite find_index_name by done. intros [= <-].
    split; [done|]. right. split; [done|]. split; [done|].
    unfold key_of. cbn. unfold array_index. by rewrite find_index_name.
  - intros [= <-]. split; [done|]. left. by exists ps.
Qed.

Lemma has_key_shape keyValue x :
  readable x = true -> has_key keyValue x = true ->
  (exists ps, x = VObj ps) \/ keyValue = VUndefined.
Proof.
  intros Hr Hk. destruct x as [| | | | | | | | |es|ps]; try done; eauto.
  all: right; unfold has_key, key_of in Hk.
  all: try (cbn in Hk; by destruct keyValue).
  all: rewrite get_key_not_object in Hk by done; by destruct keyValue.
Qed.

(** X4: [upsertItem] on an array, for an item it takes.  When no
    item has the key, the item, with the key set, is appended.
    Otherwise the first item with the key is replaced in its place:
    with [overwrite], by the item with the key set; without, by what
    lodash's [merge] gives, with the key set.  The other items stay. *)
Theorem upsertItem_inserts_or_replaces (H : Host) (es : list value) (keyValue : value)
    (ps : props) (m : Machine) :
  conflicted keyValue ps = false ->
  (forall overwrite,
      passed keyValue es ->
      upsertItem H (VArr es) keyValue (VObj ps) overwrite m
      = (Ok {| returned := true; collection := VArr (es ++ [stamped keyValue ps]);
               item := stamped keyValue ps |}, m))
  /\ (forall pre x post,
        es = pre ++ x :: post -> passed keyValue pre ->
        readable x = true -> has_key keyValue x = true ->
        upsertItem H (VArr es) keyValue (VObj ps) true m
        = (Ok {| returned := true; collection := VArr (pre ++ stamped keyValue ps :: post);
                 item := stamped keyValue ps |}, m)
        /\ forall merged,
             set (lodash_merge H x (VObj ps)) "__bID" keyValue = Ok merged ->
             upsertItem H (VArr es) keyValue (VObj ps) false m
             = (Ok {| returned := true; collection := VArr (pre ++ merged :: post);
                      item := VObj ps |}, m)).
Proof.
  intros Hnc. split.
  - intros overwrite Hp. rewrite upsertItem_head by done.
    by rewrite find_existing_none.
  - intros pre x post -> Hp Hr Hk. split.
    + rewrite upsertItem_head by done. rewrite find_existing_found by done.
      cbn [Nat.add]. rewrite insert_app_r_alt by lia. by rewrite Nat.sub_diag.
    + intros merged Hm. rewrite upsertItem_head by done.
      rewrite find_existing_found by done. cbn [Nat.add].
      rewrite list_lookup_middle by done. cbn [from_option id]. rewrite Hm.
      rewrite insert_app_r_alt by lia. by rewrite Nat.sub_diag.
Qed.

(** An instance: an item upserted under the key 2, which the second
    of two items has, with [overwrite]. *)
Lemma upsertItem_inserts_or_replaces_witness :
  conflicted (VNum 2) [("name", VStr "z")] = false
  /\ upsertItem host (VArr [keyed 1 "a"; keyed 2 "b"]) (VNum 2)
       (VObj [("name", VStr "z")]) true m0
     = (Ok {| returned := true;
              collection := VArr [keyed 1 "a"; stamped (VNum 2) [("name", VStr "z")]];
              item := stamped (VNum 2) [("name", VStr "z")] |}, m0).
Proof.
  split; [reflexivity|].
  apply (proj2 (upsertItem_inserts_or_replaces host [keyed 1 "a"; keyed 2 "b"] (VNum 2)
                  [("name", VStr "z")] m0 eq_refl)
           [keyed 1 "a"] (keyed 2 "b") [] eq_refl).
  - repeat constructor.
  - reflexivity.
  - reflexivity.
Defined.

(** What an accepted [upsertItem] did to an array: the new item is
    last, or an item [y] with the key took the place of the first
    item that had it. *)
Lemma upsertItem_accepted H es keyValue ps overwrite m out m' :
  merges_objects H ->
  upsertItem H (VArr es) keyValue (VObj ps) overwrite m = (Ok out, m') ->
  returned out = true ->
  m' = m
  /\ conflicted keyValue ps = false
  /\ ((passed keyValue es /\ collection out = VArr (es ++ [stamped keyValue ps]))
      \/ (exists pre x post y,
            es = pre ++ x :: post /\ passed keyValue pre
            /\ readable x = true /\ has_key keyValue x = true
            /\ collection out = VArr (pre ++ y :: post)
            /\ readable y = true /\ key_of y = keyValue
            /\ (overwrite = true -> y = stamped keyValue ps))).
Proof.
  intros Hm Hrun Hret.
  assert (Hnc : conflicted keyValue ps = false).
  { apply conflicted_spec.
    destruct (upsertItem_outcome _ _ _ _ _ _ _ _ Hrun) as [(Hr & _) | (_ & _ & Hn & _)];
      [congruence | done]. }
  rewrite upsertItem_head in Hrun by done.
  destruct (scan_cases keyValue es) as [Hp | (pre & x & post & -> & Hp & [Hx | [Hx Hk]])].
  - rewrite find_existing_none in Hrun by done. injection Hrun as <- <-.
    split; [done|]. split; [done|]. left. by split.
  - destruct (find_existing_throws keyValue pre x post 0%nat m Hp Hx) as [msg Ht].
    rewrite Ht in Hrun. discriminate.
  - rewrite find_existing_found in Hrun by done. cbn [Nat.add] in Hrun.
    rewrite list_lookup_middle in Hrun by done. cbn [from_option id] in Hrun.
    assert (Hins : forall y, <[length pre:=y]> (pre ++ x :: post) = pre ++ y :: post).
    { intros y. rewrite insert_app_r_alt by lia. by rewrite Nat.sub_diag. }
    destruct overwrite.
    + rewrite Hins in Hrun. injection Hrun as <- <-. split; [done|]. split; [done|]. right.
      exists pre, x, post, (stamped keyValue ps). repeat split; try done.
      apply key_of_stamped.
    + destruct (set (lodash_merge H x (VObj ps)) "__bID" keyValue) as [merged|e] eqn:Hs;
        [|discriminate].
      rewrite Hins in Hrun. injection Hrun as <- <-. split; [done|]. split; [done|]. right.
      exists pre, x, post, merged.
      destruct (key_of_set _ _ _ Hs) as [Hry [(ps' & Hr & ->) | (Hno & -> & Hu)]].
      * repeat split; try done. apply key_of_stamped.
      * repeat split; try done. rewrite Hu.
        destruct (has_key_shape keyValue x Hx Hk) as [[ps0 ->] | ->]; [|done].
        destruct (Hm ps0 (VObj ps)) as [ps' Hps']. by destruct (Hno ps').
Qed.

(** X5: after an [upsertItem] on an array that returned [true],
    [getItem] under the same key finds an item, and the item has the
    key; it is the upserted item with the key set when the key was
    new or [overwrite] was given.  The key is any value equal to
    itself under [===], and lodash's [merge] gives an object for an
    object. *)
Theorem upsertItem_then_getItem (H : Host) (es : list value) (keyValue : value)
    (ps : props) (overwrite : bool) (m m' : Machine) (out : upsert) :
  merges_objects H -> strict_eq keyValue keyValue = true ->
  upsertItem H (VArr es) keyValue (VObj ps) overwrite m = (Ok out, m') ->
  returned out = true ->
  exists found,
    getItem H (collection out) keyValue m' = (Ok found, m')
    /\ get found "__bID" = Ok keyValue
    /\ (passed keyValue es \/ overwrite = true -> found = stamped keyValue ps).
Proof.
  intros Hm Hself Hrun Hret.
  destruct (upsertItem_accepted _ _ _ _ _ _ _ _ Hm Hrun Hret)
    as (-> & Hnc & [[Hp Hc] | (pre & x & post & y & -> & Hp & Hx & Hk & Hc & Hy & Hky & Hov)]).
  - exists (stamped keyValue ps). rewrite Hc. split; [|split; [|done]].
    + apply getItem_found; [done | done |]. unfold has_key. by rewrite key_of_stamped.
    + rewrite get_key_of by done. by rewrite key_of_stamped.
  - exists y. rewrite Hc. split; [|split].
    + apply getItem_found; [done | done |]. unfold has_key. by rewrite Hky.
    + rewrite get_key_of by done. by rewrite Hky.
    + intros [Hall | ->]; [|by apply Hov].
      apply Forall_app in Hall as [_ Hall]. apply Forall_cons in Hall as [[_ Hno] _].
      congruence.
Qed.

(** An instance: an item merged into the item of the key 1. *)
Lemma upsertItem_then_getItem_witness :
  merges_objects host
  /\ exists found,
       getItem host (VArr [keyed 1 "a"]) (VNum 1) m0 = (Ok found, m0)
       /\ get found "__bID" = Ok (VNum 1)
       /\ (passed (VNum 1) [keyed 1 "a"] \/ false = true
           -> found = stamped (VNum 1) [("name", VStr "z")]).
Proof.
  assert (Hm : merges_objects host) by (intros ps b; by exists ps).
  split; [exact Hm|].
  exact (upsertItem_then_getItem host [keyed 1 "a"] (VNum 1) [("name", VStr "z")] false
           m0 m0
           {| returned := true; collection := VArr [keyed 1 "a"];
              item := VObj [("name", VStr "z")] |}
           Hm eq_refl eq_refl eq_refl).
Defined.

(** X6: an [upsertItem] on an array that returned [true] keeps the
    keys of the array unique, and adds one item when no item had the
    key, and none otherwise. *)
Theorem upsertItem_keeps_keys_unique (H : Host) (es : list value) (keyValue : value)
    (ps : props) (overwrite : bool) (m m' : Machine) (out : upsert) :
  merges_objects H -> unique_keys es ->
  upsertItem H (VArr es) keyValue (VObj ps) overwrite m = (Ok out, m') ->
  returned out = true ->
  exists es',
    collection out = VArr es' /\ unique_keys es'
    /\ length es' = (if existsb (has_key keyValue) es then length es else S (length es)).
Proof.
  intros Hm Hu Hrun Hret.
  destruct (upsertItem_accepted _ _ _ _ _ _ _ _ Hm Hrun Hret)
    as (-> & Hnc & [[Hp Hc] | (pre & x & post & y & -> & Hp & Hx & Hk & Hc & Hy & Hky & _)]).
  - exists (es ++ [stamped keyValue ps]). split; [done|]. split.
    + unfold unique_keys. rewrite map_app. cbn [map]. rewrite key_of_stamped.
      apply distinct_keys_snoc; [done | by apply passed_keys].
    + replace (existsb (has_key keyValue) es) with false.
      * rewrite length_app. cbn. lia.
      * symmetry. apply not_true_is_false. intros (x & Hin & Hk)%existsb_exists.
        apply (proj1 (List.Forall_forall _ _) Hp) in Hin as [_ Hno]. congruence.
  - exists (pre ++ y :: post). split; [done|]. split.
    + unfold unique_keys in *. rewrite map_app in *. cbn [map] in *.
      apply strict_eq_true in Hk. by rewrite Hky, <- Hk.
    + replace (existsb (has_key keyValue) (pre ++ x :: post)) with true.
      * rewrite !length_app. done.
      * symmetry. apply existsb_exists. exists x. split; [|done].
        apply in_or_app. right. by left.
Qed.

(** An instance: an item upserted under the new key 3. *)
Lemma upsertItem_keeps_keys_unique_witness :
  merges_objects host
  /\ unique_keys [keyed 1 "a"; keyed 2 "b"]
  /\ exists es',
       VArr [keyed 1 "a"; keyed 2 "b"; stamped (VNum 3) [("name", VStr "z")]] = VArr es'
       /\ unique_keys es' /\ length es' = 3%nat.
Proof.
  assert (Hm : merges_objects host) by (intros ps b; by exists ps).
  assert (Hu : unique_keys [keyed 1 "a"; keyed 2 "b"]) by (vm_compute; repeat constructor).
  split; [exact Hm | split; [exact Hu|]].
  exact (upsertItem_keeps_keys_unique host [keyed 1 "a"; keyed 2 "b"] (VNum 3)
           [("name", VStr "z")] false m0 m0
           {| returned := true;
              collection := VArr [keyed 1 "a"; keyed 2 "b";
                                  stamped (VNum 3) [("name", VStr "z")]];
              item := stamped (VNum 3) [("name", VStr "z")] |}
           Hm Hu eq_refl eq_refl).
Defined.

(** X7: an item upserted into an array under a key that no item has
    and [removeItem] under that key, one after the other, give the
    array back: [removeItem] returns the upserted item, with the key
    set, in an array. *)
Theorem upsertItem_then_removeItem (H : Host) (es : list value) (keyValue : value)
    (ps : props) (overwrite : bool) (m : Machine) :
  conflicted keyValue ps = false -> strict_eq keyValue keyValue = true ->
  passed keyValue es ->
  (out ← upsertItem H (VArr es) keyValue (VObj ps) overwrite;
   removeItem H (collection out) keyValue) m
  = (Ok {| removed := VArr [stamped keyValue ps]; remaining := VArr es |}, m).
Proof.
  intros Hnc Hself Hp. unfold mbind, M_bind.
  rewrite upsertItem_head by done. rewrite find_existing_none by done.
  cbn [collection]. rewrite removeItem_found; [by rewrite app_nil_r | done | done |].
  unfold has_key. by rewrite key_of_stamped.
Qed.

(** An instance: the key 3 upserted into the keys 1 and 2, and
    removed. *)
Lemma upsertItem_then_removeItem_witness :
  passed (VNum 3) [keyed 1 "a"; keyed 2 "b"]
  /\ (out ← upsertItem host (VArr [keyed 1 "a"; keyed 2 "b"]) (VNum 3)
              (VObj [("name", VStr "z")]) false;
      removeItem host (collection out) (VNum 3)) m0
     = (Ok {| removed := VArr [stamped (VNum 3) [("name", VStr "z")]];
              remaining := VArr [keyed 1 "a"; keyed 2 "b"] |}, m0).
Proof.
  assert (Hp : passed (VNum 3) [keyed 1 "a"; keyed 2 "b"]) by (repeat constructor).
  split; [exact Hp|].
  exact (upsertItem_then_removeItem host [keyed 1 "a"; keyed 2 "b"] (VNum 3)
           [("name", VStr "z")] false m0 eq_refl eq_refl Hp).
Defined.

(** ** [sortBy] *)

Lemma string_ltb_asym (x y : string) : String.ltb x y = true -> String.ltb y x = false.
Proof.
  unfold String.ltb. rewrite (String.compare_antisym x y).
  by destruct (String.compare y x).
Qed.

Lemma js_lt_asym h a b : js_lt h a b = true -> js_lt h b a = false.
Proof.
  unfold js_lt.
  destruct (to_primitive h a) eqn:Ea, (to_primitive h b) eqn:Eb; cbn;
    try done; try (repeat case_match; try done; intros; lia).
  apply string_ltb_asym.
Qed.

Lemma loose_eq_sym H a b : loose_eq H a b = loose_eq H b a.
Proof.
  unfold loose_eq.
  destruct a, b; try reflexivity; cbn [is_object andb to_primitive_default to_number];
    repeat case_match; try reflexivity; try apply Z.eqb_sym; try apply String.eqb_sym;
    try apply Nat.eqb_sym.
Qed.

Lemma sortBy_eq H key dir a b ak bk m :
  get a key = Ok ak -> get b key = Ok bk ->
  sortBy H key dir a b m
  = (Ok (if truthy bk && negb (truthy ak)
            || truthy bk && truthy ak && js_gt (host_toString H) bk ak
         then VNum (if descending dir then 1 else -1)
         else if negb (truthy bk) && truthy ak
                 || truthy bk && truthy ak && js_lt (host_toString H) bk ak
         then VNum (if descending dir then -1 else 1)
         else if truthy bk && truthy ak && loose_eq H bk ak then VNum 0
         else VUndefined), m).
Proof.
  intros Ha Hb. unfold sortBy, descending. unfold_m. rewrite Ha, Hb.
  destruct (truthy bk), (truthy ak); cbn; repeat case_match; reflexivity.
Qed.

Lemma sortBy_reads H key dir a b r m m' :
  sortBy H key dir a b m = (Ok r, m') ->
  exists ak bk, get a key = Ok ak /\ get b key = Ok bk.
Proof.
  unfold sortBy. unfold_m.
  destruct (get b key) as [bk|e]; [|discriminate].
  destruct (get a key) as [ak|e]; [|discriminate]. eauto.
Qed.

(** X8: the comparator of [sortBy] on two items.  When both hold a
    number other than 0 under the key, it is the sign of their
    difference, turned for ['desc'] (in any case of the letters), so
    that sorting with it is descending; any other direction is
    ascending.  An item whose value is falsy (a missing member, 0, the
    empty string) comes after a truthy one for ['desc'], and two falsy
    values give no result at all, [undefined]. *)
Theorem sortBy_orders_numbers (H : Host) (key dir : string) (a b ak bk : value)
    (m : Machine) :
  get a key = Ok ak -> get b key = Ok bk ->
  (forall x y,
      ak = VNum x -> bk = VNum y -> x <> 0 -> y <> 0 ->
      sortBy H key dir a b m
      = (Ok (VNum (if descending dir then Z.sgn (y - x) else Z.sgn (x - y))), m))
  /\ (truthy ak = false -> truthy bk = true ->
      sortBy H key dir a b m = (Ok (VNum (if descending dir then 1 else -1)), m))
  /\ (truthy ak = true -> truthy bk = false ->
      sortBy H key dir a b m = (Ok (VNum (if descending dir then -1 else 1)), m))
  /\ (truthy ak = false -> truthy bk = false ->
      sortBy H key dir a b m = (Ok VUndefined, m)).
Proof.
  intros Ha Hb. rewrite (sortBy_eq H key dir a b _ _ m Ha Hb).
  split; [|repeat apply conj; intros -> ->; reflexivity].
  intros x y -> -> Hx Hy.
  cbn [truthy]. apply Z.eqb_neq in Hx, Hy. rewrite Hx, Hy. cbn [negb andb orb].
  unfold js_gt. rewrite !js_lt_num. cbn [loose_eq is_object andb to_primitive_default to_number].
  destruct (Z.ltb_spec x y), (Z.ltb_spec y x), (Z.eqb_spec y x), (descending dir);
    try lia; do 2 f_equal; f_equal; lia.
Qed.

(** An instance: the ages 3 and 5, descending. *)
Lemma sortBy_orders_numbers_witness :
  get (VObj [("age", VNum 3)]) "age" = Ok (VNum 3)
  /\ get (VObj [("age", VNum 5)]) "age" = Ok (VNum 5)
  /\ sortBy host "age" "DESC" (VObj [("age", VNum 3)]) (VObj [("age", VNum 5)]) m0
     = (Ok (VNum 1), m0).
Proof.
  split; [reflexivity | split; [reflexivity|]].
  apply (proj1 (sortBy_orders_numbers host "age" "DESC" (VObj [("age", VNum 3)])
                  (VObj [("age", VNum 5)]) (VNum 3) (VNum 5) m0 eq_refl eq_refl) 3 5);
    [reflexivity | reflexivity | discriminate | discriminate].
Defined.

(** X9: the comparator of [sortBy], when it returns, returns 1, -1,
    0 or [undefined] and leaves the machine as it was; with the two
    items exchanged, and also with the other direction, it returns
    the result of the opposite sign. *)
Theorem sortBy_antisymmetric (H : Host) (key dir : string) (a b r : value)
    (m m' : Machine) :
  sortBy H key dir a b m = (Ok r, m') ->
  m' = m
  /\ r ∈ [VNum 1; VNum (-1); VNum 0; VUndefined]
  /\ sortBy H key dir b a m = (Ok (opposite r), m)
  /\ (forall dir', descending dir' = negb (descending dir) ->
      sortBy H key dir' a b m = (Ok (opposite r), m)).
Proof.
  intros Hrun. destruct (sortBy_reads _ _ _ _ _ _ _ _ Hrun) as (ak & bk & Ha & Hb).
  rewrite (sortBy_eq H key dir a b _ _ m Ha Hb) in Hrun.
  rewrite (sortBy_eq H key dir b a _ _ m Hb Ha).
  injection Hrun as <- <-. split; [done|].
  assert (Hdir : forall dir', descending dir' = negb (descending dir) ->
            sortBy H key dir' a b m = _)
    by (intros dir' Hd; rewrite (sortBy_eq H key dir' a b _ _ m Ha Hb), Hd; reflexivity).
  split; [|split; [|intros dir' Hd; rewrite (Hdir dir' Hd)]].
  all: unfold js_gt; rewrite ?(loose_eq_sym H ak bk).
  all: pose proof (js_lt_asym (host_toString H) ak bk) as H1.
  all: pose proof (js_lt_asym (host_toString H) bk ak) as H2.
  all: destruct (truthy bk), (truthy ak), (js_lt (host_toString H) ak bk),
         (js_lt (host_toString H) bk ak), (loose_eq H bk ak), (descending dir);
       cbn in *; try (specialize (H1 eq_refl)); try (specialize (H2 eq_refl));
       try discriminate; try reflexivity.
  all: rewrite ?elem_of_cons; auto 10.
Qed.

(** An instance: the ages 3 and 5, descending. *)
Lemma sortBy_antisymmetric_witness :
  sortBy host "age" "desc" (VObj [("age", VNum 3)]) (VObj [("age", VNum 5)]) m0
  = (Ok (VNum 1), m0)
  /\ sortBy host "age" "desc" (VObj [("age", VNum 5)]) (VObj [("age", VNum 3)]) m0
     = (Ok (VNum (-1)), m0).
Proof.
  split; [reflexivity|].
  exact (proj1 (proj2 (proj2
           (sortBy_antisymmetric host "age" "desc" (VObj [("age", VNum 3)])
              (VObj [("age", VNum 5)]) (VNum 1) m0 m0 eq_refl)))).
Defined.

(** ** The sanitizers of the scalar types *)

Lemma sanitizeBoolean_cases H value cfg m :
  (exists b, sanitizeBoolean H value cfg m = (Ok (VBool b), m))
  \/ sanitizeBoolean H value cfg m = (Throw (Error not_a_boolean), m).
Proof.
  unfold sanitizeBoolean. unfold_m.
  destruct (strict_eq value (VBool false) || strict_eq value (VBool true)) eqn:E.
  - destruct value; try discriminate E. eauto.
  - destruct (bool_decide _); [eauto|].
    destruct (bool_decide _); [eauto|].
    destruct (strict_eq _ (VNum 0)); [eauto|].
    destruct (strict_eq _ (VNum 1)); [eauto|]. by right.
Qed.

(** X10: [sanitizeBoolean] returns a boolean or throws its error,
    and leaves the machine as it was.  A boolean is returned as it is,
    so that a result sanitizes to itself; the words [true] and
    [false], in any case of the letters and with spaces around, give
    their boolean. *)
Theorem sanitizeBoolean_gives_a_boolean (H : Host) (value : value) (cfg : options)
    (m : Machine) :
  (forall b, sanitizeBoolean H (VBool b) cfg m = (Ok (VBool b), m))
  /\ (forall r m',
        sanitizeBoolean H value cfg m = (Ok r, m') ->
        m' = m /\ (exists b, r = VBool b) /\ sanitizeBoolean H r cfg m = (Ok r, m))
  /\ (forall e m',
        sanitizeBoolean H value cfg m = (Throw e, m') ->
        m' = m /\ e = Error not_a_boolean)
  /\ (forall s,
        value = VStr s ->
        (trim (toLowerCase s) = "true" ->
         sanitizeBoolean H value cfg m = (Ok (VBool true), m))
        /\ (trim (toLowerCase s) = "false" ->
            sanitizeBoolean H value cfg m = (Ok (VBool false), m))).
Proof.
  assert (Hb : forall b, sanitizeBoolean H (VBool b) cfg m = (Ok (VBool b), m))
    by (by intros []).
  split; [exact Hb|]. split; [|split].
  - intros r m' Hrun.
    destruct (sanitizeBoolean_cases H value cfg m) as [[b Hc] | Hc];
      rewrite Hc in Hrun; [|discriminate].
    injection Hrun as <- <-. eauto.
  - intros e m' Hrun.
    destruct (sanitizeBoolean_cases H value cfg m) as [[b Hc] | Hc];
      rewrite Hc in Hrun; [discriminate|].
    by injection Hrun as <- <-.
  - intros s ->. unfold sanitizeBoolean. unfold_m. cbn [strict_eq orb].
    split; intros ->; reflexivity.
Qed.

Lemma substring_length (n : nat) (s : string) :
  String.length (String.substring 0 n s) = Nat.min n (String.length s).
Proof.
  revert n. induction s as [|c s IH]; intros [|n]; cbn; try done. by rewrite IH.
Qed.

Lemma substring_prefix (n : nat) (s : string) :
  String.prefix (String.substring 0 n s) s = true.
Proof.
  revert n. induction s as [|c s IH]; intros [|n]; cbn; try done.
  destruct (Ascii.ascii_dec c c); [apply IH | done].
Qed.

Lemma prefix_refl (s : string) : String.prefix s s = true.
Proof.
  induction s as [|c s IH]; cbn; [done|].
  destruct (Ascii.ascii_dec c c); [apply IH | done].
Qed.

(** X11: what [sanitizeString] returns is a string, a prefix of
    [String(value)].  The string has at least [minLength] characters
    where that is a number, and the result at most [maxLength]: a
    longer string is cut to its first [maxLength] characters, with a
    warning on the console and no error. *)
Theorem sanitizeString_bounds (H : Host) (value : value) (cfg : options)
    (m m' : Machine) (r : Js.value) :
  sanitizeString H value cfg m = (Ok r, m') ->
  let whole := js_String (host_toString H) value in
  exists s,
    r = VStr s
    /\ String.prefix s whole = true
    /\ (forall lo, d_minLength cfg = VNum lo -> lo <= Z.of_nat (String.length whole))
    /\ (forall hi, d_maxLength cfg = VNum hi -> Z.of_nat (String.length s) <= Z.max hi 0)
    /\ ((s = whole /\ m' = m)
        \/ (s = String.substring 0 (to_length H (d_maxLength cfg)) whole
            /\ m' = with_console (fun c => c ++ [truncated_warning]) m)).
Proof.
  intros Hrun whole. unfold sanitizeString in Hrun. fold whole in Hrun. unfold_m.
  destruct (defined (d_minLength cfg)
            && js_lt (host_toString H) (VNum (Z.of_nat (String.length whole)))
                 (d_minLength cfg)) eqn:Emin; [discriminate|].
  assert (Hlo : forall lo, d_minLength cfg = VNum lo -> lo <= Z.of_nat (String.length whole)).
  { intros lo Hlo. rewrite Hlo in Emin. change (defined (VNum lo)) with true in Emin.
    cbn [andb] in Emin. rewrite js_lt_num in Emin. by apply Z.ltb_ge. }
  destruct (defined (d_maxLength cfg)
            && js_gt (host_toString H) (VNum (Z.of_nat (String.length whole)))
                 (d_maxLength cfg)) eqn:Emax.
  - injection Hrun as <- <-. eexists. split; [reflexivity|].
    split; [apply substring_prefix|]. split; [done|]. split; [|by right].
    intros hi Hhi. rewrite substring_length. unfold to_length. rewrite Hhi. cbn. lia.
  - injection Hrun as <- <-. eexists. split; [reflexivity|].
    split; [apply prefix_refl|]. split; [done|].
    split; [|by left].
    intros hi Hhi. rewrite Hhi in Emax. change (defined (VNum hi)) with true in Emax.
    cbn [andb] in Emax. unfold js_gt in Emax. rewrite js_lt_num in Emax.
    apply Z.ltb_ge in Emax. lia.
Qed.

(** An instance: five characters for at most three. *)
Lemma sanitizeString_bounds_witness :
  sanitizeString host (VStr "hello") (with_maxLength (VNum 3) no_options) m0
  = (Ok (VStr "hel"), with_console (fun c => c ++ [truncated_warning]) m0)
  /\ exists s,
       VStr "hel" = VStr s
       /\ String.prefix s "hello" = true
       /\ (forall lo, VUndefined = VNum lo -> lo <= 5)
       /\ (forall hi, VNum 3 = VNum hi -> Z.of_nat (String.length s) <= Z.max hi 0)
       /\ ((s = "hello" /\ with_console (fun c => c ++ [truncated_warning]) m0 = m0)
           \/ (s = "hel"
               /\ with_console (fun c => c ++ [truncated_warning]) m0
                  = with_console (fun c => c ++ [truncated_warning]) m0)).
Proof.
  split; [reflexivity|].
  exact (sanitizeString_bounds host (VStr "hello") (with_maxLength (VNum 3) no_options) m0
           (with_console (fun c => c ++ [truncated_warning]) m0) (VStr "hel") eq_refl).
Defined.

Lemma parseInt_num H (n : Z) : parseInt (host_toString H) (VNum n) = VNum n.
Proof. apply parseInt_string_pretty. Qed.

Lemma parseInt_number H (v : value) :
  parseInt (host_toString H) v = VNaN \/ exists n, parseInt (host_toString H) v = VNum n.
Proof.
  unfold parseInt, parseInt_string.
  destruct (match trim_start _ with String "-" r => _ | _ => _ end) as [sign s2].
  destruct (match s2 with String "0" (String "x" r) => _ | _ => _ end) as [radix s3].
  destruct (digits radix s3 None); eauto.
Qed.

Lemma bounded_result H cfg v m r m' :
  bounded H cfg v m = (Ok r, m') ->
  m' = m
  /\ (v = VNaN /\ r = VStr "" \/ v <> VNaN /\ r = v)
  /\ (forall n, v = VNum n ->
      (forall lo, d_min cfg = VNum lo -> lo <= n)
      /\ (forall hi, d_max cfg = VNum hi -> n <= hi)).
Proof.
  unfold bounded.
  destruct (defined (d_min cfg) && js_lt (host_toString H) v (d_min cfg)) eqn:Emin;
    [discriminate|].
  destruct (defined (d_max cfg) && js_gt (host_toString H) v (d_max cfg)) eqn:Emax;
    [discriminate|].
  intros Hr. split; [|split].
  - destruct (isNaN v); by injection Hr.
  - destruct v; cbn in Hr; injection Hr as <- _; auto; right; done.
  - intros n ->. split.
    + intros lo Hlo. rewrite Hlo in Emin. change (defined (VNum lo)) with true in Emin.
      cbn [andb] in Emin. rewrite js_lt_num in Emin. by apply Z.ltb_ge.
    + intros hi Hhi. rewrite Hhi in Emax. change (defined (VNum hi)) with true in Emax.
      cbn [andb] in Emax. unfold js_gt in Emax. rewrite js_lt_num in Emax.
      by apply Z.ltb_ge.
Qed.

(** X12: what [sanitizeInteger] returns, when it is the empty string
    or a safe integer, is within the bounds [min] and [max] that are
    safe integers, the machine is left as it was, and the result
    sanitizes to itself.  The decimal string of a safe integer is
    sanitized as the integer is, and a safe integer that is accepted
    is returned as it is. *)
Theorem sanitizeInteger_settles (H : Host) (cfg : options) (m : Machine) :
  (forall value r m',
      sanitizeInteger H value cfg m = (Ok r, m') ->
      (forall n, r = VNum n -> safe_integer n) ->
      m' = m
      /\ (r = VStr ""
          \/ exists n, r = VNum n
                       /\ (forall lo, d_min cfg = VNum lo -> safe_integer lo -> lo <= n)
                       /\ (forall hi, d_max cfg = VNum hi -> safe_integer hi -> n <= hi))
      /\ sanitizeInteger H r cfg m = (Ok r, m))
  /\ (forall n,
        safe_integer n ->
        sanitizeInteger H (VStr (pretty n)) cfg m = sanitizeInteger H (VNum n) cfg m
        /\ forall r m', sanitizeInteger H (VNum n) cfg m = (Ok r, m') -> r = VNum n).
Proof.
  split.
  - intros value r m' Hrun _. rewrite sanitizeInteger_eq in Hrun.
    assert (Hcases :
      (r = VStr "" /\ m' = m)
      \/ bounded H cfg (parseInt (host_toString H) (stripped value)) m = (Ok r, m')).
    { destruct value; auto. destruct (_ =? _)%nat; [left|right]; [|done].
      by injection Hrun as <- <-. }
    destruct Hcases as [[-> ->] | Hb]; [by auto|].
    destruct (bounded_result _ _ _ _ _ _ Hb) as (-> & Hv & Hn).
    split; [done|].
    destruct Hv as [[_ ->] | [Hnn ->]]; [by auto|].
    destruct (parseInt_number H (stripped value)) as [E | [n E]]; [congruence|].
    rewrite E in *. split.
    + right. exists n. split; [done|]. destruct (Hn n eq_refl) as [Hlo Hhi].
      split; [intros lo Hl _; by apply Hlo | intros hi Hh _; by apply Hhi].
    + rewrite sanitizeInteger_eq. cbn [stripped]. by rewrite parseInt_num.
  - intros n _. split.
    + rewrite !sanitizeInteger_eq. cbn [stripped]. rewrite strip_letters_pretty.
      unfold parseInt at 1. cbn [js_String]. rewrite parseInt_string_pretty, parseInt_num.
      destruct (_ =? _)%nat eqn:E; [|done].
      apply Nat.eqb_eq in E. exfalso.
      pose proof (parseInt_string_pretty n) as Hp.
      destruct (pretty n); [discriminate Hp | discriminate E].
    + intros r m'. rewrite sanitizeInteger_eq. cbn [stripped]. rewrite parseInt_num.
      intros Hb. by destruct (bounded_result _ _ _ _ _ _ Hb) as (_ & [[? _] | [_ ->]] & _).
Qed.

(** ** [sanitizeField] on arrays and objects *)

(** [value.map(f)] in the monad: as many results as members. *)
Lemma each_length (f : value -> M value) (l : list value) (m m' : Machine)
    (rs : list value) :
  (fix each (l : list value) : M (list value) :=
     match l with
     | [] => mret []
     | v :: l' => f v ≫= (fun r0 => each l' ≫= (fun rs => mret (r0 :: rs)))
     end) l m = (Ok rs, m') ->
  length rs = length l.
Proof.
  revert m m' rs. induction l as [|v l IH]; intros m m' rs.
  - by intros [= <- _].
  - unfold_m. destruct (f v m) as [[r0|e] m1]; [|by intros [=]].
    match goal with
    | |- context [match ?c with _ => _ end] => destruct c as [[rs'|e] m2] eqn:E
    end; [|by intros [=]].
    intros [= <- _]. cbn. f_equal. by eapply IH.
Qed.

Lemma set_writable obj k v : writable obj = true -> exists o', set obj k v = Ok o'.
Proof.
  destruct obj as [| | | | | | | | |es|ps]; try done; intros _; cbn [set]; eauto.
  destruct (array_index k (S (length es))); eauto.
Qed.

Lemma set_primitive obj k v :
  writable obj = false -> exists msg, set obj k v = Throw (TypeError msg).
Proof. destruct obj; try done; intros _; cbn; eauto. Qed.

(** X13: [sanitizeField] on a field of the type [array] or
    [collection].  [null] gives [null].  A missing value without
    [initial] gives [null] when the object given is an object, and a
    TypeError when it is a primitive, which cannot take the default.
    Any other value that is no array gives the empty array; an array,
    when the field is sanitized, gives an array of as many members. *)
Theorem sanitizeField_array_shape (H : Host) (field : string) (o : options)
    (sub : subschema) (config : member_config) (json : bool) (obj : value) (m : Machine) :
  array_type o ->
  let run := sanitizeField H None field (Descriptor o sub config) json obj m in
  (get obj field = Ok VNull -> run = (Ok VNull, m))
  /\ (get obj field = Ok VUndefined -> d_initial o = VUndefined ->
      (writable obj = true -> run = (Ok VNull, m))
      /\ (writable obj = false -> exists msg, run = (Throw (TypeError msg), m)))
  /\ (forall x,
        get obj field = Ok x -> defined x = true -> x <> VNull -> isArray x = false ->
        run = (Ok (VArr []), m))
  /\ (forall es r m',
        get obj field = Ok (VArr es) -> run = (Ok r, m') ->
        exists rs, r = VArr rs /\ length rs = length es).
Proof.
  intros Ht run. subst run. cbn [sanitizeField]. unfold sanitizeField_body.
  assert (Hty : forall t, t <> "array" -> t <> "collection" ->
                  strict_eq (d_type o) (VStr t) = false).
  { intros t H1 H2. destruct Ht as [-> | ->]; cbn [strict_eq]; apply String.eqb_neq; congruence. }
  repeat match goal with
         | |- context [strict_eq (d_type o) (VStr ?t)] => rewrite (Hty t) by done
         end. cbn [negb andb orb].
  replace (strict_eq (d_type o) (VStr "array") || strict_eq (d_type o) (VStr "collection"))
    with true by (by destruct Ht as [-> | ->]).
  split; [|split; [|split]].
  - intros ->. by unfold_m.
  - intros -> ->. split; intros Hw; unfold_m;
      change (defined VUndefined) with false; cbn [negb]; cbv beta iota.
    + by destruct (set_writable obj field VNull Hw) as [o' ->].
    + destruct (set_primitive obj field VNull Hw) as [msg ->]. eauto.
  - intros x -> Hd Hn Ha. unfold_m. rewrite Hd. cbn [negb].
    replace (strict_eq x VNull) with false by (by destruct x).
    by destruct x, (defined (d_memberType o)).
  - intros es r m' -> Hrun.
    apply bind_Ok in Hrun as (x0 & m1 & [= <- <-] & Hrun).
    apply bind_Ok in Hrun as (x1 & m2 & [= <- <-] & Hrun).
    cbn [strict_eq andb] in Hrun.
    destruct (defined (d_memberType o)).
    + apply bind_Ok in Hrun as (rs & m3 & Hrs & [= <- _]).
      exists rs. split; [done|].
      exact (each_length
               (fun v => match config with
                         | NoConfig => sanitizeMember_plain H (d_memberType o) json v
                         | Config d' =>
                             sanitizeField H (Some (d_memberType o)) "member" d' json
                               (VObj [("member", v)])
                         end) es m m3 rs Hrs).
    + destruct sub; try (injection Hrun as <- _; by eauto).
      apply bind_Ok in Hrun as (rs & m3 & Hrs & [= <- _]).
      exists rs. split; [done|].
      exact (each_length
               (fun v =>
                  if negb json && has_constructor o
                  then c ← (clean ← sanitize_fields H (f tt) false (extend_copy v) [];
                            mret (VObj clean));
                       construct H o c
                  else clean ← sanitize_fields H (f tt) json (extend_copy v) [];
                       mret (VObj clean)) es m m3 rs Hrs).
Qed.

(** An instance: the number 5 for a field of the type [array], and
    the field asked of the number 5. *)
Lemma sanitizeField_array_shape_witness :
  array_type (with_type "array" no_options)
  /\ sanitizeField host None "tags"
       (Descriptor (with_type "array" no_options) SchemaNull NoConfig) false
       (VObj [("tags", VNum 5)]) m0
     = (Ok (VArr []), m0)
  /\ exists msg,
       sanitizeField host None "tags"
         (Descriptor (with_type "array" no_options) SchemaNull NoConfig) false (VNum 5) m0
       = (Throw (TypeError msg), m0).
Proof.
  assert (Ht : array_type (with_type "array" no_options)) by (by left).
  split; [exact Ht | split].
  - pose proof (sanitizeField_array_shape host "tags" (with_type "array" no_options)
                  SchemaNull NoConfig false (VObj [("tags", VNum 5)]) m0 Ht) as Hw.
    cbv zeta in Hw. destruct Hw as (_ & _ & Hw & _).
    apply (Hw (VNum 5)); [reflexivity | reflexivity | discriminate | reflexivity].
  - pose proof (sanitizeField_array_shape host "tags" (with_type "array" no_options)
                  SchemaNull NoConfig false (VNum 5) m0 Ht) as Hw.
    cbv zeta in Hw. destruct Hw as (_ & Hw & _).
    apply Hw; reflexivity.
Defined.

(** X14: [sanitizeField] on a field of the type [obj] or [object]
    whose value is there, or which has no [initial].  When the value
    is there, or the object given is an object and takes the default
    [null]: without the member [schema] in the descriptor it throws;
    with [schema: null] the value is returned as it is ([null] for a
    missing one); with a schema, [null] and a missing value give
    [null], and any other value is sanitized to the schema, when the
    descriptor names no constructor.  When the value is missing and
    the object given is a primitive, the default cannot be stored
    and a TypeError is thrown, whatever the schema. *)
Theorem sanitizeField_object_schema (H : Host) (field : string) (o : options)
    (config : member_config) (json : bool) (obj x : value) (m : Machine) :
  object_type o ->
  get obj field = Ok x -> (defined x = true \/ d_initial o = VUndefined) ->
  let run sub := sanitizeField H None field (Descriptor o sub config) json obj m in
  (defined x = true \/ writable obj = true ->
   run SchemaUndefined = (Throw (Error no_schema), m)
   /\ run SchemaNull = (Ok (if defined x then x else VNull), m)
   /\ (forall f,
         (defined x = false \/ x = VNull -> run (SchemaFactory f) = (Ok VNull, m))
         /\ (defined x = true -> x <> VNull -> d_constructor o = VUndefined ->
             run (SchemaFactory f) = sanitize H x (f tt) json m)))
  /\ (defined x = false -> writable obj = false ->
      forall sub, exists msg, run sub = (Throw (TypeError msg), m)).
Proof.
  intros Ht Hx Hd run. subst run. cbn [sanitizeField]. unfold sanitizeField_body.
  assert (Hty : forall t, t <> "obj" -> t <> "object" ->
                  strict_eq (d_type o) (VStr t) = false).
  { intros t H1 H2. destruct Ht as [-> | ->]; cbn [strict_eq]; apply String.eqb_neq; congruence. }
  repeat match goal with
         | |- context [strict_eq (d_type o) (VStr ?t)] => rewrite (Hty t) by done
         end.
  assert (Hnull : forall c, c && negb (strict_eq (d_type o) (VStr "obj"))
                             && negb (strict_eq (d_type o) (VStr "object")) = false).
  { intros c. destruct Ht as [-> | ->]; cbn; by rewrite ?andb_false_r. }
  replace (strict_eq (d_type o) (VStr "obj") || strict_eq (d_type o) (VStr "object"))
    with true by (by destruct Ht as [-> | ->]).
  cbn [negb andb orb]. rewrite ?andb_false_r. unfold_m. rewrite Hx.
  split.
  - intros Hw.
    assert (Hdef : defined x = true
                   \/ (defined x = false /\ d_initial o = VUndefined
                       /\ writable obj = true)).
    { destruct (defined x) eqn:E; [by left | right].
      destruct Hd as [? | ?], Hw as [? | ?]; try discriminate; done. }
    destruct Hdef as [E | (E & Hi & Hwr)]; rewrite E;
      [|rewrite Hi; change (defined VUndefined) with false; cbv iota beta;
        destruct (set_writable obj field VNull Hwr) as [o' ->]];
      cbn [negb defined typeof]; cbv iota beta; rewrite ?Hnull.
    + repeat apply conj; try done.
      intros f. split.
      * intros [? | ->]; [discriminate | reflexivity].
      * intros _ Hn Hc. replace (strict_eq x VNull) with false by (by destruct x).
        unfold has_constructor, construct, sanitize. rewrite Hc.
        cbn [defined typeof negb String.eqb orb].
        change (negb ("undefined" =? "undefined")%string) with false.
        cbn [orb negb andb]. rewrite andb_true_r. unfold_m.
        destruct json; cbn [negb]; by destruct (sanitize_fields _ _ _ _ _ _) as [[?|?] ?].
    + by repeat apply conj.
  - intros Hu Hw sub. rewrite Hu. cbn [negb].
    destruct Hd as [? | ->]; [congruence|].
    change (defined VUndefined) with false. cbv iota beta.
    destruct (set_primitive obj field VNull Hw) as [msg ->]. eauto.
Qed.

(** An instance: an address kept as it is under [schema: null]. *)
Lemma sanitizeField_object_schema_witness :
  object_type (with_type "object" no_options)
  /\ sanitizeField host None "address"
       (Descriptor (with_type "object" no_options) SchemaNull NoConfig) false
       (VObj [("address", VObj [("city", VStr "Paris")])]) m0
     = (Ok (VObj [("city", VStr "Paris")]), m0).
Proof.
  assert (Ht : object_type (with_type "object" no_options)) by (by right).
  split; [exact Ht|].
  pose proof (sanitizeField_object_schema host "address" (with_type "object" no_options)
                NoConfig false (VObj [("address", VObj [("city", VStr "Paris")])])
                (VObj [("city", VStr "Paris")]) m0 Ht eq_refl (or_introl eq_refl)) as Hw.
  cbv zeta in Hw. destruct Hw as [Hw _].
  destruct (Hw (or_introl eq_refl)) as (_ & Hnull & _). exact Hnull.
Defined.

(** ** The builders *)

Lemma missing_member H (i : Builders.initial) obj field (k : value -> M value) m :
  runs_builders H -> writable obj = true ->
  (x ← (v ← call_value H (VFun (Builders.initial_id i)) [];
        _ ← lift (set obj field v); mret v); k x) m
  = k (Builders.initial_value i) m.
Proof.
  intros Hcall Hw. unfold call_value. unfold_m. rewrite Hcall.
  by destruct (set_writable obj field (Builders.initial_value i) Hw) as [o' ->].
Qed.

(** X15: a field that an object does not have, sanitized to the
    descriptor a builder gives for no parameters, gets the default of
    the builder: the empty string, 0, [false], the empty array, the
    empty object, and [null] for [datetime], [callback] and a custom
    type.  The default goes through the sanitizer of the type as a
    value does, bounds included: [Store.int({min: lo})] and
    [Store.string({minLength: lo})] throw on a missing field for every
    [lo] above 0.  The default is stored in the object given: asked
    of a primitive, the field throws a TypeError. *)
Theorem builders_default_a_missing_field (H : Host) (field : string) (json : bool)
    (obj : value) (m : Machine) :
  runs_builders H -> get obj field = Ok VUndefined ->
  let absent d := sanitizeField H None field d json obj m in
  (writable obj = true ->
   absent (Builders.string Builders.no_params) = (Ok (VStr ""), m)
   /\ absent (Builders.int Builders.no_params) = (Ok (VNum 0), m)
   /\ absent (Builders.bool Builders.no_params) = (Ok (VBool false), m)
   /\ absent (Builders.array Builders.no_params) = (Ok (VArr []), m)
   /\ absent (Builders.object Builders.no_params) = (Ok (VObj []), m)
   /\ absent (Builders.datetime Builders.no_params) = (Ok VNull, m)
   /\ absent (Builders.callback Builders.no_params) = (Ok VNull, m)
   /\ (forall type,
         type <> "function" ->
         absent (Builders.customType type Builders.no_params) = (Ok VNull, m))
   /\ absent (Builders.double Builders.no_params) = (Ok (parseFloat H (VNum 0)), m)
   /\ absent (Builders.float Builders.no_params) = (Ok (parseFloat H (VNum 0)), m)
   /\ (forall lo, 0 < lo ->
       absent (Builders.int (Descriptor (with_min (VNum lo) no_options) SchemaUndefined NoConfig))
       = (Throw (Error below_minimum), m))
   /\ (forall lo, 0 < lo ->
       absent (Builders.string
                 (Descriptor (with_minLength (VNum lo) no_options) SchemaUndefined NoConfig))
       = (Throw (Error short_string), m)))
  /\ (writable obj = false ->
      exists msg,
        absent (Builders.string Builders.no_params) = (Throw (TypeError msg), m)).
Proof.
  intros Hcall Hx absent. subst absent. cbv beta. split.
  2: { intros Hw. cbn [sanitizeField Builders.string Builders.extend Builders.no_params].
       unfold sanitizeField_body, call_value.
       cbn [Builders.extend_options Builders.defaults no_options
            d_type d_initial Builders.extend_member].
       change (strict_eq (VStr "string") (VStr "function")) with false. cbv beta iota.
       unfold_m. rewrite Hx.
       change (negb (defined VUndefined)) with true.
       change (defined (VFun ?f)) with true. cbv beta iota.
       rewrite Hcall.
       destruct (set_primitive obj field (Builders.initial_value Builders.InitialString) Hw)
         as [msg ->]. eauto. }
  intros Hw.
  repeat apply conj; intros;
    try match goal with
        | Hne : ?t <> "function" |- _ =>
            apply String.eqb_neq in Hne;
            change (String.eqb t "function") with (strict_eq (VStr t) (VStr "function")) in Hne
        end;
    cbn [sanitizeField Builders.string Builders.int Builders.bool Builders.array
         Builders.object Builders.datetime Builders.callback Builders.customType
         Builders.double Builders.float Builders.extend Builders.no_params];
    unfold sanitizeField_body.
  all: cbn [Builders.extend_options Builders.defaults no_options with_min with_minLength
            d_type d_value d_initial d_label d_validation d_min d_max d_minLength
            d_maxLength d_format d_utc d_constructor d_sanitize d_memberType
            Builders.extend_member extend_value].
  all: try match goal with
           | Hf : strict_eq ?type (VStr "function") = false |- _ => rewrite Hf
           end.
  all: try change (strict_eq (VStr ?t) (VStr "function")) with false; cbv beta iota.
  all: unfold mbind at 1, M_bind; unfold lift at 1; rewrite Hx; cbv beta iota;
    change (negb (defined VUndefined)) with true; cbv beta iota;
    change (defined (VFun ?f)) with true; cbv beta iota;
    rewrite missing_member by done.
  all: try (vm_compute; reflexivity).
  - destruct (strict_eq (VStr type) (VStr "obj")) eqn:E1;
      [apply strict_eq_true in E1; injection E1 as ->; reflexivity|].
    destruct (strict_eq (VStr type) (VStr "object")) eqn:E2;
      [apply strict_eq_true in E2; injection E2 as ->; reflexivity|].
    reflexivity.
  - cbv beta iota zeta delta -[sanitizeInteger Z.ltb Z.lt below_minimum].
    rewrite sanitizeInteger_eq. cbn [stripped]. unfold bounded.
    change (parseInt (host_toString H) (VNum 0)) with (VNum 0).
    cbn [d_min Builders.extend_options Builders.defaults with_min no_options
         Builders.extend_member extend_value].
    change (defined (VNum lo)) with true. rewrite js_lt_num.
    by replace (0 <? lo) with true by (symmetry; by apply Z.ltb_lt).
  - cbv beta iota zeta delta -[sanitizeString Z.ltb Z.lt short_string].
    unfold sanitizeString. cbn [js_String String.length].
    cbn [d_minLength Builders.extend_options Builders.defaults with_minLength no_options
         Builders.extend_member extend_value].
    change (defined (VNum lo)) with true. rewrite js_lt_num.
    by replace (Z.of_nat 0 <? lo) with true by (symmetry; by apply Z.ltb_lt).
Qed.

(** An instance: the field [name] of the empty object, and of the
    number 5. *)
Lemma builders_default_a_missing_field_witness :
  runs_builders builder_host
  /\ get (VObj []) "name" = Ok VUndefined
  /\ sanitizeField builder_host None "name" (Builders.string Builders.no_params) false
       (VObj []) m0
     = (Ok (VStr ""), m0)
  /\ exists msg,
       sanitizeField builder_host None "name" (Builders.string Builders.no_params) false
         (VNum 5) m0
       = (Throw (TypeError msg), m0).
Proof.
  assert (Hb : runs_builders builder_host) by (intros i args; by destruct i).
  split; [exact Hb | split; [reflexivity | split]].
  - pose proof (builders_default_a_missing_field builder_host "name" false (VObj []) m0
                  Hb eq_refl) as Hw.
    cbv zeta in Hw. exact (proj1 (proj1 Hw eq_refl)).
  - pose proof (builders_default_a_missing_field builder_host "name" false (VNum 5) m0
                  Hb eq_refl) as Hw.
    cbv zeta in Hw. exact (proj2 Hw eq_refl).
Defined.

(** ** [validate] and [sanitizeAndValidate] *)

Lemma assoc_require_with p rules name :
  name <> "required" -> assoc name (require_with p rules) = assoc name rules.
Proof.
  intros Hne. unfold require_with.
  induction rules as [|[k v] rules IH]; [done|]. cbn [map fst].
  destruct (String.eqb_spec k "required") as [->|Hk]; cbn [assoc].
  - destruct (String.eqb_spec name "required"); [done | exact IH].
  - destruct (String.eqb_spec name k); [done | exact IH].
Qed.

Lemma keys_require_with p rules : map fst (require_with p rules) = map fst rules.
Proof.
  unfold require_with.
  induction rules as [|[k v] rules IH]; [done|]. cbn [map fst]. rewrite IH.
  by destruct (String.eqb k "required").
Qed.

Lemma validate_rules_cons H o field obj nested name names errors m :
  validate_rules H o field obj nested (name :: names) errors m
  = if (0 <? length errors)%nat then (Ok errors, m)
    else
      match get obj field with
      | Throw e => (Throw e, m)
      | Ok value =>
          match get (d_validation o) name with
          | Throw e => (Throw e, m)
          | Ok validationParameters =>
              match (if strict_eq (d_type o) (VStr "object")
                        && String.eqb name "validate"
                        && truthy validationParameters
                     then nested value m
                     else (Ok (VBool true), m)) with
              | (Throw e, m1) => (Throw e, m1)
              | (Ok subErrors, m1) =>
                  if negb (strict_eq subErrors (VBool true))
                  then (Ok (concat errors subErrors), m1)
                  else
                    match validate_rule H name (label_of o field) value
                            validationParameters errors m1 with
                    | (Ok errors', m2) =>
                        validate_rules H o field obj nested names errors' m2
                    | (Throw e, m2) => (Throw e, m2)
                    end
              end
          end
      end.
Proof.
  cbn [validate_rules]. unfold label_of. unfold_m.
  destruct (0 <? length errors)%nat; [done|].
  destruct (get obj field) as [value|e]; [|done].
  destruct (get (d_validation o) name) as [validationParameters|e]; [|done].
  destruct (strict_eq (d_type o) (VStr "object") && String.eqb name "validate"
            && truthy validationParameters).
  - destruct (nested value m) as [[sub|e] m1]; [|done]. by destruct (negb _).
  - by destruct (negb _).
Qed.

Lemma validate_rule_required H label value validationParameters errors m :
  validate_rule H "required" label value validationParameters errors m
  = (Ok (if missing value then errors ++ [VStr (str H label ++ " is required")] else errors),
     m).
Proof.
  unfold validate_rule, missing. change (String.eqb "required" "required") with true.
  cbv iota. by destruct (_ || _ || _).
Qed.

Lemma validate_rules_require_with H o field obj nested rules p names errors m :
  d_validation o = VObj rules ->
  validate_rules H (with_validation (VObj (require_with p rules)) o) field obj nested
    names errors m
  = validate_rules H o field obj nested names errors m.
Proof.
  intros Hv. revert errors m. induction names as [|name names IH]; intros errors m; [done|].
  rewrite !validate_rules_cons. unfold label_of.
  cbn [d_validation with_validation d_type d_label]. rewrite Hv. cbn [get].
  destruct (0 <? length errors)%nat; [done|].
  destruct (get obj field) as [value|e]; [|done].
  destruct (String.eqb_spec name "required") as [->|Hne].
  - change (String.eqb "required" "validate") with false. rewrite !andb_false_r.
    cbn [andb strict_eq Bool.eqb negb]. rewrite !validate_rule_required. apply IH.
  - rewrite assoc_require_with by done.
    destruct (_ && _ && _); [destruct (nested value m) as [[sub|e] m1]|]; try done.
    + destruct (negb _); [done|]. destruct (validate_rule _ _ _ _ _ _ _) as [[es|e] m2]; [apply IH | done].
    + cbn [strict_eq Bool.eqb negb].
      destruct (validate_rule _ _ _ _ _ _ _) as [[es|e] m2]; [apply IH | done].
Qed.

(** X16: the rule [required] does not read its parameter:
    [{required: false}] requires the field as [{required: true}]
    does.  A schema validates the same whatever the parameter of the
    [required] of its first field, and with [required] as the first
    rule of that field, a value that is missing, [null] or the empty
    string gives the one error [<label> is required]. *)
Theorem required_ignores_its_parameter (H : Host) (obj : value) (field : string)
    (o : options) (sub : subschema) (config : member_config) (rest : schema)
    (rules : props) (m : Machine) :
  d_validation o = VObj rules ->
  (forall p,
      validate H obj
        (SCons field (Descriptor (with_validation (VObj (require_with p rules)) o)
                        sub config) rest) m
      = validate H obj (SCons field (Descriptor o sub config) rest) m)
  /\ (forall p more value,
        rules = ("required", p) :: more ->
        get obj field = Ok value -> missing value = true ->
        validate H obj (SCons field (Descriptor o sub config) rest) m
        = (Ok (VArr [VStr (str H (label_of o field) ++ " is required")]), m)).
Proof.
  intros Hv. split.
  - intros p. unfold validate. cbn [validate_fields].
    cbn [d_validation with_validation]. rewrite Hv.
    change (defined (VObj ?x)) with true. cbv iota.
    cbn [keys]. rewrite keys_require_with.
    unfold mbind at 2 4, M_bind.
    unfold mbind at 1 3, M_bind.
    by rewrite validate_rules_require_with.
  - intros p more value -> Hx Hmiss. unfold validate. cbn [validate_fields]. rewrite Hv.
    change (defined (VObj ?x)) with true. cbv iota. cbn [keys map fst].
    unfold mbind at 2, M_bind. unfold mbind at 1, M_bind.
    rewrite validate_rules_cons. cbn [length Nat.ltb Nat.leb]. rewrite Hx, Hv. cbn [get assoc].
    change (String.eqb "required" "required") with true. cbn [from_option id].
    change (String.eqb "required" "validate") with false. rewrite andb_false_r. cbn [andb].
    cbn [strict_eq Bool.eqb negb]. rewrite validate_rule_required, Hmiss. cbn [app].
    rewrite validate_rules_stop by done. rewrite validate_fields_stop by done.
    reflexivity.
Qed.

(** An instance: [{required: false}] on a field the object does not
    have. *)
Lemma required_ignores_its_parameter_witness :
  d_validation (with_validation (VObj [("required", VBool false)]) no_options)
  = VObj [("required", VBool false)]
  /\ validate host (VObj []) (SCons "name" (ruled [("required", VBool false)]) SNil) m0
     = (Ok (VArr [VStr "name is required"]), m0).
Proof.
  split; [reflexivity|].
  exact (proj2 (required_ignores_its_parameter host (VObj []) "name"
                  (with_validation (VObj [("required", VBool false)]) no_options)
                  SchemaUndefined NoConfig SNil [("required", VBool false)] m0 eq_refl)
           (VBool false) [] VUndefined eq_refl eq_refl eq_refl).
Defined.

Lemma validate_unvalidated H obj s errors m :
  unvalidated s = true -> validate_fields H s obj errors m = (Ok errors, m).
Proof.
  revert errors m. induction s as [|field [o sub config] rest IH]; intros errors m Hu;
    [done|].
  cbn in Hu. apply andb_true_iff in Hu as [Ho Hrest]. apply negb_true_iff in Ho.
  cbn [validate_fields]. rewrite Ho. unfold mbind, M_bind, mret, M_ret. by apply IH.
Qed.

(** X17: [validate] returns [true] for a schema none of whose fields
    has rules, whatever the object.  It does not tell a missing value
    from a short one: with [minLength] or [maxLength] as the first
    rule of the first field, a value that is missing or [null] makes
    [validate] throw a TypeError, not return an error of validation. *)
Theorem validate_reads_the_value_under_a_rule (H : Host) (obj : value) (m : Machine) :
  (forall s, unvalidated s = true -> validate H obj s m = (Ok (VBool true), m))
  /\ (forall field o sub config rest name p more,
        d_validation o = VObj ((name, p) :: more) -> length_rule name ->
        get obj field = Ok VUndefined \/ get obj field = Ok VNull ->
        exists msg,
          validate H obj (SCons field (Descriptor o sub config) rest) m
          = (Throw (TypeError msg), m)).
Proof.
  split.
  - intros s Hu. unfold validate, mbind, M_bind. by rewrite validate_unvalidated.
  - intros field o sub config rest name p more Hv Hname Hx.
    unfold validate. cbn [validate_fields]. rewrite Hv.
    change (defined (VObj ?x)) with true. cbv iota. cbn [keys map fst].
    unfold mbind at 2, M_bind. unfold mbind at 1, M_bind.
    rewrite validate_rules_cons. cbn [length Nat.ltb Nat.leb]. rewrite Hv. cbn [get assoc].
    rewrite String.eqb_refl. cbn [from_option id].
    replace (String.eqb name "validate") with false
      by (by destruct Hname as [-> | ->]).
    rewrite andb_false_r. cbn [andb strict_eq Bool.eqb negb].
    assert (Hthrow : forall value,
              value = VUndefined \/ value = VNull ->
              exists msg,
                validate_rule H name (label_of o field) value p [] m
                = (Throw (TypeError msg), m)).
    { intros value Hval. unfold validate_rule.
      destruct Hname as [-> | ->], Hval as [-> | ->]; cbn; unfold_m; cbn; eauto. }
    destruct Hx as [-> | ->]; [destruct (Hthrow VUndefined) as [msg ->]
                              | destruct (Hthrow VNull) as [msg ->]]; eauto.
Qed.

(** X18: what [sanitizeAndValidate] returns is the sanitized model,
    an object with exactly the fields of the schema, when the model
    validates; otherwise it is the array of the errors, which is not
    empty.  The object is sanitized with [json] off. *)
Theorem sanitizeAndValidate_outcome (H : Host) (obj : value) (schema : schema)
    (m m' : Machine) (r : value) :
  sanitizeAndValidate H obj schema m = (Ok r, m') ->
  exists model m1,
    sanitize H obj schema false m = (Ok model, m1)
    /\ ((r = model /\ validate H model schema m1 = (Ok (VBool true), m')
         /\ exists clean, model = VObj clean /\ NoDup clean.*1
                          /\ forall k, k ∈ clean.*1 <-> k ∈ fields schema)
        \/ (exists errors,
              r = VArr errors /\ errors <> []
              /\ validate H model schema m1 = (Ok (VArr errors), m'))).
Proof.
  unfold sanitizeAndValidate. unfold mbind at 1, M_bind.
  destruct (sanitize H obj schema false m) as [[model|e] m1] eqn:Es; [|discriminate].
  unfold mbind, M_bind.
  destruct (validate H model schema m1) as [[validation|e] m2] eqn:Ev; [|discriminate].
  intros Hr. exists model, m1. split; [done|].
  assert (Hverdict : validation = VBool true
                     \/ exists errors, validation = VArr errors /\ errors <> []).
  { revert Ev. unfold validate, mbind, M_bind, mret, M_ret, verdict.
    destruct (validate_fields H schema model [] m1) as [[errors|e] m3]; [|discriminate].
    intros [= <- _]. destruct errors; cbn; eauto. }
  destruct Hverdict as [-> | (errors & -> & Hne)].
  - cbn in Hr. injection Hr as <- <-. left. split; [done|]. split; [done|].
    revert Es. unfold sanitize, mbind, M_bind, mret, M_ret.
    destruct (sanitize_fields H schema false (extend_copy obj) [] m) as [[clean|e] m3] eqn:E;
      [|discriminate].
    intros [= <- <-]. exists clean. split; [done|].
    apply sanitize_fields_keys in E as (Hk & Hnd & _). split.
    + apply Hnd. constructor.
    + intros k. rewrite Hk. cbn. rewrite elem_of_nil. tauto.
  - cbn in Hr. injection Hr as <- <-. right. by exists errors.
Qed.

(** An instance: an object with a member the schema does not have. *)
Lemma sanitizeAndValidate_outcome_witness :
  let obj := VObj [("name", VStr "Ada"); ("age", VNum 36)] in
  let schema := SCons "name" required_string SNil in
  sanitizeAndValidate host obj schema m0 = (Ok (VObj [("name", VStr "Ada")]), m0)
  /\ exists model m1,
       sanitize host obj schema false m0 = (Ok model, m1)
       /\ ((VObj [("name", VStr "Ada")] = model
            /\ validate host model schema m1 = (Ok (VBool true), m0)
            /\ exists clean, model = VObj clean /\ NoDup clean.*1
                             /\ forall k, k ∈ clean.*1 <-> k ∈ fields schema)
           \/ (exists errors,
                 VObj [("name", VStr "Ada")] = VArr errors /\ errors <> []
                 /\ validate host model schema m1 = (Ok (VArr errors), m0))).
Proof.
  cbv zeta. split; [reflexivity|].
  exact (sanitizeAndValidate_outcome host (VObj [("name", VStr "Ada"); ("age", VNum 36)])
           (SCons "name" required_string SNil) m0 m0 (VObj [("name", VStr "Ada")]) eq_refl).
Defined.

(** ** [stateChange] and [flush], once more *)

Lemma stateChange_eq manager actionName next m :
  defers manager ->
  exists m',
    stateChange manager actionName next m = (Ok tt, m')
    /\ pendingActions (this m') = pendingActions (this m) ++ [actionName]
    /\ _nextState (this m') = next
    /\ dirtyState (this m') = true
    /\ same_store (this m) (this m')
    /\ flushRequests m'
       = flushRequests m ++ (if dirtyState (this m) then [] else [uuid (this m)]).
Proof.
  intros Hd. unfold stateChange, queueFlush, same_store. unfold_m. cbn beta iota.
  destruct (debug (this m)) eqn:Hg; cbn; destruct (dirtyState (this m)) eqn:Hdirty; cbn;
    (eexists; split; [reflexivity|]); cbn;
    try match goal with
        | |- context [manager ?x] => destruct (Hd x) as [-> ->]
        end; cbn;
    rewrite ?app_nil_r; repeat split; done.
Qed.

(** X19: calls of [stateChange] one after the other, under a
    manager that defers the flush, ask for one flush, and for none
    when the store was dirty already.  Every name is appended to the
    pending names, the draft is the state of the last call, the store
    is dirty, and its state, listeners and history are as before. *)
Theorem stateChange_asks_for_one_flush (manager : Machine -> Machine)
    (changes : list (string * ref)) (m : Machine) :
  defers manager -> changes <> [] ->
  exists m',
    stateChanges manager changes m = (Ok tt, m')
    /\ pendingActions (this m') = pendingActions (this m) ++ map fst changes
    /\ Some (_nextState (this m')) = last (map snd changes)
    /\ dirtyState (this m') = true
    /\ same_store (this m) (this m')
    /\ flushRequests m'
       = flushRequests m ++ (if dirtyState (this m) then [] else [uuid (this m)]).
Proof.
  intros Hd. revert m.
  induction changes as [|[actionName next] rest IH]; intros m Hne; [done|].
  cbn [stateChanges]. unfold mbind, M_bind.
  destruct (stateChange_eq manager actionName next m Hd)
    as (m1 & -> & Hp & Hn & Hdirty & Hs & Hq).
  destruct rest as [|change rest].
  - exists m1. cbn. by rewrite Hn.
  - destruct (IH m1) as (m' & Hrun & Hp' & Hn' & Hdirty' & Hs' & Hq'); [done|].
    exists m'. split; [exact Hrun|].
    rewrite Hp', Hp, Hq', Hq, Hdirty, app_nil_r, <- app_assoc.
    repeat split; try done.
    all: destruct Hs as (? & ? & ? & ? & ?), Hs' as (? & ? & ? & ? & ?); congruence.
Qed.

(** An instance: two changes of a new store. *)
Lemma stateChange_asks_for_one_flush_witness :
  defers deferred
  /\ exists m',
       stateChanges deferred [("first", Prim (VNum 1)); ("second", Prim (VNum 2))] m0
       = (Ok tt, m')
       /\ pendingActions (this m') = ["first"; "second"]
       /\ _nextState (this m') = Prim (VNum 2)
       /\ flushRequests m' = ["s1"].
Proof.
  assert (Hd : defers deferred) by (intros m; split; reflexivity).
  split; [exact Hd|].
  destruct (stateChange_asks_for_one_flush deferred
              [("first", Prim (VNum 1)); ("second", Prim (VNum 2))] m0 Hd)
    as (m' & Hrun & Hp & Hn & _ & _ & Hq); [discriminate|].
  exists m'. split; [exact Hrun|]. split; [exact Hp|].
  split; [by injection Hn | exact Hq].
Defined.

(** X20: [flush] commits the draft as it is, under listeners that
    leave the store alone: the state is the draft, [null] when there
    was none, the draft is [null] and the store is clean; the
    listeners get the new state and a new object with the members of
    the old one; the history grows by one entry in debug mode only.
    A second [flush] therefore sets the state to [null], and notifies
    the listeners again. *)
Theorem flush_commits_the_draft_as_it_is (manager : Machine -> Machine)
    (behaviour : nat -> ref -> ref -> list action) (m : Machine) :
  (forall callback a b, behaviour callback a b = []) ->
  exists m',
    flush manager behaviour m = (Ok tt, m')
    /\ state (this m') = _nextState (this m)
    /\ _nextState (this m') = Prim VNull
    /\ dirtyState (this m') = false
    /\ heap m' = heap m ++ [VObj (enumerable (committed m))]
    /\ delivered m'
       = delivered m
         ++ map (fun callback => (callback, _nextState (this m), Ref (length (heap m))))
              (listeners_of m)
    /\ length (stateHistory (this m'))
       = (length (stateHistory (this m)) + (if debug (this m) then 1 else 0))%nat
    /\ exists m'',
         flush manager behaviour m' = (Ok tt, m'')
         /\ state (this m'') = Prim VNull
         /\ delivered m''
            = delivered m'
              ++ map (fun callback => (callback, Prim VNull, Ref (length (heap m'))))
                   (listeners_of m).
Proof.
  intros Hq.
  destruct (flush_quiet manager behaviour m Hq)
    as (m' & Hrun & Hs & Hn & Hd & Hp & Hl & Hh & Hhist & Hdel).
  exists m'. repeat (split; [done|]). split.
  - rewrite Hhist, length_app. by destruct (debug (this m)).
  - destruct (flush_quiet manager behaviour m' Hq)
      as (m'' & Hrun' & Hs' & Hn' & Hd' & Hp' & Hl' & Hh' & Hhist' & Hdel').
    exists m''. split; [done|]. split; [by rewrite Hs', Hn|].
    by rewrite Hdel', Hn, Hl.
Qed.

(** An instance: a flush with no mutation before it. *)
Lemma flush_commits_the_draft_as_it_is_witness :
  (forall callback a b, quiet callback a b = [])
  /\ exists m',
       flush deferred quiet (machine_of (counter 1) [7; 8]%nat false) = (Ok tt, m')
       /\ state (this m') = Prim VNull
       /\ delivered m' = [(7%nat, Prim VNull, Ref 1%nat); (8%nat, Prim VNull, Ref 1%nat)].
Proof.
  assert (Hq : forall callback a b, quiet callback a b = []) by reflexivity.
  split; [exact Hq|].
  destruct (flush_commits_the_draft_as_it_is deferred quiet
              (machine_of (counter 1) [7; 8]%nat false) Hq)
    as (m' & Hrun & Hs & _ & _ & _ & Hd & _).
  exists m'. split; [exact Hrun|]. split; [exact Hs | exact Hd].
Defined.

(** ** [ignore], and the component of [subscribeTo] *)

Lemma delete_past_end {A} (l : list A) (i : nat) : (length l <= i)%nat -> delete i l = l.
Proof.
  revert i. induction l as [|x l IH]; intros i Hi; [by destruct i|].
  destruct i as [|i]; cbn in *; [lia|]. f_equal. apply IH. lia.
Qed.

(** X21: [ignore] at the ends.  A handle of 0 or below removes
    nothing and returns [false].  A handle above the number of
    listeners removes nothing and returns [true].  A callback that
    listens twice loses its first registration only: after [listen]
    on a callback that listens already, [ignore] on it leaves it
    listening, last. *)
Theorem ignore_out_of_range (m : Machine) :
  (forall n, n <= 0 -> ignore (Handle n) m = (Ok false, m))
  /\ (forall n,
        Z.of_nat (length (listeners_of m)) < n ->
        ignore (Handle n) m = (Ok true, with_this (set_listeners (listeners_of m)) m))
  /\ (forall f pre post,
        listeners_of m = pre ++ f :: post -> f ∉ pre ->
        (_ ← listen f; ignore (Callback f)) m
        = (Ok true, with_this (set_listeners (pre ++ post ++ [f])) m)).
Proof.
  repeat apply conj.
  - intros n Hn. rewrite ignore_eq. cbn.
    by replace (0 <=? n - 1) with false by (symmetry; apply Z.leb_gt; lia).
  - intros n Hn. rewrite ignore_eq. cbn.
    replace (0 <=? n - 1) with true by (symmetry; apply Z.leb_le; lia).
    unfold splice1. by rewrite delete_past_end by lia.
  - intros f pre post Hl Hnin. unfold mbind, M_bind. rewrite listen_eq, ignore_eq.
    set (m1 := with_this _ m).
    assert (Hl1 : listeners_of m1 = pre ++ f :: (post ++ [f]))
      by (unfold m1, listeners_of; cbn; fold (listeners_of m); by rewrite Hl, <- app_assoc).
    cbn zeta. rewrite Hl1. cbn [ignore_index].
    destruct (indexOf_spec (pre ++ f :: post ++ [f]) f)
      as [[Hno _] | (pre' & post' & Heq & Hnin' & ->)].
    { exfalso. apply Hno. rewrite elem_of_app, elem_of_cons. auto. }
    assert (pre' = pre) as ->.
    { clear -Heq Hnin Hnin'. revert pre' Heq Hnin'.
      induction pre as [|x pre IH]; intros [|y pre'] Heq Hnin'; cbn in *; try done.
      - injection Heq as <- _. exfalso. apply Hnin'. by left.
      - injection Heq as -> _. exfalso. apply Hnin. by left.
      - injection Heq as <- Heq. f_equal. apply IH; [|done|].
        + intros ?. apply Hnin. by right.
        + intros ?. apply Hnin'. by right. }
    replace (0 <=? Z.of_nat (length pre)) with true by (symmetry; apply Z.leb_le; lia).
    unfold splice1. rewrite Nat2Z.id, delete_middle. unfold m1. by destruct m.
Qed.

Lemma listen_from l callback m :
  listen callback (with_this (set_listeners l) m)
  = (Ok (Z.of_nat (length l) + 1), with_this (set_listeners (l ++ [callback])) m).
Proof. by rewrite listen_eq. Qed.

Lemma ignore_handle_from l n m :
  0 < n ->
  ignore (Handle n) (with_this (set_listeners l) m)
  = (Ok true, with_this (set_listeners (delete (Z.to_nat (n - 1)) l)) m).
Proof.
  intros Hn. rewrite ignore_eq. cbn.
  by replace (0 <=? n - 1) with true by (symmetry; apply Z.leb_le; lia).
Qed.

Lemma with_listeners_same m : with_this (set_listeners (listeners_of m)) m = m.
Proof. by destruct m as [[] ? ? ? ? ?]. Qed.

(** X22: two components of [subscribeTo] that mount one after the
    other on a store, and unmount.  Unmounted in the order they
    mounted, they leave the listener of the second on the store: the
    handle of the second is the position it had when the first was
    still there.  Unmounted in the other order, the listeners are as
    before. *)
Theorem unmount_in_mount_order_leaks (m : Machine) (a b : nat) :
  let before := listeners_of m in
  (la ← componentDidMount a []; lb ← componentDidMount b [];
   _ ← componentWillUnmount la; componentWillUnmount lb) m
  = (Ok tt, with_this (set_listeners (before ++ [b])) m)
  /\ (la ← componentDidMount a []; lb ← componentDidMount b [];
      _ ← componentWillUnmount lb; componentWillUnmount la) m
     = (Ok tt, with_this (set_listeners before) m).
Proof.
  cbn zeta. unfold componentDidMount.
  set (before := listeners_of m).
  split.
  - unfold mbind at 1 2 3 4 5, M_bind, mret, M_ret. rewrite listen_eq. fold before.
    cbv beta iota. rewrite listen_from. cbv beta iota. cbn [app componentWillUnmount].
    unfold mbind, M_bind, mret, M_ret.
    rewrite ignore_handle_from by lia. cbv beta iota.
    rewrite ignore_handle_from by lia. cbv beta iota.
    replace (Z.to_nat (Z.of_nat (length before) + 1 - 1)) with (length before) by lia.
    rewrite <- app_assoc. cbn [app]. rewrite delete_middle.
    rewrite delete_past_end by (rewrite !length_app; cbn; lia). done.
  - unfold mbind at 1 2 3 4 5, M_bind, mret, M_ret. rewrite listen_eq. fold before.
    cbv beta iota. rewrite listen_from. cbv beta iota. cbn [app componentWillUnmount].
    unfold mbind, M_bind, mret, M_ret.
    rewrite ignore_handle_from by lia. cbv beta iota.
    rewrite ignore_handle_from by lia. cbv beta iota.
    replace (Z.to_nat (Z.of_nat (length (before ++ [a])) + 1 - 1))
      with (length (before ++ [a])) by lia.
    replace (Z.to_nat (Z.of_nat (length before) + 1 - 1)) with (length before) by lia.
    by rewrite delete_middle, app_nil_r, delete_middle, app_nil_r.
Qed.

(** ** [notify] while a listener leaves *)

Lemma forEach_quiet_on manager behaviour oldState count k m :
  (forall c, c ∈ take count (drop k (listeners_of m)) ->
             forall a b, behaviour c a b = []) ->
  forEach_listener manager behaviour count k oldState m
  = (Ok tt,
     with_delivered
       (fun d => d ++ map (fun callback => (callback, state (this m), oldState))
                        (take count (drop k (listeners_of m)))) m).
Proof.
  revert k m. induction count as [|count IH]; intros k m Hq.
  - cbn. unfold mret, M_ret, with_delivered. rewrite app_nil_r. by destruct m.
  - cbn [forEach_listener]. unfold_m. cbn beta iota. fold (listeners_of m).
    destruct (listeners_of m !! k) as [callback|] eqn:Hk.
    + rewrite (drop_S _ _ _ Hk) in Hq. cbn [take] in Hq.
      rewrite Hq by (by left). cbn [perform_all]. unfold mret, M_ret.
      rewrite IH.
      * unfold listeners_of, with_delivered. cbn.
        fold (listeners_of m). rewrite (drop_S _ _ _ Hk). cbn.
        by rewrite <- app_assoc.
      * intros c Hc. apply Hq. by right.
    + unfold mret, M_ret. apply lookup_ge_None in Hk. rewrite IH.
      * rewrite !drop_ge by lia. by rewrite !take_nil.
      * intros c. rewrite drop_ge by lia. rewrite take_nil. by intros ?%elem_of_nil.
Qed.

Lemma forEach_split manager behaviour oldState c1 c2 k m :
  forEach_listener manager behaviour (c1 + c2) k oldState m
  = match forEach_listener manager behaviour c1 k oldState m with
    | (Ok _, m1) => forEach_listener manager behaviour c2 (k + c1) oldState m1
    | (Throw e, m1) => (Throw e, m1)
    end.
Proof.
  revert k m. induction c1 as [|c1 IH]; intros k m.
  - cbn. unfold mret, M_ret. by rewrite Nat.add_0_r.
  - cbn [Nat.add forEach_listener]. rewrite !bind_run. unfold this_, gets.
    rewrite !bind_run.
    match goal with
    | |- context [match ?c with _ => _ end] => destruct c as [[u|e] m2]
    end; [|done].
    rewrite IH. by replace (k + S c1)%nat with (S k + c1)%nat by lia.
Qed.

Lemma forEach_step manager behaviour oldState count k m listener :
  listeners_of m !! k = Some listener ->
  forEach_listener manager behaviour (S count) k oldState m
  = match perform_all manager (behaviour listener (state (this m)) oldState)
            (with_delivered (fun d => d ++ [(listener, state (this m), oldState)]) m) with
    | (Ok _, m1) => forEach_listener manager behaviour count (S k) oldState m1
    | (Throw e, m1) => (Throw e, m1)
    end.
Proof.
  intros Hk. cbn [forEach_listener]. rewrite !bind_run. unfold this_ at 1, gets.
  cbv beta iota. fold (listeners_of m). rewrite Hk. rewrite !bind_run.
  unfold this_, gets. cbv beta iota. rewrite !bind_run. unfold modify. cbv beta iota.
  done.
Qed.

Lemma first_occurrence (pre pre' post post' : list nat) (a : nat) :
  pre ++ a :: post = pre' ++ a :: post' -> a ∉ pre -> a ∉ pre' -> pre' = pre.
Proof.
  revert pre'. induction pre as [|x pre IH]; intros [|y pre'] Heq Hpre Hpre';
    cbn in *; try done.
  - injection Heq as -> _. exfalso. apply Hpre'. by left.
  - injection Heq as -> _. exfalso. apply Hpre. by left.
  - injection Heq as <- Heq. f_equal. apply IH; [done| |].
    + intros ?. apply Hpre. by right.
    + intros ?. apply Hpre'. by right.
Qed.

Lemma ignore_first pre a post m :
  listeners_of m = pre ++ a :: post -> a ∉ pre ->
  ignore (Callback a) m = (Ok true, with_this (set_listeners (pre ++ post)) m).
Proof.
  intros Hl Hpre. rewrite ignore_eq. cbn zeta. rewrite Hl. cbn [ignore_index].
  destruct (indexOf_spec (pre ++ a :: post) a)
    as [[Hno _] | (pre' & post' & Heq & Hnin' & ->)].
  { exfalso. apply Hno. rewrite elem_of_app, elem_of_cons. auto. }
  assert (pre' = pre) as -> by (by eapply first_occurrence).
  replace (0 <=? Z.of_nat (length pre)) with true by (symmetry; apply Z.leb_le; lia).
  unfold splice1. by rewrite Nat2Z.id, delete_middle.
Qed.

Lemma forEach_with_a_removal manager behaviour pre post a b oldState m :
  listeners_of m = pre ++ a :: b :: post -> a ∉ pre -> a ∉ post ->
  (forall s o, behaviour a s o = [Ignore (Callback a)]) ->
  (forall c s o, c <> a -> behaviour c s o = []) ->
  exists m1,
    forEach_listener manager behaviour (length (listeners_of m)) 0 oldState m = (Ok tt, m1)
    /\ listeners_of m1 = pre ++ b :: post
    /\ this m1 = set_listeners (pre ++ b :: post) (this m)
    /\ delivered m1
       = delivered m
         ++ map (fun callback => (callback, state (this m), oldState)) (pre ++ a :: post).
Proof.
  intros Hl Hpre Hpost Ha Hq.
  rewrite Hl, length_app. cbn [length].
    rewrite forEach_split.
    rewrite forEach_quiet_on.
    2: { intros c Hc. rewrite Hl, drop_0, take_app_length in Hc.
         intros s o. apply Hq. intros ->. done. }
    rewrite Hl, drop_0, take_app_length. cbn [Nat.add].
    set (m0 := with_delivered _ m).
    assert (Hl0 : listeners_of m0 = pre ++ a :: b :: post) by exact Hl.
    rewrite (forEach_step _ _ _ _ _ _ a) by (by rewrite Hl0, list_lookup_middle).
    rewrite Ha. cbn [perform_all perform]. rewrite !bind_run.
    rewrite (ignore_first pre a (b :: post)) by done.
    unfold mret, M_ret. cbv beta iota.
    assert (Hdrop : drop (S (length pre)) (pre ++ b :: post) = post).
    { replace (pre ++ b :: post) with ((pre ++ [b]) ++ post) by (by rewrite <- app_assoc).
      apply drop_app_length'. rewrite length_app. cbn. lia. }
    rewrite forEach_quiet_on.
    2: { intros c Hc s o. apply Hq. intros ->.
         unfold listeners_of in Hc. cbn in Hc. rewrite Hdrop in Hc.
         apply elem_of_take in Hc as (i & Hc & _).
         apply Hpost. by eapply list_elem_of_lookup_2. }
    eexists. split; [reflexivity|]. split; [reflexivity|]. split; [reflexivity|].
    unfold listeners_of. cbn. rewrite Hdrop.
    rewrite firstn_all2 by lia.
    rewrite map_app. cbn [map]. by rewrite <- !app_assoc.
Qed.

(** X23: a listener that stops listening when it is notified makes
    [notify] skip the listener after it: of the listeners
    [pre ++ a :: b :: post], where only [a] acts, and ignores
    itself, every one but [b] is notified, once.  [b] is not, and
    the listeners are then [pre ++ b :: post]. *)
Theorem notify_skips_after_a_removal (manager : Machine -> Machine)
    (behaviour : nat -> ref -> ref -> list action) (pre post : list nat) (a b : nat)
    (oldState : ref) (m : Machine) :
  listeners_of m = pre ++ a :: b :: post -> a ∉ pre -> a ∉ post ->
  (forall s o, behaviour a s o = [Ignore (Callback a)]) ->
  (forall c s o, c <> a -> behaviour c s o = []) ->
  exists m',
    notify manager behaviour oldState m = (Ok tt, m')
    /\ listeners_of m' = pre ++ b :: post
    /\ delivered m'
       = delivered m
         ++ map (fun callback => (callback, state (this m), oldState)) (pre ++ a :: post)
    /\ dirtyState (this m') = false.
Proof.
  intros Hl Hpre Hpost Ha Hq.
  unfold notify. rewrite !bind_run. unfold this_ at 1, gets. cbv beta iota.
  rewrite !bind_run. unfold this_ at 1, gets. cbv beta iota. rewrite !bind_run.
  fold (listeners_of m).
  destruct (debug (this m)).
  - unfold warn, modify. cbv beta iota.
    set (m0 := with_console _ m).
    destruct (forEach_with_a_removal manager behaviour pre post a b oldState m0
                Hl Hpre Hpost Ha Hq) as (m1 & Hrun & Hl1 & Ht1 & Hd1).
    change (listeners_of m0) with (listeners_of m) in Hrun. rewrite bind_run, Hrun.
    eexists. split; [reflexivity|]. unfold listeners_of. cbn. by rewrite Ht1.
  - unfold mret, M_ret. cbv beta iota.
    destruct (forEach_with_a_removal manager behaviour pre post a b oldState m
                Hl Hpre Hpost Ha Hq) as (m1 & Hrun & Hl1 & Ht1 & Hd1).
    rewrite ?bind_run, Hrun.
    eexists. split; [reflexivity|]. unfold listeners_of. cbn. by rewrite Ht1.
Qed.

(** An instance: the listener 7 leaves, the listener 8 is skipped. *)
Lemma notify_skips_after_a_removal_witness :
  listeners_of (machine_of (counter 1) [7; 8; 9]%nat false) = [] ++ 7%nat :: 8%nat :: [9%nat]
  /\ exists m',
       notify deferred leaving (Prim VNull) (machine_of (counter 1) [7; 8; 9]%nat false)
       = (Ok tt, m')
       /\ listeners_of m' = [8; 9]%nat
       /\ delivered m' = [(7%nat, Ref 0%nat, Prim VNull); (9%nat, Ref 0%nat, Prim VNull)].
Proof.
  split; [reflexivity|].
  destruct (notify_skips_after_a_removal deferred leaving [] [9%nat] 7%nat 8%nat (Prim VNull)
              (machine_of (counter 1) [7; 8; 9]%nat false))
    as (m' & Hrun & Hl & Hd & _).
  - reflexivity.
  - by intros ?%elem_of_nil.
  - intros [E | ?%elem_of_nil]%elem_of_cons; [discriminate E | done].
  - reflexivity.
  - intros c s o Hc. unfold leaving. by destruct (Nat.eqb_spec c 7).
  - exists m'. split; [exact Hrun|]. split; [exact Hl | exact Hd].
Defined.

(** ** [seed], once more *)

Lemma keys_assign_present k v ps :
  k ∈ keys (VObj ps) -> keys (VObj (assign_prop k v ps)) = keys (VObj ps).
Proof.
  cbn [keys]. induction ps as [|[k0 v0] ps IH]; cbn; [by intros ?%elem_of_nil|].
  destruct (String.eqb_spec k k0) as [<-|Hk]; cbn; [done|].
  intros [?|Hin]%elem_of_cons; [done|]. f_equal. by apply IH.
Qed.

Lemma seeded_refl ps : seeded ps ps.
Proof.
  split; [done|]. split; [done|]. intros k a Ha. exists []. by rewrite app_nil_r.
Qed.

(** One assignment of [seed] to the draft. *)
Lemma seeded_step ps ps' key x :
  seeded ps ps' -> key ∈ keys (VObj ps) ->
  (forall v, assoc key ps' = Some v -> defined v = true -> isArray v = false -> False) ->
  (forall a, assoc key ps' = Some (VArr a) -> exists b, x = VArr (a ++ b)) ->
  seeded ps (assign_prop key x ps').
Proof.
  intros (Hk & Hv & Ha) Hin Hnv Hna. split; [|split].
  - rewrite keys_assign_present; [done | by rewrite Hk].
  - intros k v Hkv Hd Hn. destruct (String.eqb_spec k key) as [->|Hne].
    + exfalso. eapply Hnv; [by apply Hv | done | done].
    + rewrite assoc_assign_other by done. by apply Hv.
  - intros k a Hka. destruct (Ha k a Hka) as [b Hb].
    destruct (String.eqb_spec k key) as [->|Hne].
    + rewrite assoc_assign_same. destruct (Hna _ Hb) as [b' ->].
      exists (b ++ b'). by rewrite app_assoc.
    + rewrite assoc_assign_other by done. eauto.
Qed.

Lemma ref_get_eq l k m o :
  heap m !! l = Some o -> ref_get (Ref l) k m = (get o k, m).
Proof.
  intros Hl. unfold ref_get, ref_value, deref. rewrite bind_run. unfold gets, lift.
  by rewrite Hl.
Qed.

Lemma ref_set_obj l k x m ps :
  heap m !! l = Some (VObj ps) ->
  ref_set (Ref l) k x m
  = (Ok tt, with_heap (fun h => <[l:=VObj (assign_prop k x ps)]> h) m).
Proof.
  intros Hl. unfold ref_set, ref_value, deref, store_at. rewrite bind_run.
  unfold gets, lift, modify. rewrite Hl. cbn [from_option id]. by rewrite bind_run.
Qed.

Lemma seed_keys_cons key ks l ps' partialState m :
  heap m !! l = Some (VObj ps') ->
  seed_keys (key :: ks) (Ref l) partialState m
  = match get partialState "state" with
    | Throw e => (Throw e, m)
    | Ok from =>
        match get from key with
        | Throw e => (Throw e, m)
        | Ok newValue =>
            if String.eqb (typeof newValue) "undefined" then (Ok false, m)
            else
              match seed_value (default VUndefined (assoc key ps')) newValue with
              | Some x =>
                  seed_keys ks (Ref l) partialState
                    (with_heap (fun h => <[l:=VObj (assign_prop key x ps')]> h) m)
              | None => seed_keys ks (Ref l) partialState m
              end
        end
    end.
Proof.
  intros Hl. cbn [seed_keys]. rewrite bind_run, (ref_get_eq _ _ _ _ Hl). cbn [get].
  rewrite bind_run. unfold lift at 1.
  destruct (get partialState "state") as [from|e]; [|done].
  rewrite bind_run. unfold lift at 1.
  destruct (get from key) as [newValue|e]; [|done].
  destruct (String.eqb (typeof newValue) "undefined") eqn:Et; [done|].
  destruct (default VUndefined (assoc key ps')) eqn:Ev, newValue;
    cbn [seed_value typeof]; rewrite bind_run;
    try change (String.eqb "undefined" "undefined") with true;
    try change (String.eqb "object" "undefined") with false;
    try change (String.eqb "boolean" "undefined") with false;
    try change (String.eqb "number" "undefined") with false;
    try change (String.eqb "string" "undefined") with false;
    try change (String.eqb "function" "undefined") with false;
    cbv iota; rewrite ?(ref_set_obj _ _ _ _ _ Hl); reflexivity.
Qed.

Lemma seed_value_after value newValue x :
  seed_value value newValue = Some x ->
  (value = VUndefined /\ x = newValue)
  \/ (exists a b, value = VArr a /\ newValue = VArr b /\ x = VArr (a ++ b)).
Proof.
  unfold seed_value. destruct value, newValue; cbn; intros [= <-]; eauto 10.
Qed.

Lemma seed_keys_seeded ks l ps partialState m0 m r m' :
  (forall k, k ∈ ks -> k ∈ keys (VObj ps)) ->
  draft_seeded l ps m0 m ->
  seed_keys ks (Ref l) partialState m = (r, m') ->
  draft_seeded l ps m0 m'
  /\ console m' = console m /\ dispatched m' = dispatched m.
Proof.
  revert m. induction ks as [|key ks IH]; intros m Hks Hinv.
  - by intros [= _ <-].
  - assert (Hinv' := Hinv).
    destruct Hinv' as (Ht & Hdel & Hq & Hlen & Hother & ps' & Hl & Hs).
    rewrite (seed_keys_cons _ _ _ _ _ _ Hl).
    destruct (get partialState "state") as [from|e]; [|by intros [= _ <-]].
    destruct (get from key) as [newValue|e]; [|by intros [= _ <-]].
    destruct (String.eqb (typeof newValue) "undefined"); [by intros [= _ <-]|].
    assert (Hkey : key ∈ keys (VObj ps)) by (apply Hks; by left).
    assert (Hks' : forall k, k ∈ ks -> k ∈ keys (VObj ps))
      by (intros k Hk; apply Hks; by right).
    destruct (seed_value _ newValue) as [x|] eqn:Hx; [|by apply IH].
    intros Hrun. eapply IH in Hrun; [exact Hrun | done |].
    unfold draft_seeded. cbn [this delivered flushRequests heap with_heap].
    repeat (split; [done|]). split; [by rewrite length_insert|]. split.
    + intros l' Hne. rewrite list_lookup_insert_ne by done. by apply Hother.
    + exists (assign_prop key x ps'). split.
      { apply list_lookup_insert_eq. by eapply lookup_lt_Some. }
      apply seeded_step; [done | done | |].
      * intros v Hv Hd Hn. rewrite Hv in Hx. cbn [from_option id] in Hx.
        apply seed_value_after in Hx as [[-> _] | (a & b & -> & _)]; done.
      * intros a Hv. rewrite Hv in Hx. cbn [from_option id] in Hx.
        apply seed_value_after in Hx as [[? _] | (a' & b & [= <-] & _ & ->)]; [done|eauto].
Qed.

(** X24: [seed] on a payload whose [state] is an object is the loop
    over the keys of the draft, and then, when the loop went through
    every key, the dispatch of the draft under the seed name; when the
    loop left at a missing key [seed] returns, and when it threw
    [seed] throws.  Up to there the store is as [nextState] left it:
    the loop edits the draft only, in place.  The draft keeps its
    keys and their order; a value of it that is defined and is no
    array is never replaced, and an array only grows at its end.
    Nothing is written on the console, no listener is notified and no
    flush is asked for.  (What the bus does with the draft it is
    given is not [seed]'s.) *)
Theorem seed_edits_only_the_draft (partialState : value) (l : loc) (ps : props)
    (m m1 : Machine) :
  seedable partialState ->
  nextState m = (Ok (Ref l), m1) -> heap m1 !! l = Some (VObj ps) ->
  exists completed m2,
    seed_keys (keys (VObj ps)) (Ref l) partialState m1 = (completed, m2)
    /\ draft_seeded l ps m1 m2
    /\ console m2 = console m1 /\ dispatched m2 = dispatched m1
    /\ seed partialState m
       = match completed with
         | Ok true => dispatch (ACTION_SEED ++ "_" ++ uuid (this m2)) [Ref l] m2
         | Ok false => (Ok tt, m2)
         | Throw e => (Throw e, m2)
         end.
Proof.
  intros (st & Hst & Hty) Hnext Hl.
  destruct (seed_keys (keys (VObj ps)) (Ref l) partialState m1) as [completed m2] eqn:Hrun.
  exists completed, m2. split; [done|].
  pose proof Hrun as Hloop.
  apply (seed_keys_seeded _ l ps _ m1) in Hloop as (Hinv & Hc & Hd); [|done|].
  2: { unfold draft_seeded. repeat (split; [done|]). exists ps. split; [done|].
       apply seeded_refl. }
  repeat (split; [done|]).
  unfold seed.
  assert (Hobj : typeof partialState = "object").
  { destruct partialState; try done; cbn [get] in Hst.
    all: try (injection Hst as <-; discriminate Hty).
    all: change (String.eqb "state" "length") with false in Hst; cbv iota in Hst.
    all: unfold array_index in Hst; rewrite find_index_name in Hst by done.
    all: injection Hst as <-; discriminate Hty. }
  rewrite bind_run, Hobj. change (negb (String.eqb "object" "object")) with false.
  cbv iota. rewrite bind_run. unfold lift at 1. rewrite Hst. cbv iota.
  unfold mret at 1, M_ret. rewrite Hty.
  change (negb (String.eqb "object" "object")) with false. cbv iota.
  rewrite bind_run, Hnext. rewrite bind_run. unfold ref_value, deref, gets.
  rewrite Hl. cbn [from_option id]. rewrite bind_run, Hrun.
  destruct completed as [[|]|e]; [|done|done].
  rewrite bind_run. by unfold this_, gets.
Qed.

(** An instance: an array of the draft grows, a string of it stays. *)
Lemma seed_edits_only_the_draft_witness :
  let m := machine_of (VObj [("a", VArr [VNum 1; VNum 2]); ("b", VStr "kept")]) [] false in
  let from := payload [("a", VArr [VNum 3]); ("b", VStr "new")] in
  seedable from
  /\ exists m2,
       seed_keys ["a"; "b"] (Ref 1%nat) from (snd (nextState m)) = (Ok true, m2)
       /\ heap m2 !! 1%nat
          = Some (VObj [("a", VArr [VNum 1; VNum 2; VNum 3]); ("b", VStr "kept")])
       /\ this m2 = this (snd (nextState m))
       /\ seed from m = dispatch "__STORE_STATE_SEED___s1" [Ref 1%nat] m2.
Proof.
  cbv zeta.
  assert (Hs : seedable (payload [("a", VArr [VNum 3]); ("b", VStr "new")]))
    by (eexists; split; reflexivity).
  split; [exact Hs|].
  destruct (seed_edits_only_the_draft
              (payload [("a", VArr [VNum 3]); ("b", VStr "new")]) 1%nat
              [("a", VArr [VNum 1; VNum 2]); ("b", VStr "kept")]
              (machine_of (VObj [("a", VArr [VNum 1; VNum 2]); ("b", VStr "kept")])
                 [] false)
              _ Hs eq_refl eq_refl)
    as (completed & m2 & Hrun & Hinv & _ & _ & Hseed).
  assert (Hdone : (completed, m2)
                  = (Ok true,
                     snd (seed_keys ["a"; "b"] (Ref 1%nat)
                            (payload [("a", VArr [VNum 3]); ("b", VStr "new")])
                            (snd (nextState
                                    (machine_of
                                       (VObj [("a", VArr [VNum 1; VNum 2]);
                                              ("b", VStr "kept")]) [] false))))))
    by (rewrite <- Hrun; reflexivity).
  injection Hdone as -> ->.
  eexists. split; [reflexivity|]. split; [reflexivity|]. split; [reflexivity|].
  exact Hseed.
Defined.
